(** * kor: objects stuck in deletion behind their finalizers

    A shallow embedding of [pkg/kor/finalizers.go]: the scan that lists every
    namespaced, listable resource type of a cluster and keeps the objects that
    carry a finalizer and a deletion timestamp, and [GetUnusedfinalizers],
    which drives the scan, the optional deletion and the report.

    Go maps are [gmap]s, slices are lists, [(value, error)] results are
    [Result]s or pairs with an [option error].  Everything the code does to
    the outside (the calls to the API server and to the helpers of the
    package, the lines it prints, [os.Exit]) is kept in a trace of [Event]s,
    so that the order and the presence of those effects can be stated. *)

From Stdlib Require Import ZArith Ascii String.
From stdpp Require Import base option list gmap fin_maps strings.

Local Open Scope string_scope.
Local Open Scope list_scope.

(** ** Values of the Go program *)

(** An [error] is represented by its message ([%v] prints it). *)
Definition error := string.

(** A Go result [(v, err)] whose value is only meaningful when [err == nil]. *)
Inductive Result (A : Type) : Type :=
| Ok (a : A)
| Err (e : error).
Arguments Ok {A} a.
Arguments Err {A} e.

(** [metav1.Time], as seconds since the epoch. *)
Definition Time := Z.

(** [metav1.NamespaceAll] *)
Definition NamespaceAll : string := "".

Record GroupVersion := { Group : string; Version : string }.

Record GroupVersionResource :=
  { GVRGroup : string; GVRVersion : string; GVRResource : string }.

(** [gv.WithResource(resource)] *)
Definition WithResource (gv : GroupVersion) (resource : string) : GroupVersionResource :=
  {| GVRGroup := Group gv; GVRVersion := Version gv; GVRResource := resource |}.

(** [metav1.APIResource], with the fields the scan reads. *)
Record APIResource :=
  { Name : string; Namespaced : bool; Verbs : list string }.

(** [metav1.APIResourceList]; its field [GroupVersion] is a string. *)
Record APIResourceList :=
  { GroupVersionStr : string; APIResources : list APIResource }.

(** [unstructured.Unstructured], seen through the getters the scan calls. *)
Record Unstructured :=
  { GetName : string;
    GetNamespace : string;
    GetLabels : gmap string string;
    GetCreationTimestamp : Time;
    GetFinalizers : list string;
    GetDeletionTimestamp : option Time }.

(** Modelled from the spec: the declaration of [FilterOptions] is not part of
    [finalizers.go]; the spec gives it exclusion label selectors and an
    optional age window.  The scan only reads [ExcludeLabels] and hands the
    whole value to [HasIncludedAge]. *)
Record FilterOptions :=
  { ExcludeLabels : list string;
    MinAge : option Z;
    MaxAge : option Z }.

(** Modelled from the spec: [IncludeExcludeLists] is declared elsewhere in the
    package; the spec gives it two ordered sequences of strings, and
    [GetUnusedfinalizers] only takes their [len]. *)
Record IncludeExcludeLists :=
  { IncludeListStr : list string; ExcludeListStr : list string }.

(** Modelled from the spec: [Opts] is declared elsewhere in the package; of
    the inputs the spec lists, [GetUnusedfinalizers] reads the delete flag and
    the non-interactive flag, and hands the whole value to the formatters. *)
Record Opts := { DeleteFlag : bool; NoInteractive : bool }.

(** [map[string][]string]: resource type name to object names. *)
Abbreviation TypeIndex := (gmap string (list string)).
(** [map[string]map[string][]string]: namespace to [TypeIndex]. *)
Abbreviation NamespaceIndex := (gmap string (gmap string (list string))).

(** [slices.Contains] *)
Definition Contains (s : list string) (v : string) : bool := bool_decide (v ∈ s).

Definition newline : string := String "010"%char "".

(** [%s] applied to a [[]string]. *)
Definition fmtStrings (l : list string) : string :=
  "[" +:+ String.concat " " l +:+ "]".

(** ** Effects *)

(** What a run does to the outside, in order. *)
Inductive Event :=
| Stdout (line : string)
| Stderr (line : string)
| CallDiscovery
| CallList (gvr : GroupVersionResource) (namespace : string)
| CallHasExcludedLabel (labels : gmap string string)
| CallHasIncludedAge (creation : Time)
| CallDelete (withFinalizer : bool) (names : list string)
             (namespace resourceType : string) (noInteractive : bool).

(** The lines the code prints, [%s] and [%v] filled in. *)
Definition discoveryDiagnostic (err : error) : Event :=
  Stdout ("Error fetching server resources: " +:+ err +:+ newline).

Definition listDiagnostic (groupVersion : string) (err : error) : Event :=
  Stdout ("Error listing resources for GVR " +:+ groupVersion +:+ ": " +:+ err +:+ newline).

Definition scanDiagnostic (err : error) : Event :=
  Stderr ("Failed to process resources waiting for finalizers: " +:+ err +:+ newline).

Definition namespaceDiagnostic (namespace : string) (err : error) : Event :=
  Stderr ("Failed to process namespace " +:+ namespace +:+ ": " +:+ err +:+ newline).

Definition deleteDiagnostic (resourceDiff : list string) (namespace : string)
    (err : error) : Event :=
  Stderr ("Failed to delete objects waiting for Finalizers " +:+ fmtStrings resourceDiff
          +:+ " in namespace " +:+ namespace +:+ ": " +:+ err +:+ newline).

Definition formatterDiagnostic (err : error) : Event :=
  Stdout ("err: " +:+ err +:+ newline).

(** A call either returns or ends the process ([os.Exit]). *)
Inductive Outcome (A : Type) : Type :=
| Exited (code : Z)
| Returned (a : A).
Arguments Exited {A} code.
Arguments Returned {A} a.

(** ** The collaborators

    The API server, the helpers of package [kor] that live in other files, the
    JSON encoder and the order in which Go walks a map.  [World] is the state of
    everything outside the program; listing and discovery read it, deleting
    changes it. *)
Record Env := {
  World : Type;
  (** [clientset.Discovery().ServerPreferredResources()] *)
  ServerPreferredResources : World → Result (list APIResourceList);
  (** [dynamicClient.Resource(gvr).Namespace(ns).List(...)], the items. *)
  DynamicList : World → GroupVersionResource → string → Result (list Unstructured);
  (** [schema.ParseGroupVersion] *)
  ParseGroupVersion : string → Result GroupVersion;
  HasExcludedLabel : gmap string string → list string → bool * option error;
  HasIncludedAge : Time → FilterOptions → bool * option error;
  SetNamespaceList : IncludeExcludeLists → World → list string;
  (** [DeleteResource(diff, clientset, namespace, resourceType, noInteractive)]:
      the names it reports back, its error, and the world it leaves. *)
  DeleteResource :
    list string → string → string → bool → World → (list string * option error) * World;
  DeleteResourceWithFinalizer :
    list string → string → string → bool → World → (list string * option error) * World;
  FormatOutputFromMap : string → gmap string (list string) → Opts → string;
  (** [json.MarshalIndent(response, "", "  ")] *)
  MarshalIndent : gmap string (gmap string (list string)) → Result string;
  unusedResourceFormatter : string → string → Opts → string → string * option error;
  (** [for k, v := range m]: some order over the entries of [m]. *)
  range : World → ∀ V : Type, gmap string V → list (string * V);
  range_perm : ∀ w V (m : gmap string V), range w V m ≡ₚ map_to_list m
}.

(** ** The finalizer predicate *)

Definition CheckFinalizers (finalizers : list string) (deletionTimestamp : option Time) : bool :=
  if (0 <? length finalizers)%nat && bool_decide (deletionTimestamp ≠ None)
  then true
  else false.

(** The condition written in place in the earlier revision of the scan. *)
Definition pendingInline (item : Unstructured) : bool :=
  (0 <? length (GetFinalizers item))%nat && bool_decide (GetDeletionTimestamp item ≠ None).

Definition pendingChecked (item : Unstructured) : bool :=
  CheckFinalizers (GetFinalizers item) (GetDeletionTimestamp item).

(** ** Loops that write to the trace *)

Fixpoint forEach {X S : Type} (body : S → X → list Event * S) (xs : list X) (s : S)
  : list Event * S :=
  match xs with
  | [] => ([], s)
  | x :: rest =>
      let '(e1, s1) := body s x in
      let '(e2, s2) := forEach body rest s1 in
      (e1 ++ e2, s2)
  end.

(** ** The scan

    [getResourcesWithFinalizersPendingDeletion] and
    [getNamespacedResourcesWithFinalizersPendingDeletion] are the same text
    but for three places: the scope handed to [Namespace(...)], the test that
    decides that an object is pending and the statement that records it.
    [scan] is that text, the three places being its parameters. *)
Section Scan.
Context (E : Env) {A : Type}.
Variable scope : string.
Variable isPending : Unstructured → bool.
Variable record : A → string → Unstructured → A.
Variable w : World E.
Variable filterOpts : FilterOptions.

(** Body of [for _, item := range resourceList.Items]. *)
Definition scanItem (resourceName : string) (acc : A) (item : Unstructured)
  : list Event * A :=
  let labels := GetLabels item in
  if bool_decide (default "" (labels !! "kor/used") = "true") then ([], acc)
  else
    let '(excluded, _) := HasExcludedLabel E labels (ExcludeLabels filterOpts) in
    if excluded then ([CallHasExcludedLabel labels], acc)
    else
      let '(included, _) := HasIncludedAge E (GetCreationTimestamp item) filterOpts in
      let calls := [CallHasExcludedLabel labels;
                    CallHasIncludedAge (GetCreationTimestamp item)] in
      if negb included then (calls, acc)
      else if isPending item then (calls, record acc resourceName item)
      else (calls, acc).

(** Body of [for _, resourceType := range apiResourceList.APIResources]. *)
Definition scanResource (groupVersion : string) (gv : GroupVersion)
    (acc : A) (resourceType : APIResource) : list Event * A :=
  if Namespaced resourceType && Contains (Verbs resourceType) "list" then
    let gvr := WithResource gv (Name resourceType) in
    match DynamicList E w gvr scope with
    | Err err =>
        ([CallList gvr scope; listDiagnostic groupVersion err], acc)
    | Ok items =>
        let '(ev, acc') := forEach (scanItem (Name resourceType)) items acc in
        (CallList gvr scope :: ev, acc')
    end
  else ([], acc).

(** [for _, apiResourceList := range resourceTypes], which returns what it
    has together with the error at the first group/version that does not
    parse. *)
Fixpoint scanCatalog (resourceTypes : list APIResourceList) (acc : A)
  : list Event * (A * option error) :=
  match resourceTypes with
  | [] => ([], (acc, None))
  | apiResourceList :: rest =>
      match ParseGroupVersion E (GroupVersionStr apiResourceList) with
      | Err err => ([], (acc, Some err))
      | Ok gv =>
          let '(e1, acc1) :=
            forEach (scanResource (GroupVersionStr apiResourceList) gv)
                    (APIResources apiResourceList) acc in
          let '(e2, r) := scanCatalog rest acc1 in
          (e1 ++ e2, r)
      end
  end.

Definition scan (empty : A) : list Event * Outcome (A * option error) :=
  match ServerPreferredResources E w with
  | Err err =>
      ([CallDiscovery; discoveryDiagnostic err], Exited 1)
  | Ok resourceTypes =>
      let '(ev, r) := scanCatalog resourceTypes empty in
      (CallDiscovery :: ev, Returned r)
  end.
End Scan.

(** [pending[ns][type] = append(pending[ns][type], name)], making the inner
    map when the namespace is new. *)
Definition recordGlobal (acc : NamespaceIndex) (resourceName : string)
    (item : Unstructured) : NamespaceIndex :=
  let inner := default ∅ (acc !! GetNamespace item) in
  <[GetNamespace item :=
      <[resourceName := default [] (inner !! resourceName) ++ [GetName item]]> inner]> acc.

(** [pending[type] = append(pending[type], name)] *)
Definition recordScoped (acc : TypeIndex) (resourceName : string)
    (item : Unstructured) : TypeIndex :=
  <[resourceName := default [] (acc !! resourceName) ++ [GetName item]]> acc.

(** The all-namespaces scan; [namespaces] is accepted and not read. *)
Definition getResourcesWithFinalizersPendingDeletion (E : Env) (w : World E)
    (namespaces : list string) (filterOpts : FilterOptions)
  : list Event * Outcome (NamespaceIndex * option error) :=
  scan E NamespaceAll pendingChecked recordGlobal w filterOpts ∅.

(** The scan of one namespace. *)
Definition getNamespacedResourcesWithFinalizersPendingDeletion (E : Env) (w : World E)
    (namespace : string) (filterOpts : FilterOptions)
  : list Event * Outcome (TypeIndex * option error) :=
  scan E namespace pendingChecked recordScoped w filterOpts ∅.

(** The earlier revision of the file, kept in the repository: one function,
    scanning one namespace, with the pending test written in place. *)
Module Previous.
Definition getResourcesWithFinalizersPendingDeletion (E : Env) (w : World E)
    (namespace : string) (filterOpts : FilterOptions)
  : list Event * Outcome (TypeIndex * option error) :=
  scan E namespace pendingInline recordScoped w filterOpts ∅.
End Previous.

(** ** The driver

    [GetUnusedfinalizers] changes the world (it deletes), writes to the trace
    and may be cut short by [os.Exit]: a state, writer and exit monad. *)
Section Driver.
Context (E : Env).

Definition M (A : Type) : Type := World E → list Event * World E * Outcome A.

Definition ret {A} (a : A) : M A := λ w, ([], w, Returned a).

Definition bind {A B} (m : M A) (f : A → M B) : M B :=
  λ w, let '(e1, w1, o) := m w in
       match o with
       | Exited code => (e1, w1, Exited code)
       | Returned a => let '(e2, w2, o2) := f a w1 in (e1 ++ e2, w2, o2)
       end.

Definition emit (e : Event) : M unit := λ w, ([e], w, Returned tt).

(** Something read from the world, silently. *)
Definition ask {A} (f : World E → A) : M A := λ w, ([], w, Returned (f w)).

(** A scan: it reads the world and leaves it as it is. *)
Definition observe {A} (f : World E → list Event * Outcome A) : M A :=
  λ w, let '(ev, o) := f w in (ev, w, o).

Definition callDelete (withFinalizer : bool) (names : list string)
    (namespace resourceType : string) (noInteractive : bool)
  : M (list string * option error) :=
  λ w, let '(r, w') :=
         (if withFinalizer then DeleteResourceWithFinalizer E else DeleteResource E)
           names namespace resourceType noInteractive w in
       ([CallDelete withFinalizer names namespace resourceType noInteractive],
        w', Returned r).

Fixpoint forM {X S} (body : S → X → M S) (xs : list X) (s : S) : M S :=
  match xs with
  | [] => ret s
  | x :: rest => bind (body s x) (forM body rest)
  end.
End Driver.

Arguments ret {E A} a.
Arguments bind {E A B} m f.
Arguments emit {E} e.
Arguments ask {E A} f.
Arguments observe {E A} f.
Arguments callDelete {E}.
Arguments forM {E X S} body xs s.

Declare Scope driver_scope.
Delimit Scope driver_scope with driver.
Notation "'let*' x := m 'in' k" := (bind m (λ x, k))
  (at level 10, x pattern, m at level 100, k at level 200, only parsing) : driver_scope.
Local Open Scope driver_scope.

(** [len(includeExcludeLists.ExcludeListStr) == 0 &&
    len(includeExcludeLists.IncludeListStr) == 0] *)
Definition noNamespaceFilter (l : IncludeExcludeLists) : bool :=
  (length (ExcludeListStr l) =? 0)%nat && (length (IncludeListStr l) =? 0)%nat.

(** [outputBuffer] and [response], the two variables the loops of
    [GetUnusedfinalizers] update. *)
Record Report := { outputBuffer : string; response : NamespaceIndex }.

Definition emptyReport : Report := {| outputBuffer := ""; response := ∅ |}.

Section GetUnusedfinalizers.
Context (E : Env).
Variable filterOpts : FilterOptions.
Variable opts : Opts.

(** [if err != nil { fmt.Fprintf(...) }] *)
Definition reportErr (err : option error) (line : error → Event) : M E unit :=
  match err with
  | Some e => emit (line e)
  | None => ret tt
  end.

(** Body of [for resourceType, resourceDiff := range data].  The names that
    the delete helper returns are assigned to the loop variable
    [resourceDiff]; the map entry is not written. *)
Definition deleteGroup (withFinalizer : bool) (namespace : string)
    (_ : unit) (entry : string * list string) : M E unit :=
  let '(resourceType, resourceDiff) := entry in
  if DeleteFlag opts then
    let* (resourceDiff', err) :=
      callDelete withFinalizer resourceDiff namespace resourceType (NoInteractive opts) in
    reportErr err (deleteDiagnostic resourceDiff' namespace)
  else ret tt.

(** What both modes do with one namespace once its names are known. *)
Definition addToReport (st : Report) (namespace : string) (data : TypeIndex) : Report :=
  {| outputBuffer :=
       outputBuffer st +:+ FormatOutputFromMap E namespace data opts +:+ newline;
     response := <[namespace := data]> (response st) |}.

(** Body of [for namespace, data := range resourceDiffs] (global mode). *)
Definition globalNamespace (namespaces : list string) (st : Report)
    (entry : string * TypeIndex) : M E Report :=
  let '(namespace, data) := entry in
  if Contains namespaces namespace then
    let* groups := ask (λ w, range E w _ data) in
    let* _ := forM (deleteGroup true namespace) groups tt in
    ret (addToReport st namespace data)
  else ret st.

Definition globalMode (namespaces : list string) : M E Report :=
  let* (resourceDiffs, err) :=
    observe (λ w, getResourcesWithFinalizersPendingDeletion E w namespaces filterOpts) in
  let* _ := reportErr err scanDiagnostic in
  let* entries := ask (λ w, range E w _ resourceDiffs) in
  forM (globalNamespace namespaces) entries emptyReport.

(** Body of [for _, namespace := range namespaces] (scoped mode). *)
Definition scopedNamespace (st : Report) (namespace : string) : M E Report :=
  let* (resourceDiffs, err) := observe (λ w,
      getNamespacedResourcesWithFinalizersPendingDeletion E w namespace filterOpts) in
  match err with
  | Some e =>
      let* _ := emit (namespaceDiagnostic namespace e) in
      ret st
  | None =>
      let* groups := ask (λ w, range E w _ resourceDiffs) in
      let* _ := forM (deleteGroup false namespace) groups tt in
      ret (addToReport st namespace resourceDiffs)
  end.

Definition scopedMode (namespaces : list string) : M E Report :=
  forM scopedNamespace namespaces emptyReport.

(** The part of [GetUnusedfinalizers] before the response is encoded. *)
Definition scanAndDelete (includeExcludeLists : IncludeExcludeLists) : M E Report :=
  let* namespaces := ask (SetNamespaceList E includeExcludeLists) in
  if noNamespaceFilter includeExcludeLists
  then globalMode namespaces
  else scopedMode namespaces.

Definition GetUnusedfinalizers (includeExcludeLists : IncludeExcludeLists)
    (outputFormat : string) : M E (string * option error) :=
  let* st := scanAndDelete includeExcludeLists in
  match MarshalIndent E (response st) with
  | Err err => ret ("", Some err)
  | Ok jsonResponse =>
      let '(unusedFinalizers, err) :=
        unusedResourceFormatter E outputFormat (outputBuffer st) opts jsonResponse in
      let* _ := reportErr err formatterDiagnostic in
      ret (unusedFinalizers, None)
  end.
End GetUnusedfinalizers.

(** [GetUnusedfinalizers] of the earlier revision: one loop over the resolved
    namespaces, whatever the include and exclude lists, scanning each with the
    earlier scan; the rest of its text is that of the scoped branch and of the
    end of the later revision. *)
Module PreviousDriver.
Section GetUnusedfinalizers.
Context (E : Env).
Variable filterOpts : FilterOptions.
Variable opts : Opts.

(** Body of [for _, namespace := range namespaces]. *)
Definition scanNamespace (st : Report) (namespace : string) : M E Report :=
  let* (resourceDiffs, err) := observe (λ w,
      Previous.getResourcesWithFinalizersPendingDeletion E w namespace filterOpts) in
  match err with
  | Some e =>
      let* _ := emit (namespaceDiagnostic namespace e) in
      ret st
  | None =>
      let* groups := ask (λ w, range E w _ resourceDiffs) in
      let* _ := forM (deleteGroup E opts false namespace) groups tt in
      ret (addToReport E opts st namespace resourceDiffs)
  end.

Definition GetUnusedfinalizers (includeExcludeLists : IncludeExcludeLists)
    (outputFormat : string) : M E (string * option error) :=
  let* namespaces := ask (SetNamespaceList E includeExcludeLists) in
  let* st := forM scanNamespace namespaces emptyReport in
  match MarshalIndent E (response st) with
  | Err err => ret ("", Some err)
  | Ok jsonResponse =>
      let '(unusedFinalizers, err) :=
        unusedResourceFormatter E outputFormat (outputBuffer st) opts jsonResponse in
      let* _ := reportErr E err formatterDiagnostic in
      ret (unusedFinalizers, None)
  end.
End GetUnusedfinalizers.
End PreviousDriver.

(** * Vocabulary of the properties *)

(** ** What an index holds *)

(** Names under a resource type, and under a namespace and a resource type. *)
Definition typeEntry (m : TypeIndex) (k : string * string) : Prop :=
  ∃ names, m !! k.1 = Some names ∧ k.2 ∈ names.

Definition namespaceEntry (m : NamespaceIndex) (k : string * string * string) : Prop :=
  ∃ inner, m !! k.1.1 = Some inner ∧ typeEntry inner (k.1.2, k.2).

(** No resource type is mapped to an empty list of names. *)
Definition nonEmptyLists (m : TypeIndex) : Prop :=
  ∀ resourceType names, m !! resourceType = Some names → names ≠ [].

(** No namespace is mapped to an empty map, nor a resource type to an empty
    list. *)
Definition nonEmptyGroups (m : NamespaceIndex) : Prop :=
  ∀ namespace inner, m !! namespace = Some inner → inner ≠ ∅ ∧ nonEmptyLists inner.

(** ** What a scan looks at *)

(** The three filters and the pending test, as one condition on an object. *)
Section Kept.
Context (E : Env).
Variable isPending : Unstructured → bool.
Variable filterOpts : FilterOptions.

Definition used (item : Unstructured) : bool :=
  bool_decide (default "" (GetLabels item !! "kor/used") = "true").

Definition excluded (item : Unstructured) : bool :=
  (HasExcludedLabel E (GetLabels item) (ExcludeLabels filterOpts)).1.

Definition included (item : Unstructured) : bool :=
  (HasIncludedAge E (GetCreationTimestamp item) filterOpts).1.

Definition kept (item : Unstructured) : bool :=
  negb (used item) && negb (excluded item) && included item && isPending item.
End Kept.

(** The resource type is one the scan lists. *)
Definition scanned (resourceType : APIResource) : Prop :=
  Namespaced resourceType = true ∧ Contains (Verbs resourceType) "list" = true.

(** The group/version of every list parses. *)
Definition parses (E : Env) (l : list APIResourceList) : Prop :=
  Forall (λ a, ∃ gv, ParseGroupVersion E (GroupVersionStr a) = Ok gv) l.

(** [item] is returned by a list call that the scan of [resourceTypes] at
    [scope] makes for [resourceType]: the group of the type is reached (every
    group before it parses, and so does its own), the type is namespaced and
    listable, and its list call succeeds. *)
Definition listed (E : Env) (scope : string) (w : World E)
    (resourceTypes : list APIResourceList)
    (resourceType : APIResource) (item : Unstructured) : Prop :=
  ∃ before group after gv items,
    resourceTypes = before ++ group :: after
    ∧ parses E before
    ∧ ParseGroupVersion E (GroupVersionStr group) = Ok gv
    ∧ resourceType ∈ APIResources group
    ∧ scanned resourceType
    ∧ DynamicList E w (WithResource gv (Name resourceType)) scope = Ok items
    ∧ item ∈ items.

(** A group of the catalog with one resource type taken out. *)
Definition withoutType (group : APIResourceList) (before after : list APIResource)
  : APIResourceList :=
  {| GroupVersionStr := GroupVersionStr group; APIResources := before ++ after |}.

(** The set of pending entries each scan reports: namespace, resource type
    name, object name.  The scoped scan is run once for every namespace of
    [namespaces]. *)
Definition pendingGlobal (E : Env) (w : World E) (namespaces : list string)
    (filterOpts : FilterOptions) (k : string * string * string) : Prop :=
  ∃ m err,
    (getResourcesWithFinalizersPendingDeletion E w namespaces filterOpts).2
    = Returned (m, err)
    ∧ namespaceEntry m k.

Definition pendingScoped (E : Env) (w : World E) (namespaces : list string)
    (filterOpts : FilterOptions) (k : string * string * string) : Prop :=
  k.1.1 ∈ namespaces
  ∧ ∃ m err,
      (getNamespacedResourcesWithFinalizersPendingDeletion E w k.1.1 filterOpts).2
      = Returned (m, err)
      ∧ typeEntry m (k.1.2, k.2).

(** A list call scoped to a namespace answers with the objects of that
    namespace that the all-namespaces call answers with, and fails when it
    fails. *)
Definition namespaceConsistent (E : Env) (w : World E) (namespaces : list string) : Prop :=
  ∀ gvr ns, ns ∈ namespaces →
    DynamicList E w gvr ns
    = match DynamicList E w gvr NamespaceAll with
      | Ok items => Ok (filter (λ item, GetNamespace item = ns) items)
      | Err e => Err e
      end.

(** Every object lives in one of [namespaces]. *)
Definition coversAllNamespaces (E : Env) (w : World E) (namespaces : list string) : Prop :=
  ∀ gvr items item,
    DynamicList E w gvr NamespaceAll = Ok items → item ∈ items →
    GetNamespace item ∈ namespaces.

(** ** Traces *)

Definition isDiscovery (e : Event) : bool :=
  match e with CallDiscovery => true | _ => false end.

(** How many times the catalog was fetched. *)
Definition discoveryCalls (ev : list Event) : nat :=
  length (filter (λ e, isDiscovery e = true) ev).

(** A list call that covers [namespace] was made. *)
Definition typeScannedUnder (ev : list Event) (namespace : string) : Prop :=
  ∃ gvr scope, CallList gvr scope ∈ ev ∧ (scope = namespace ∨ scope = NamespaceAll).

(** The events of a scan at [scope] after the catalog is asked for: list
    calls at that scope, calls of the two filters, and the two lines a scan
    prints. *)
Definition catalogEvent (scope : string) (e : Event) : Prop :=
  match e with
  | CallHasExcludedLabel _ | CallHasIncludedAge _ => True
  | CallList _ ns => ns = scope
  | Stdout _ =>
      (∃ groupVersion err, e = listDiagnostic groupVersion err)
      ∨ (∃ err, e = discoveryDiagnostic err)
  | _ => False
  end.

(** The events a deletion loop may write: calls of the one delete helper, for
    groups of the map it walks, and the line that reports a failed deletion. *)
Definition deleteEvent (opts : Opts) (withFinalizer : bool) (namespace : string)
    (groups : list (string * list string)) (e : Event) : Prop :=
  match e with
  | CallDelete wf names ns resourceType noInteractive =>
      wf = withFinalizer ∧ ns = namespace ∧ (resourceType, names) ∈ groups
      ∧ noInteractive = NoInteractive opts ∧ DeleteFlag opts = true
  | Stderr _ => ∃ names err, e = deleteDiagnostic names namespace err
  | _ => False
  end.

(** What the driver itself writes once a scan is over: calls of one delete
    helper, for a namespace of [namespaces] and a group [G] accepts, the line
    that reports a failed deletion in such a namespace, and the line that
    reports that the scan returned an error (global mode, which deletes with
    finalizers, has one scan; scoped mode has one for each namespace). *)
Definition driverEvent (opts : Opts) (withFinalizer : bool) (namespaces : list string)
    (G : string → string → list string → Prop) (e : Event) : Prop :=
  match e with
  | CallDelete wf names ns resourceType noInteractive =>
      wf = withFinalizer ∧ ns ∈ namespaces ∧ G ns resourceType names
      ∧ noInteractive = NoInteractive opts ∧ DeleteFlag opts = true
  | Stderr _ =>
      (∃ names ns err, e = deleteDiagnostic names ns err ∧ ns ∈ namespaces)
      ∨ (if withFinalizer
         then ∃ err, e = scanDiagnostic err
         else ∃ ns err, e = namespaceDiagnostic ns err ∧ ns ∈ namespaces)
  | _ => False
  end.

(** The groups global mode may delete: those of the result of its scan. *)
Definition scannedGroup (resourceDiffs : NamespaceIndex)
    (namespace resourceType : string) (names : list string) : Prop :=
  ∃ data, resourceDiffs !! namespace = Some data ∧ data !! resourceType = Some names.

(** The shape of a trace of global mode: the catalog is fetched once, every
    list call is an all-namespaces call and comes before any deletion, and
    every deletion goes through [DeleteResourceWithFinalizer]. *)
Definition globalTrace (opts : Opts) (namespaces : list string)
    (G : string → string → list string → Prop) (ev : list Event) : Prop :=
  ∃ scanEv driverEv,
    ev = CallDiscovery :: scanEv ++ driverEv
    ∧ Forall (catalogEvent NamespaceAll) scanEv
    ∧ Forall (driverEvent opts true namespaces G) driverEv.

(** The shape of a trace of scoped mode that runs to its end: for each
    namespace in turn, the catalog is fetched, the list calls are scoped to
    that namespace, and the deletions that follow are for that namespace and go
    through [DeleteResource]. *)
Fixpoint scopedTrace (opts : Opts) (namespaces : list string) (ev : list Event) : Prop :=
  match namespaces with
  | [] => ev = []
  | ns :: rest =>
      ∃ scanEv driverEv restEv,
        ev = CallDiscovery :: scanEv ++ driverEv ++ restEv
        ∧ Forall (catalogEvent ns) scanEv
        ∧ Forall (driverEvent opts false [ns] (λ _ _ _, True)) driverEv
        ∧ scopedTrace opts rest restEv
  end.

(** Every event of scoped mode, also of a run that is cut short. *)
Definition scopedEvent (namespaces : list string) (e : Event) : Prop :=
  match e with
  | CallList _ ns => ns ∈ namespaces
  | CallDelete wf _ ns _ _ => wf = false ∧ ns ∈ namespaces
  | _ => True
  end.

(** ** Runs of the driver *)

(** What one turn of the global loop does to the report. *)
Definition globalStep (E : Env) (opts : Opts) (namespaces : list string) (st : Report)
    (entry : string * TypeIndex) : Report :=
  if Contains namespaces entry.1 then addToReport E opts st entry.1 entry.2 else st.

(** The scan of [namespace] returned without an error in one of the turns of
    the loop over [namespaces], in the world the turns before it left. *)
Definition scannedWithoutError (E : Env) (filterOpts : FilterOptions) (opts : Opts)
    (namespaces : list string) (st0 : Report) (w : World E)
    (namespace : string) : Prop :=
  ∃ before after e1 w1 st1 m,
    namespaces = before ++ namespace :: after
    ∧ forM (scopedNamespace E filterOpts opts) before st0 w = (e1, w1, Returned st1)
    ∧ (getNamespacedResourcesWithFinalizersPendingDeletion E w1 namespace filterOpts).2
      = Returned (m, None).

(** ** What a scan calls and collects, in order *)

(** [resourceType.Namespaced && slices.Contains(resourceType.Verbs, "list")] *)
Definition listable (resourceType : APIResource) : bool :=
  Namespaced resourceType && Contains (Verbs resourceType) "list".

(** The groups a scan goes through, each with its parsed group/version: those
    before the first one that does not parse. *)
Fixpoint reachedGroups (E : Env) (resourceTypes : list APIResourceList)
  : list (APIResourceList * GroupVersion) :=
  match resourceTypes with
  | [] => []
  | group :: rest =>
      match ParseGroupVersion E (GroupVersionStr group) with
      | Ok gv => (group, gv) :: reachedGroups E rest
      | Err _ => []
      end
  end.

(** The list calls of a trace, in order. *)
Definition listCalls (ev : list Event) : list (GroupVersionResource * string) :=
  omap (λ e, match e with CallList gvr ns => Some (gvr, ns) | _ => None end) ev.

(** One list call at [scope] for each listable type of each group reached. *)
Definition expectedListCalls (E : Env) (scope : string)
    (resourceTypes : list APIResourceList) : list (GroupVersionResource * string) :=
  flat_map (λ g : APIResourceList * GroupVersion,
              (λ r, (WithResource g.2 (Name r), scope))
                <$> filter (λ r, listable r = true) (APIResources g.1))
           (reachedGroups E resourceTypes).

(** The calls of the delete helpers of a trace, in order. *)
Definition deleteCalls (ev : list Event) : list (bool * string * string * list string) :=
  omap (λ e, match e with
             | CallDelete wf names ns resourceType _ => Some (wf, ns, resourceType, names)
             | _ => None
             end) ev.

(** The names a scan collects for the objects that [sel] selects: for each
    group reached and each listable type of it whose list call succeeds, the
    names of the listed objects that pass the filters and are pending, in the
    order of the catalog and of the lists. *)
Section CollectedNames.
Context (E : Env).
Variable scope : string.
Variable isPending : Unstructured → bool.
Variable w : World E.
Variable filterOpts : FilterOptions.
Variable sel : string → Unstructured → bool.

Definition itemNames (resourceName : string) (items : list Unstructured) : list string :=
  GetName <$> filter (λ item, kept E isPending filterOpts item && sel resourceName item = true)
                     items.

Definition resourceNames (gv : GroupVersion) (resourceType : APIResource) : list string :=
  if listable resourceType then
    match DynamicList E w (WithResource gv (Name resourceType)) scope with
    | Ok items => itemNames (Name resourceType) items
    | Err _ => []
    end
  else [].

Definition collectedNames (resourceTypes : list APIResourceList) : list string :=
  flat_map (λ g : APIResourceList * GroupVersion,
              flat_map (resourceNames g.2) (APIResources g.1))
           (reachedGroups E resourceTypes).
End CollectedNames.

(** What an index holds for a list of names: nothing when the list is empty. *)
Definition stored (names : list string) : option (list string) :=
  match names with
  | [] => None
  | _ :: _ => Some names
  end.

(** Objects of a resource type; objects of a resource type in a namespace. *)
Definition ofType (resourceType : string) (resourceName : string) (_ : Unstructured) : bool :=
  bool_decide (resourceName = resourceType).

Definition ofTypeIn (namespace resourceType : string) (resourceName : string)
    (item : Unstructured) : bool :=
  bool_decide (resourceName = resourceType) && bool_decide (GetNamespace item = namespace).

(** A buffer to which [blocks] were written one after the other. *)
Definition written (blocks : list string) : string := foldr String.append "" blocks.

(** The blocks global mode writes to the output buffer: one for each entry of
    [entries] whose namespace is resolved, in order. *)
Definition globalBlocks (E : Env) (opts : Opts) (namespaces : list string)
    (entries : list (string * TypeIndex)) : list string :=
  (λ e, FormatOutputFromMap E e.1 e.2 opts +:+ newline)
    <$> filter (λ e : string * TypeIndex, e.1 ∈ namespaces) entries.

(** The scans of scoped mode that feed the report when the cluster is [w] at
    each of them: those that return without an error, in the order of
    [namespaces], each with its namespace. *)
Definition scopedResults (E : Env) (w : World E) (filterOpts : FilterOptions)
    (namespaces : list string) : list (string * TypeIndex) :=
  omap (λ namespace,
          match (getNamespacedResourcesWithFinalizersPendingDeletion E w namespace
                   filterOpts).2 with
          | Returned (resourceDiffs, None) => Some (namespace, resourceDiffs)
          | _ => None
          end)
       namespaces.

(** The blocks scoped mode writes to the output buffer for these scans. *)
Definition scopedBlocks (E : Env) (opts : Opts) (entries : list (string * TypeIndex))
  : list string :=
  (λ e, FormatOutputFromMap E e.1 e.2 opts +:+ newline) <$> entries.

(** The report once [entries] were added to it one after the other.  What
    [GetUnusedfinalizers] hands to the encoder and to the formatter is built
    from such entries and from nothing else. *)
Definition reportOf (E : Env) (opts : Opts) (entries : list (string * TypeIndex)) : Report :=
  fold_left (λ st e, addToReport E opts st e.1 e.2) entries emptyReport.

(** [w1] is the cluster as the scan behind an entry of [namespace] found it,
    in a run that started in [w]: in global mode [w] itself, the one scan
    coming before every deletion; in scoped mode the cluster that the turns of
    the namespaces before [namespace] left. *)
Definition scannedIn (E : Env) (filterOpts : FilterOptions) (opts : Opts)
    (lists : IncludeExcludeLists) (w : World E) (namespace : string) (w1 : World E) : Prop :=
  if noNamespaceFilter lists then w1 = w
  else ∃ before after e1 st1,
         SetNamespaceList E lists w = before ++ namespace :: after
         ∧ forM (scopedNamespace E filterOpts opts) before emptyReport w
           = (e1, w1, Returned st1).

(** The groups one turn of scoped mode hands to the delete helper: every group
    of the result of the scan of its namespace. *)
Definition scopedGroups (namespace : string) (resourceDiffs : TypeIndex)
  : list (bool * string * string * list string) :=
  (λ g : string * list string, (false, namespace, g.1, g.2)) <$> map_to_list resourceDiffs.

(** The groups global mode hands to the delete helper: every group of every
    resolved namespace of the result of the scan. *)
Definition globalGroups (namespaces : list string)
    (entries : list (string * TypeIndex)) : list (bool * string * string * list string) :=
  flat_map (λ e : string * TypeIndex,
              if Contains namespaces e.1
              then (λ g : string * list string, (true, e.1, g.1, g.2)) <$> map_to_list e.2
              else [])
           entries.

(** The group/version of [group] is the first of [resourceTypes] that does not
    parse, with error [err]. *)
Definition firstParseFailure (E : Env) (resourceTypes : list APIResourceList)
    (err : error) : Prop :=
  ∃ before group after,
    resourceTypes = before ++ group :: after
    ∧ parses E before
    ∧ ParseGroupVersion E (GroupVersionStr group) = Err err.

(** ** A small cluster to run the code on *)
Module Demo.

(** The API server: its catalog, the objects it stores under each resource
    name, and the resource names whose list call is refused. *)
Record Cluster := {
  catalog : Result (list APIResourceList);
  objects : list (string * Unstructured);
  forbidden : list string;
  namespaceNames : list string
}.

Definition inScope (resource namespace : string) (o : string * Unstructured) : bool :=
  bool_decide (o.1 = resource)
  && (bool_decide (namespace = NamespaceAll) || bool_decide (GetNamespace o.2 = namespace)).

Definition listObjects (c : Cluster) (gvr : GroupVersionResource) (namespace : string)
  : Result (list Unstructured) :=
  if Contains (forbidden c) (GVRResource gvr) then Err "forbidden"
  else Ok (snd <$> filter (λ o, inScope (GVRResource gvr) namespace o = true) (objects c)).

(** [schema.ParseGroupVersion]: at most one slash. *)
Fixpoint slashes (s : string) : nat :=
  match s with
  | EmptyString => 0
  | String c rest => (if Ascii.eqb c "/" then 1 else 0) + slashes rest
  end.

Fixpoint beforeSlash (s : string) : string :=
  match s with
  | EmptyString => EmptyString
  | String c rest => if Ascii.eqb c "/" then EmptyString else String c (beforeSlash rest)
  end.

Fixpoint afterSlash (s : string) : string :=
  match s with
  | EmptyString => EmptyString
  | String c rest => if Ascii.eqb c "/" then rest else afterSlash rest
  end.

Definition parseGroupVersion (gv : string) : Result GroupVersion :=
  if bool_decide (gv = "") || bool_decide (gv = "/") then Ok {| Group := ""; Version := "" |}
  else match slashes gv with
       | 0 => Ok {| Group := ""; Version := gv |}
       | 1 => Ok {| Group := beforeSlash gv; Version := afterSlash gv |}
       | _ => Err ("unexpected GroupVersion string: " +:+ gv)
       end.

(** A selector here is a label key; an object is excluded when it has it. *)
Definition hasExcludedLabel (labels : gmap string string) (selectors : list string)
  : bool * option error :=
  (bool_decide (Exists (λ k, is_Some (labels !! k)) selectors), None).

Definition hasIncludedAge (creation : Time) (f : FilterOptions) : bool * option error :=
  ((match MinAge f with Some a => (a <=? creation)%Z | None => true end)
   && (match MaxAge f with Some a => (creation <=? a)%Z | None => true end), None).

Definition setNamespaceList (l : IncludeExcludeLists) (c : Cluster) : list string :=
  match IncludeListStr l with
  | [] => filter (λ n, n ∉ ExcludeListStr l) (namespaceNames c)
  | inc => inc
  end.

(** Deleting succeeds for every name once it is confirmed; without
    [noInteractive] the prompt is declined and the names are handed back. *)
Definition delete (names : list string) (namespace resourceType : string)
    (noInteractive : bool) (c : Cluster) : (list string * option error) * Cluster :=
  if noInteractive then
    (([], None),
     {| catalog := catalog c;
        objects := filter (λ o, ¬ (o.1 = resourceType ∧ GetNamespace o.2 = namespace
                                   ∧ GetName o.2 ∈ names)) (objects c);
        forbidden := forbidden c;
        namespaceNames := namespaceNames c |})
  else ((names, None), c).

Definition formatOutputFromMap (namespace : string) (data : gmap string (list string))
    (_ : Opts) : string :=
  namespace +:+ ":" +:+
  String.concat "" ((λ e : string * list string, " " +:+ e.1 +:+ fmtStrings e.2)
                      <$> map_to_list data).

Definition formatter (outputFormat buffer : string) (_ : Opts) (json : string)
  : string * option error :=
  if bool_decide (outputFormat = "table") then (buffer, None)
  else if bool_decide (outputFormat = "json") then (json, None)
  else ("", Some ("unsupported output format: " +:+ outputFormat)).

Definition marshal (r : gmap string (gmap string (list string))) : Result string :=
  Ok ("{" +:+ String.concat ","
        ((λ e : string * gmap string (list string),
            e.1 +:+ ":{" +:+ String.concat ","
              ((λ g : string * list string, g.1 +:+ ":" +:+ fmtStrings g.2)
                 <$> map_to_list e.2) +:+ "}")
           <$> map_to_list r) +:+ "}").

(** The environment; the encoder is a parameter so that a failing one can be
    plugged in. *)
Definition env (encode : gmap string (gmap string (list string)) → Result string) : Env :=
  {| World := Cluster;
     ServerPreferredResources := catalog;
     DynamicList := listObjects;
     ParseGroupVersion := parseGroupVersion;
     HasExcludedLabel := hasExcludedLabel;
     HasIncludedAge := hasIncludedAge;
     SetNamespaceList := setNamespaceList;
     DeleteResource := delete;
     DeleteResourceWithFinalizer := delete;
     FormatOutputFromMap := formatOutputFromMap;
     MarshalIndent := encode;
     unusedResourceFormatter := formatter;
     range := λ _ V m, map_to_list m;
     range_perm := λ _ V m, reflexivity (map_to_list m) |}.

(** A caller that may list inside a namespace and not across namespaces: the
    all-namespaces list call is refused. *)
Definition listNamespaced (c : Cluster) (gvr : GroupVersionResource) (namespace : string)
  : Result (list Unstructured) :=
  if bool_decide (namespace = NamespaceAll) then Err "forbidden"
  else listObjects c gvr namespace.

(** A formatter whose rendering fails; as a Go function that returns a string
    and an error does, it hands back the empty string with its error. *)
Definition failing (outputFormat buffer : string) (_ : Opts) (json : string)
  : string * option error :=
  ("", Some "render: failed").

(** [env] with another list call and another formatter. *)
Definition custom
    (listCall : Cluster → GroupVersionResource → string → Result (list Unstructured))
    (render : string → string → Opts → string → string * option error)
    (encode : gmap string (gmap string (list string)) → Result string) : Env :=
  {| World := Cluster;
     ServerPreferredResources := catalog;
     DynamicList := listCall;
     ParseGroupVersion := parseGroupVersion;
     HasExcludedLabel := hasExcludedLabel;
     HasIncludedAge := hasIncludedAge;
     SetNamespaceList := setNamespaceList;
     DeleteResource := delete;
     DeleteResourceWithFinalizer := delete;
     FormatOutputFromMap := formatOutputFromMap;
     MarshalIndent := encode;
     unusedResourceFormatter := render;
     range := λ _ V m, map_to_list m;
     range_perm := λ _ V m, reflexivity (map_to_list m) |}.

Definition configmaps : APIResource :=
  {| Name := "configmaps"; Namespaced := true; Verbs := ["get"; "list"; "delete"] |}.
Definition secrets : APIResource :=
  {| Name := "secrets"; Namespaced := true; Verbs := ["get"; "list"] |}.
Definition nodes : APIResource :=
  {| Name := "nodes"; Namespaced := false; Verbs := ["get"; "list"] |}.
Definition deployments : APIResource :=
  {| Name := "deployments"; Namespaced := true; Verbs := ["get"; "list"] |}.

Definition coreV1 : APIResourceList :=
  {| GroupVersionStr := "v1"; APIResources := [configmaps; secrets; nodes] |}.
Definition appsV1 : APIResourceList :=
  {| GroupVersionStr := "apps/v1"; APIResources := [deployments] |}.
Definition malformed : APIResourceList :=
  {| GroupVersionStr := "a/b/c"; APIResources := [deployments] |}.

Definition object (name namespace : string) (labels : list (string * string))
    (finalizers : list string) (deletion : option Time) : Unstructured :=
  {| GetName := name; GetNamespace := namespace; GetLabels := list_to_map labels;
     GetCreationTimestamp := 100%Z; GetFinalizers := finalizers;
     GetDeletionTimestamp := deletion |}.

(** [cm-a]: stuck in deletion in [default]. *)
Definition cmA := object "cm-a" "default" [] ["fin.example/x"] (Some 200%Z).
(** The same, marked as in use. *)
Definition cmUsed :=
  object "cm-used" "default" [("kor/used", "true")] ["fin.example/x"] (Some 200%Z).
(** A finalizer and no deletion timestamp. *)
Definition cmLive := object "cm-live" "default" [] ["fin.example/x"] None.
Definition secretB := object "sec-b" "kube-system" [] ["fin.example/y"] (Some 300%Z).
Definition deployC := object "dep-c" "staging" [] ["fin.example/z"] (Some 300%Z).

Definition cluster : Cluster :=
  {| catalog := Ok [coreV1; appsV1];
     objects := [("configmaps", cmA); ("configmaps", cmUsed); ("configmaps", cmLive);
                 ("secrets", secretB); ("deployments", deployC)];
     forbidden := [];
     namespaceNames := ["default"; "kube-system"; "staging"] |}.

Definition noFilter : FilterOptions :=
  {| ExcludeLabels := []; MinAge := None; MaxAge := None |}.

Definition noLists : IncludeExcludeLists := {| IncludeListStr := []; ExcludeListStr := [] |}.

Definition onlyDefault : IncludeExcludeLists :=
  {| IncludeListStr := ["default"]; ExcludeListStr := [] |}.

(** [default] and a namespace that holds nothing. *)
Definition defaultAndVacant : IncludeExcludeLists :=
  {| IncludeListStr := ["default"; "vacant"]; ExcludeListStr := [] |}.

Definition reportOnly : Opts := {| DeleteFlag := false; NoInteractive := true |}.
Definition deleteAll : Opts := {| DeleteFlag := true; NoInteractive := true |}.

(** [cluster] with other objects, catalog, refused resources or namespaces. *)
Definition variant (cat : Result (list APIResourceList))
    (objs : list (string * Unstructured)) (refused namespaces : list string) : Cluster :=
  {| catalog := cat; objects := objs; forbidden := refused; namespaceNames := namespaces |}.

(** Nothing is stuck: the only object has no deletion timestamp. *)
Definition quiet : Cluster :=
  variant (catalog cluster) [("configmaps", cmLive)] [] (namespaceNames cluster).

(** [staging] is not among the namespaces that are resolved. *)
Definition partial : Cluster :=
  variant (catalog cluster) (objects cluster) [] ["default"; "kube-system"].

(** The catalog cannot be fetched. *)
Definition unreachable : Cluster :=
  variant (Err "connection refused") (objects cluster) [] (namespaceNames cluster).

(** The second group/version of the catalog does not parse. *)
Definition garbled : Cluster :=
  variant (Ok [coreV1; malformed; appsV1]) (objects cluster) [] (namespaceNames cluster).

(** Listing secrets is refused. *)
Definition restricted : Cluster :=
  variant (catalog cluster) (objects cluster) ["secrets"] (namespaceNames cluster).

(** [cluster] once [cm-a] is deleted. *)
Definition afterDelete : Cluster :=
  variant (catalog cluster)
    [("configmaps", cmUsed); ("configmaps", cmLive);
     ("secrets", secretB); ("deployments", deployC)] [] (namespaceNames cluster).

(** An encoder that fails. *)
Definition refuse (_ : gmap string (gmap string (list string))) : Result string :=
  Err "json: unsupported value".

(** The value a call returned, or [d] when it ended the process. *)
Definition returned {A : Type} (o : Outcome A) (d : A) : A :=
  match o with Returned a => a | Exited _ => d end.
End Demo.

(** * Properties *)

(** ** The finalizer predicate *)

Lemma CheckFinalizers_spec (finalizers : list string) (deletionTimestamp : option Time) :
  CheckFinalizers finalizers deletionTimestamp = true
  ↔ finalizers ≠ [] ∧ deletionTimestamp ≠ None.
Proof.
  unfold CheckFinalizers.
  destruct finalizers as [|f fs]; simpl.
  - split; [discriminate | intros [[] _]; reflexivity].
  - case_bool_decide; simpl; split; try discriminate; try tauto.
    intros _; split; [discriminate | assumption].
Qed.

(** C1. An object is classified as pending deletion exactly when its list of
    finalizers is not empty and its deletion timestamp is set.  The predicate is
    a total function of those two fields: two objects that agree on them get
    the same verdict, whatever their other fields, and an object with no
    finalizer or no deletion timestamp is not pending.  The test written in
    place in the earlier revision of the scan is the same predicate. *)
Theorem CheckFinalizers_pending_iff :
  (∀ finalizers deletionTimestamp,
      CheckFinalizers finalizers deletionTimestamp = true
      ↔ (0 < length finalizers)%nat ∧ deletionTimestamp ≠ None)
  ∧ (∀ a b : Unstructured,
      GetFinalizers a = GetFinalizers b →
      GetDeletionTimestamp a = GetDeletionTimestamp b →
      pendingChecked a = pendingChecked b)
  ∧ (∀ item : Unstructured,
      length (GetFinalizers item) = 0%nat ∨ GetDeletionTimestamp item = None →
      pendingChecked item = false)
  ∧ (∀ item : Unstructured, pendingInline item = pendingChecked item).
Proof.
  split; [|split; [|split]].
  - intros finalizers deletionTimestamp. rewrite CheckFinalizers_spec.
    destruct finalizers; simpl; split; intros [Hf Hd]; split;
      first [assumption | congruence | lia].
  - intros a b Hf Hd. unfold pendingChecked. rewrite Hf, Hd. reflexivity.
  - intros item [Hlen | Hdt]; unfold pendingChecked;
      destruct (CheckFinalizers _ _) eqn:Hc; try reflexivity;
      apply CheckFinalizers_spec in Hc as [Hf Hd].
    + destruct (GetFinalizers item); [congruence | discriminate].
    + congruence.
  - intros item. unfold pendingInline, pendingChecked, CheckFinalizers.
    destruct (_ && _); reflexivity.
Qed.

(** ** Loops *)

Section ForEach.
Context {X S : Type} (body : S → X → list Event * S).

Lemma forEach_cons x xs s :
  forEach body (x :: xs) s
  = ((body s x).1 ++ (forEach body xs (body s x).2).1,
     (forEach body xs (body s x).2).2).
Proof.
  simpl. destruct (body s x) as [e1 s1]. simpl.
  destruct (forEach body xs s1) as [e2 s2]. reflexivity.
Qed.

Lemma forEach_app xs ys s :
  forEach body (xs ++ ys) s
  = ((forEach body xs s).1 ++ (forEach body ys (forEach body xs s).2).1,
     (forEach body ys (forEach body xs s).2).2).
Proof.
  revert s. induction xs as [|x xs IH]; intros s.
  - simpl. destruct (forEach body ys s). reflexivity.
  - rewrite <- app_comm_cons, !forEach_cons, IH. simpl.
    rewrite app_assoc. reflexivity.
Qed.

(** What a loop adds to a set read off its state, when each turn adds what
    [P] says. *)
Lemma forEach_entries {K : Type} (ent : S → K → Prop) (P : X → K → Prop) xs :
  (∀ s x k, x ∈ xs → ent (body s x).2 k ↔ ent s k ∨ P x k) →
  ∀ s k, ent (forEach body xs s).2 k ↔ ent s k ∨ ∃ x, x ∈ xs ∧ P x k.
Proof.
  induction xs as [|x xs IH]; intros Hbody s k.
  - simpl. split; [tauto|]. intros [H | (x & Hx & _)]; [exact H|].
    inversion Hx.
  - rewrite forEach_cons. simpl. rewrite IH.
    2:{ intros s' x' k' Hx'. apply Hbody. right. exact Hx'. }
    rewrite Hbody by left. split.
    + intros [[H | H] | (x' & Hx' & H)]; [tauto | right | right].
      * exists x. split; [left | exact H].
      * exists x'. split; [right; exact Hx' | exact H].
    + intros [H | (x' & Hx' & H)]; [tauto|].
      apply elem_of_cons in Hx' as [-> | Hx']; [tauto|].
      right. exists x'. tauto.
Qed.

(** A property of every event of every turn holds of the whole trace. *)
Lemma forEach_events (Q : Event → Prop) xs :
  (∀ s x, x ∈ xs → Forall Q (body s x).1) →
  ∀ s, Forall Q (forEach body xs s).1.
Proof.
  induction xs as [|x xs IH]; intros Hbody s.
  - constructor.
  - rewrite forEach_cons. simpl. apply Forall_app. split.
    + apply Hbody. left.
    + apply IH. intros s' x' Hx'. apply Hbody. right. exact Hx'.
Qed.
End ForEach.

(** ** What the scan keeps *)

Lemma typeEntry_empty k : ¬ typeEntry ∅ k.
Proof. intros (names & H & _). rewrite lookup_empty in H. discriminate. Qed.

Lemma namespaceEntry_empty k : ¬ namespaceEntry ∅ k.
Proof. intros (inner & H & _). rewrite lookup_empty in H. discriminate. Qed.

Lemma recordScoped_entry acc resourceName item k :
  typeEntry (recordScoped acc resourceName item) k
  ↔ typeEntry acc k ∨ k = (resourceName, GetName item).
Proof.
  destruct k as [rt n]. unfold typeEntry, recordScoped. simpl.
  destruct (decide (resourceName = rt)) as [-> | Hne].
  - rewrite lookup_insert_eq. split.
    + intros (names & [= <-] & Hin). apply elem_of_app in Hin as [Hin | Hin].
      * left. destruct (acc !! rt) as [l|]; [eauto | inversion Hin].
      * apply list_elem_of_singleton in Hin as ->. right. reflexivity.
    + intros [(names & Hl & Hin) | [= ->]]; eexists; split; try reflexivity.
      * rewrite Hl. simpl. apply elem_of_app. left. exact Hin.
      * apply elem_of_app. right. apply list_elem_of_singleton. reflexivity.
  - rewrite lookup_insert_ne by exact Hne. split; [tauto|].
    intros [H | [= -> _]]; [exact H | congruence].
Qed.

Lemma recordGlobal_entry acc resourceName item k :
  namespaceEntry (recordGlobal acc resourceName item) k
  ↔ namespaceEntry acc k ∨ k = (GetNamespace item, resourceName, GetName item).
Proof.
  destruct k as [[ns rt] n]. unfold namespaceEntry, recordGlobal. simpl.
  destruct (decide (GetNamespace item = ns)) as [<- | Hne].
  - rewrite lookup_insert_eq. split.
    + intros (inner & [= <-] & Hin).
      apply (recordScoped_entry (default ∅ (acc !! GetNamespace item))
               resourceName item (rt, n)) in Hin as [Hin | [= -> ->]].
      * left. destruct (acc !! GetNamespace item) as [i|]; simpl in Hin; [eauto|].
        destruct (typeEntry_empty _ Hin).
      * right. reflexivity.
    + intros H. eexists. split; [reflexivity|].
      apply (recordScoped_entry (default ∅ (acc !! GetNamespace item))
               resourceName item (rt, n)).
      destruct H as [(inner & Hl & Hin) | [= -> ->]]; [left | right; reflexivity].
      rewrite Hl. exact Hin.
  - rewrite lookup_insert_ne by exact Hne. split; [tauto|].
    intros [H | [= -> _ _]]; [exact H | congruence].
Qed.

Section ScanFacts.
Context (E : Env) {A K : Type}.
Variable scope : string.
Variable isPending : Unstructured → bool.
Variable record : A → string → Unstructured → A.
Variable w : World E.
Variable filterOpts : FilterOptions.

Lemma scanItem_result resourceName acc item :
  (scanItem E isPending record filterOpts resourceName acc item).2
  = if kept E isPending filterOpts item then record acc resourceName item else acc.
Proof.
  unfold scanItem, kept, used, excluded, included.
  case_bool_decide; simpl; [reflexivity|].
  destruct (HasExcludedLabel E _ _) as [[] ?]; simpl; [reflexivity|].
  destruct (HasIncludedAge E _ _) as [[] ?]; simpl; [|reflexivity].
  destruct (isPending item); reflexivity.
Qed.

Variable ent : A → K → Prop.
Variable key : string → Unstructured → K.
Hypothesis record_ent :
  ∀ acc resourceName item k,
    ent (record acc resourceName item) k ↔ ent acc k ∨ k = key resourceName item.

Lemma scanItem_entries resourceName acc item k :
  ent (scanItem E isPending record filterOpts resourceName acc item).2 k
  ↔ ent acc k ∨ (kept E isPending filterOpts item = true ∧ k = key resourceName item).
Proof.
  rewrite scanItem_result. destruct (kept _ _ _ _).
  - rewrite record_ent. tauto.
  - split; [tauto|]. intros [H | [? _]]; [exact H | discriminate].
Qed.

Lemma scanResource_entries groupVersion gv acc resourceType k :
  ent (scanResource E scope isPending record w filterOpts groupVersion gv acc resourceType).2 k
  ↔ ent acc k
    ∨ ∃ items item,
        scanned resourceType
        ∧ DynamicList E w (WithResource gv (Name resourceType)) scope = Ok items
        ∧ item ∈ items
        ∧ kept E isPending filterOpts item = true
        ∧ k = key (Name resourceType) item.
Proof.
  unfold scanResource, scanned.
  destruct (Namespaced resourceType); simpl.
  2:{ split; [tauto|]. intros [H | (? & ? & [? _] & _)]; [exact H | discriminate]. }
  destruct (Contains _ _); simpl.
  2:{ split; [tauto|]. intros [H | (? & ? & [_ ?] & _)]; [exact H | discriminate]. }
  destruct (DynamicList E w _ scope) as [items | err]; simpl.
  - pose proof (forEach_entries
      (scanItem E isPending record filterOpts (Name resourceType)) ent
      (λ item k, kept E isPending filterOpts item = true
                 ∧ k = key (Name resourceType) item) items) as Hloop.
    destruct (forEach _ items acc) as [ev acc'] eqn:Hrun. simpl.
    replace acc' with (forEach (scanItem E isPending record filterOpts (Name resourceType))
                         items acc).2 by (rewrite Hrun; reflexivity).
    rewrite Hloop by (intros; apply scanItem_entries).
    split.
    + intros [H | (item & Hin & Hk & ->)]; [tauto|].
      right. exists items, item. tauto.
    + intros [H | (items' & item & _ & [= <-] & Hin & Hk & ->)]; [tauto|].
      right. exists item. tauto.
  - split; [tauto|]. intros [H | (? & ? & _ & ? & _)]; [exact H | discriminate].
Qed.

(** The names a scan records are those of the objects that are listed, pass
    the three filters and are pending, and no others. *)
Lemma scanCatalog_entries resourceTypes acc k :
  ent (scanCatalog E scope isPending record w filterOpts resourceTypes acc).2.1 k
  ↔ ent acc k
    ∨ ∃ resourceType item,
        listed E scope w resourceTypes resourceType item
        ∧ kept E isPending filterOpts item = true
        ∧ k = key (Name resourceType) item.
Proof.
  revert acc. induction resourceTypes as [|group rest IH]; intros acc.
  - simpl. split; [tauto|].
    intros [H | (? & ? & (before & ? & ? & ? & ? & Heq & _) & _)]; [exact H|].
    destruct before; discriminate.
  - simpl. destruct (ParseGroupVersion E (GroupVersionStr group)) as [gv | err] eqn:Hgv.
    + pose proof (forEach_entries
        (scanResource E scope isPending record w filterOpts (GroupVersionStr group) gv) ent
        (λ resourceType k, ∃ items item,
            scanned resourceType
            ∧ DynamicList E w (WithResource gv (Name resourceType)) scope = Ok items
            ∧ item ∈ items
            ∧ kept E isPending filterOpts item = true
            ∧ k = key (Name resourceType) item) (APIResources group)) as Hloop.
      destruct (forEach _ (APIResources group) acc) as [e1 acc1] eqn:Hrun.
      specialize (IH acc1).
      destruct (scanCatalog E scope isPending record w filterOpts rest acc1) as [e2 r].
      simpl in *. rewrite IH.
      replace acc1 with (forEach (scanResource E scope isPending record w filterOpts
                                    (GroupVersionStr group) gv)
                           (APIResources group) acc).2 by (rewrite Hrun; reflexivity).
      rewrite Hloop by (intros; apply scanResource_entries).
      split.
      * intros [[H | (rt & Hrt & items & item & Hs & Hl & Hin & Hk & ->)]
               | (rt & item & Hlisted & Hk & ->)]; [tauto | right | right].
        -- exists rt, item. split; [|tauto].
           exists [], group, rest, gv, items. repeat split; try assumption;
             try apply Hs. constructor.
        -- exists rt, item. split; [|tauto].
           destruct Hlisted as (before & g & after & gv' & items & -> & Hp & Hrest).
           exists (group :: before), g, after, gv', items.
           split; [reflexivity|]. split; [|exact Hrest].
           constructor; [eauto | exact Hp].
      * intros [H | (rt & item & Hlisted & Hk & ->)]; [tauto|].
        destruct Hlisted as (before & g & after & gv' & items & Heq & Hp & Hg & Hrt & Hs & Hl & Hin).
        destruct before as [|b before]; simpl in Heq; injection Heq as <- ->.
        -- left. right. exists rt. split; [exact Hrt|].
           rewrite Hgv in Hg. injection Hg as <-. exists items, item. tauto.
        -- right. exists rt, item. split; [|tauto].
           exists before, g, after, gv', items. inversion Hp; subst. tauto.
    + simpl. split; [tauto|].
      intros [H | (rt & item & Hlisted & _)]; [exact H|].
      destruct Hlisted as (before & g & after & gv' & items & Heq & Hp & Hg & _).
      destruct before as [|b before]; simpl in Heq; injection Heq as <- ->.
      * rewrite Hgv in Hg. discriminate.
      * inversion Hp as [|? ? [gv'' Hb] _]; subst. rewrite Hgv in Hb. discriminate.
Qed.
End ScanFacts.

(** ** The two scans *)

Lemma scan_returned (E : Env) {A : Type} scope isPending (record : A → _) w filterOpts empty r :
  (scan E scope isPending record w filterOpts empty).2 = Returned r
  ↔ ∃ resourceTypes,
      ServerPreferredResources E w = Ok resourceTypes
      ∧ r = (scanCatalog E scope isPending record w filterOpts resourceTypes empty).2.
Proof.
  unfold scan. destruct (ServerPreferredResources E w) as [resourceTypes | err].
  - destruct (scanCatalog _ _ _ _ _ _ resourceTypes empty) as [ev r'] eqn:Hrun. simpl.
    split.
    + intros [= <-]. exists resourceTypes. rewrite Hrun. split; reflexivity.
    + intros (? & [= <-] & ->). rewrite Hrun. reflexivity.
  - simpl. split; [discriminate|]. intros (? & ? & _). discriminate.
Qed.

Lemma global_entries E w namespaces filterOpts m err k :
  (getResourcesWithFinalizersPendingDeletion E w namespaces filterOpts).2 = Returned (m, err) →
  namespaceEntry m k
  ↔ ∃ resourceTypes resourceType item,
      ServerPreferredResources E w = Ok resourceTypes
      ∧ listed E NamespaceAll w resourceTypes resourceType item
      ∧ kept E pendingChecked filterOpts item = true
      ∧ k = (GetNamespace item, Name resourceType, GetName item).
Proof.
  unfold getResourcesWithFinalizersPendingDeletion. intros Hret.
  apply scan_returned in Hret as (resourceTypes & Hcat & Hr).
  pose proof (scanCatalog_entries E NamespaceAll pendingChecked recordGlobal w filterOpts
                namespaceEntry (λ rn item, (GetNamespace item, rn, GetName item))
                recordGlobal_entry resourceTypes ∅ k) as Hent.
  rewrite <- Hr in Hent. simpl in Hent. rewrite Hent. split.
  - intros [H | (rt & item & ?)]; [destruct (namespaceEntry_empty _ H)|].
    exists resourceTypes, rt, item. tauto.
  - intros (rts & rt & item & Hcat' & ?). right. exists rt, item.
    rewrite Hcat in Hcat'. injection Hcat' as <-. tauto.
Qed.

Lemma scoped_entries E w namespace filterOpts m err k :
  (getNamespacedResourcesWithFinalizersPendingDeletion E w namespace filterOpts).2
  = Returned (m, err) →
  typeEntry m k
  ↔ ∃ resourceTypes resourceType item,
      ServerPreferredResources E w = Ok resourceTypes
      ∧ listed E namespace w resourceTypes resourceType item
      ∧ kept E pendingChecked filterOpts item = true
      ∧ k = (Name resourceType, GetName item).
Proof.
  unfold getNamespacedResourcesWithFinalizersPendingDeletion. intros Hret.
  apply scan_returned in Hret as (resourceTypes & Hcat & Hr).
  pose proof (scanCatalog_entries E namespace pendingChecked recordScoped w filterOpts
                typeEntry (λ rn item, (rn, GetName item))
                recordScoped_entry resourceTypes ∅ k) as Hent.
  rewrite <- Hr in Hent. simpl in Hent. rewrite Hent. split.
  - intros [H | (rt & item & ?)]; [destruct (typeEntry_empty _ H)|].
    exists resourceTypes, rt, item. tauto.
  - intros (rts & rt & item & Hcat' & ?). right. exists rt, item.
    rewrite Hcat in Hcat'. injection Hcat' as <-. tauto.
Qed.

(** Both scans return, or both end the process: it only depends on the
    catalog. *)
Lemma scan_returns (E : Env) {A : Type} scope isPending (record : A → _) w filterOpts empty :
  (∃ r, (scan E scope isPending record w filterOpts empty).2 = Returned r)
  ↔ ∃ resourceTypes, ServerPreferredResources E w = Ok resourceTypes.
Proof.
  split.
  - intros (r & Hr). apply scan_returned in Hr as (rts & H & _). eauto.
  - intros (rts & H). eexists. apply scan_returned. eauto.
Qed.

(** C3 (as amended). When a list call scoped to a namespace answers as the
    all-namespaces call restricted to it, and fails when it fails, and the
    namespaces scanned one by one are all the namespaces objects live in, the
    global scan and the scoped scans report the same set of (namespace,
    resource type, name) entries. *)
Theorem global_scoped_same_pending (E : Env) (w : World E) (namespaces : list string)
    (filterOpts : FilterOptions) :
  namespaceConsistent E w namespaces →
  coversAllNamespaces E w namespaces →
  ∀ k, pendingGlobal E w namespaces filterOpts k ↔ pendingScoped E w namespaces filterOpts k.
Proof.
  intros Hcons Hcover [[ns rt] n]. unfold pendingGlobal, pendingScoped. simpl. split.
  - intros (m & err & Hret & Hent).
    apply (global_entries _ _ _ _ _ _ _ Hret) in Hent
      as (rts & rtype & item & Hcat & Hlisted & Hkept & [= -> -> ->]).
    destruct Hlisted as (before & g & after & gv & items & Heq & Hp & Hg & Hrt & Hs & Hl & Hin).
    assert (Hns : GetNamespace item ∈ namespaces) by (eapply Hcover; eauto).
    split; [exact Hns|].
    destruct (scan_returns E (GetNamespace item) pendingChecked recordScoped w filterOpts ∅)
      as [_ [[mS errS] HretS]]; [eauto|].
    exists mS, errS. split; [exact HretS|].
    apply (scoped_entries _ _ _ _ _ _ _ HretS).
    exists rts, rtype, item. repeat split; try assumption.
    exists before, g, after, gv, (filter (λ i, GetNamespace i = GetNamespace item) items).
    repeat split; try assumption; try apply Hs.
    + rewrite (Hcons _ _ Hns), Hl. reflexivity.
    + apply list_elem_of_filter. split; [reflexivity | exact Hin].
  - intros (Hns & m & err & Hret & Hent).
    apply (scoped_entries _ _ _ _ _ _ _ Hret) in Hent
      as (rts & rtype & item & Hcat & Hlisted & Hkept & [= -> ->]).
    destruct Hlisted as (before & g & after & gv & items & Heq & Hp & Hg & Hrt & Hs & Hl & Hin).
    rewrite (Hcons _ _ Hns) in Hl.
    destruct (DynamicList E w _ NamespaceAll) as [all | e] eqn:Hall; [|discriminate].
    injection Hl as <-. apply list_elem_of_filter in Hin as [<- Hin].
    destruct (scan_returns E NamespaceAll pendingChecked recordGlobal w filterOpts ∅)
      as [_ [[mG errG] HretG]]; [eauto|].
    exists mG, errG. split; [exact HretG|].
    apply (global_entries _ _ namespaces _ _ _ _ HretG).
    exists rts, rtype, item. repeat split; try assumption.
    exists before, g, after, gv, all. repeat split; try assumption; apply Hs.
Qed.

(** ** Failures during a scan *)

Lemma forEach_skip {X S : Type} (body : S → X → list Event * S) pre x post ex s :
  (∀ s', body s' x = (ex, s')) →
  ∃ e1 e2 s2,
    forEach body (pre ++ x :: post) s = (e1 ++ ex ++ e2, s2)
    ∧ forEach body (pre ++ post) s = (e1 ++ e2, s2).
Proof.
  intros Hx.
  exists (forEach body pre s).1, (forEach body post (forEach body pre s).2).1,
         (forEach body post (forEach body pre s).2).2.
  rewrite !forEach_app, forEach_cons, Hx. simpl. split; reflexivity.
Qed.

Section ScanFailures.
Context (E : Env) {A : Type}.
Variable scope : string.
Variable isPending : Unstructured → bool.
Variable record : A → string → Unstructured → A.
Variable w : World E.
Variable filterOpts : FilterOptions.

Local Abbreviation catalogScan := (scanCatalog E scope isPending record w filterOpts).
Local Abbreviation resourceScan := (scanResource E scope isPending record w filterOpts).

Lemma scanCatalog_cons group rest gv acc :
  ParseGroupVersion E (GroupVersionStr group) = Ok gv →
  catalogScan (group :: rest) acc
  = let r1 := forEach (resourceScan (GroupVersionStr group) gv) (APIResources group) acc in
    let r2 := catalogScan rest r1.2 in
    (r1.1 ++ r2.1, r2.2).
Proof.
  intros Hgv. simpl. rewrite Hgv.
  destruct (forEach _ (APIResources group) acc) as [e1 acc1]. simpl.
  destruct (catalogScan rest acc1) as [e2 r]. reflexivity.
Qed.

Lemma scanCatalog_app before rest acc :
  parses E before →
  catalogScan (before ++ rest) acc
  = let r1 := catalogScan before acc in
    let r2 := catalogScan rest r1.2.1 in
    (r1.1 ++ r2.1, r2.2).
Proof.
  intros Hp. revert acc. induction Hp as [|group before [gv Hgv] Hp IH]; intros acc.
  - simpl. destruct (catalogScan rest acc). reflexivity.
  - rewrite <- app_comm_cons, !(scanCatalog_cons _ _ gv) by exact Hgv.
    simpl. rewrite IH. simpl. rewrite app_assoc. reflexivity.
Qed.

Lemma scanCatalog_parses before acc :
  parses E before → (catalogScan before acc).2.2 = None.
Proof.
  intros Hp. revert acc. induction Hp as [|group before [gv Hgv] Hp IH]; intros acc.
  - reflexivity.
  - rewrite (scanCatalog_cons _ _ gv) by exact Hgv. simpl. apply IH.
Qed.

Lemma scanResource_list_error groupVersion gv acc resourceType e :
  scanned resourceType →
  DynamicList E w (WithResource gv (Name resourceType)) scope = Err e →
  resourceScan groupVersion gv acc resourceType
  = ([CallList (WithResource gv (Name resourceType)) scope;
      listDiagnostic groupVersion e], acc).
Proof.
  intros [Hn Hl] He. unfold scanResource. rewrite Hn, Hl, He. reflexivity.
Qed.

(** A failing list call leaves the scan as it would be without the type,
    but for the call and the line it prints. *)
Lemma scanCatalog_list_error before group after pre resourceType post gv e acc :
  parses E before →
  ParseGroupVersion E (GroupVersionStr group) = Ok gv →
  APIResources group = pre ++ resourceType :: post →
  scanned resourceType →
  DynamicList E w (WithResource gv (Name resourceType)) scope = Err e →
  ∃ e1 e2 r,
    catalogScan (before ++ group :: after) acc
    = (e1 ++ [CallList (WithResource gv (Name resourceType)) scope;
              listDiagnostic (GroupVersionStr group) e] ++ e2, r)
    ∧ catalogScan (before ++ withoutType group pre post :: after) acc = (e1 ++ e2, r).
Proof.
  intros Hp Hgv Hres Hs He.
  rewrite !scanCatalog_app by exact Hp. cbv zeta.
  rewrite (scanCatalog_cons group after gv) by exact Hgv.
  rewrite (scanCatalog_cons (withoutType group pre post) after gv) by exact Hgv.
  cbn [withoutType GroupVersionStr APIResources fst snd]. rewrite Hres.
  destruct (forEach_skip (resourceScan (GroupVersionStr group) gv) pre resourceType post
              [CallList (WithResource gv (Name resourceType)) scope;
               listDiagnostic (GroupVersionStr group) e]
              (catalogScan before acc).2.1) as (a1 & a2 & s2 & Hwith & Hwithout).
  { intros s'. apply scanResource_list_error; assumption. }
  rewrite Hwith, Hwithout. cbn [fst snd].
  exists ((catalogScan before acc).1 ++ a1), (a2 ++ (catalogScan after s2).1),
         (catalogScan after s2).2.
  split; f_equal; rewrite <- ?app_assoc; reflexivity.
Qed.

(** The scan stops at the first group/version that does not parse and hands
    back what it has with the error. *)
Lemma scanCatalog_parse_error before group after e acc :
  parses E before →
  ParseGroupVersion E (GroupVersionStr group) = Err e →
  catalogScan (before ++ group :: after) acc
  = ((catalogScan before acc).1, ((catalogScan before acc).2.1, Some e)).
Proof.
  intros Hp Hgv. rewrite scanCatalog_app by exact Hp. simpl. rewrite Hgv. simpl.
  rewrite app_nil_r. reflexivity.
Qed.
End ScanFailures.

(** C7. When the list call of one resource type fails, either scan prints the
    error, records nothing for that type and goes on: its trace is the trace
    of the scan of the catalog without that type, with the failed call and the
    printed line in between, and it returns exactly what that scan returns. *)
Theorem list_failure_skips_type (E : Env) (w : World E) (filterOpts : FilterOptions)
    (before after : list APIResourceList) (group : APIResourceList)
    (pre post : list APIResource) (resourceType : APIResource) (gv : GroupVersion) :
  ServerPreferredResources E w = Ok (before ++ group :: after) →
  parses E before →
  ParseGroupVersion E (GroupVersionStr group) = Ok gv →
  APIResources group = pre ++ resourceType :: post →
  scanned resourceType →
  let gvr := WithResource gv (Name resourceType) in
  let remaining := before ++ withoutType group pre post :: after in
  (∀ e namespaces,
      DynamicList E w gvr NamespaceAll = Err e →
      ∃ e1 e2 r,
        getResourcesWithFinalizersPendingDeletion E w namespaces filterOpts
        = (CallDiscovery :: e1
             ++ [CallList gvr NamespaceAll; listDiagnostic (GroupVersionStr group) e]
             ++ e2, Returned r)
        ∧ scanCatalog E NamespaceAll pendingChecked recordGlobal w filterOpts remaining ∅
          = (e1 ++ e2, r))
  ∧ (∀ e namespace,
      DynamicList E w gvr namespace = Err e →
      ∃ e1 e2 r,
        getNamespacedResourcesWithFinalizersPendingDeletion E w namespace filterOpts
        = (CallDiscovery :: e1
             ++ [CallList gvr namespace; listDiagnostic (GroupVersionStr group) e]
             ++ e2, Returned r)
        ∧ scanCatalog E namespace pendingChecked recordScoped w filterOpts remaining ∅
          = (e1 ++ e2, r)).
Proof.
  intros Hcat Hp Hgv Hres Hs gvr remaining. split.
  - intros e namespaces He.
    destruct (scanCatalog_list_error E NamespaceAll pendingChecked recordGlobal w filterOpts
                before group after pre resourceType post gv e ∅ Hp Hgv Hres Hs He)
      as (e1 & e2 & r & Hwith & Hwithout).
    exists e1, e2, r. split; [|exact Hwithout].
    unfold getResourcesWithFinalizersPendingDeletion, scan. rewrite Hcat, Hwith.
    reflexivity.
  - intros e namespace He.
    destruct (scanCatalog_list_error E namespace pendingChecked recordScoped w filterOpts
                before group after pre resourceType post gv e ∅ Hp Hgv Hres Hs He)
      as (e1 & e2 & r & Hwith & Hwithout).
    exists e1, e2, r. split; [|exact Hwithout].
    unfold getNamespacedResourcesWithFinalizersPendingDeletion, scan. rewrite Hcat, Hwith.
    reflexivity.
Qed.

(** C8. When the catalog cannot be fetched, either scan prints a diagnostic and
    ends the process with exit code 1 before any list call, and so does
    [GetUnusedfinalizers] at its first scan, leaving the world untouched.  A
    group/version that does not parse does not end the process: the scan
    returns that error to its caller, with what it recorded before. *)
Theorem discovery_failure_exits_parse_error_returns (E : Env) (w : World E)
    (filterOpts : FilterOptions) :
  (∀ e, ServerPreferredResources E w = Err e →
     (∀ namespaces,
        getResourcesWithFinalizersPendingDeletion E w namespaces filterOpts
        = ([CallDiscovery; discoveryDiagnostic e], Exited 1))
     ∧ (∀ namespace,
        getNamespacedResourcesWithFinalizersPendingDeletion E w namespace filterOpts
        = ([CallDiscovery; discoveryDiagnostic e], Exited 1))
     ∧ (∀ opts lists outputFormat,
        noNamespaceFilter lists = true ∨ SetNamespaceList E lists w ≠ [] →
        GetUnusedfinalizers E filterOpts opts lists outputFormat w
        = ([CallDiscovery; discoveryDiagnostic e], w, Exited 1)))
  ∧ (∀ before group after e,
       ServerPreferredResources E w = Ok (before ++ group :: after) →
       parses E before →
       ParseGroupVersion E (GroupVersionStr group) = Err e →
       (∀ namespaces,
          ∃ ev m,
            getResourcesWithFinalizersPendingDeletion E w namespaces filterOpts
            = (CallDiscovery :: ev, Returned (m, Some e))
            ∧ scanCatalog E NamespaceAll pendingChecked recordGlobal w filterOpts before ∅
              = (ev, (m, None)))
       ∧ (∀ namespace,
          ∃ ev m,
            getNamespacedResourcesWithFinalizersPendingDeletion E w namespace filterOpts
            = (CallDiscovery :: ev, Returned (m, Some e))
            ∧ scanCatalog E namespace pendingChecked recordScoped w filterOpts before ∅
              = (ev, (m, None)))).
Proof.
  split.
  - intros e He.
    assert (Hscan : ∀ (A : Type) scope isPending (record : A → _) empty,
               scan E scope isPending record w filterOpts empty
               = ([CallDiscovery; discoveryDiagnostic e], Exited 1)).
    { intros. unfold scan. rewrite He. reflexivity. }
    split; [|split].
    + intros namespaces. apply Hscan.
    + intros namespace. apply Hscan.
    + intros opts lists outputFormat Hmode.
      unfold GetUnusedfinalizers, scanAndDelete, bind, ask.
      fold (noNamespaceFilter lists).
      destruct (noNamespaceFilter lists) eqn:Hno.
      * unfold globalMode, bind, observe, getResourcesWithFinalizersPendingDeletion.
        rewrite Hscan. reflexivity.
      * destruct Hmode as [? | Hnss]; [discriminate|].
        destruct (SetNamespaceList E lists w) as [|namespace rest]; [done|].
        unfold scopedMode. simpl. unfold scopedNamespace, bind, observe,
          getNamespacedResourcesWithFinalizersPendingDeletion.
        rewrite Hscan. reflexivity.
  - intros before group after e Hcat Hp Hgv.
    assert (Hscan : ∀ (A : Type) scope isPending (record : A → _) empty,
               ∃ ev m,
                 scan E scope isPending record w filterOpts empty
                 = (CallDiscovery :: ev, Returned (m, Some e))
                 ∧ scanCatalog E scope isPending record w filterOpts before empty
                   = (ev, (m, None))).
    { intros. unfold scan. rewrite Hcat.
      rewrite (scanCatalog_parse_error E scope isPending record w filterOpts
                 before group after e empty Hp Hgv).
      pose proof (scanCatalog_parses E scope isPending record w filterOpts
                    before empty Hp) as Hnone.
      destruct (scanCatalog E scope isPending record w filterOpts before empty)
        as [ev [m err]]. simpl in *. subst err. eauto. }
    split.
    + intros namespaces. apply Hscan.
    + intros namespace. apply Hscan.
Qed.

(** ** Runs of the driver *)

Section DriverFacts.
Context (E : Env).

Lemma bind_returned {A B : Type} (m : M E A) (f : A → M E B) w ev w' b :
  bind m f w = (ev, w', Returned b)
  ↔ ∃ e1 w1 a e2,
      m w = (e1, w1, Returned a) ∧ f a w1 = (e2, w', Returned b) ∧ ev = e1 ++ e2.
Proof.
  unfold bind. destruct (m w) as [[e1 w1] [code | a]].
  - split; [discriminate|]. intros (? & ? & ? & ? & [=] & _).
  - destruct (f a w1) as [[e2 w2] o2] eqn:Hf. split.
    + intros [= <- <- ->]. exists e1, w1, a, e2. eauto.
    + intros (? & ? & ? & ? & [= <- <- <-] & Hf' & ->).
      rewrite Hf in Hf'. injection Hf' as <- <- <-. reflexivity.
Qed.

Lemma bind_events {A B : Type} (Q : Event → Prop) (m : M E A) (f : A → M E B) w :
  Forall Q (m w).1.1 →
  (∀ a w1, Forall Q (f a w1).1.1) →
  Forall Q (bind m f w).1.1.
Proof.
  intros Hm Hf. unfold bind. destruct (m w) as [[e1 w1] [code | a]]; simpl in *.
  - exact Hm.
  - specialize (Hf a w1). destruct (f a w1) as [[e2 w2] o2]. simpl in *.
    apply Forall_app. split; assumption.
Qed.

Lemma forM_events {X S : Type} (Q : Event → Prop) (body : S → X → M E S) xs :
  (∀ s x w, x ∈ xs → Forall Q (body s x w).1.1) →
  ∀ s w, Forall Q (forM body xs s w).1.1.
Proof.
  induction xs as [|x xs IH]; intros Hbody s w.
  - constructor.
  - simpl. apply bind_events.
    + apply Hbody. left.
    + intros a w1. apply IH. intros s' x' w' Hx'. apply Hbody. right. exact Hx'.
Qed.

Lemma forM_invariant {X S : Type} (I : S → Prop) (body : S → X → M E S) xs :
  (∀ s x w ev w' s', x ∈ xs → I s → body s x w = (ev, w', Returned s') → I s') →
  ∀ s w ev w' s', I s → forM body xs s w = (ev, w', Returned s') → I s'.
Proof.
  induction xs as [|x xs IH]; intros Hbody s w ev w' s' Hs Hrun.
  - injection Hrun as <- <- <-. exact Hs.
  - simpl in Hrun. apply bind_returned in Hrun as (e1 & w1 & s1 & e2 & H1 & H2 & ->).
    eapply IH; [| |exact H2].
    + intros ? ? ? ? ? ? Hx. apply Hbody. right. exact Hx.
    + eapply Hbody; [left | exact Hs | exact H1].
Qed.

(** A loop whose turns all return, and update the state in a way that does not
    depend on the world, returns the fold of that update. *)
Lemma forM_fold {X S : Type} (body : S → X → M E S) (step : S → X → S) xs :
  (∀ s x w, x ∈ xs → (body s x w).2 = Returned (step s x)) →
  ∀ s w, (forM body xs s w).2 = Returned (fold_left step xs s).
Proof.
  induction xs as [|x xs IH]; intros Hbody s w.
  - reflexivity.
  - simpl. unfold bind. pose proof (Hbody s x w (list_elem_of_here _ _)) as Hx.
    destruct (body s x w) as [[e1 w1] o]. simpl in Hx. subst o.
    specialize (IH (λ s' x' w' Hx', Hbody s' x' w' (list_elem_of_further _ _ _ Hx'))
                  (step s x) w1).
    destruct (forM body xs (step s x) w1) as [[e2 w2] o2]. exact IH.
Qed.
End DriverFacts.

Section ModeFacts.
Context (E : Env).
Variable filterOpts : FilterOptions.
Variable opts : Opts.

Lemma deleteGroup_returned withFinalizer namespace u entry w :
  (deleteGroup E opts withFinalizer namespace u entry w).2 = Returned tt.
Proof.
  unfold deleteGroup. destruct entry as [resourceType resourceDiff].
  destruct (DeleteFlag opts); [|reflexivity].
  unfold bind, callDelete.
  destruct ((if withFinalizer then _ else _) _ _ _ _ _) as [[names [e|]] w1];
    reflexivity.
Qed.

Lemma deleteGroup_events withFinalizer namespace groups u entry w :
  entry ∈ groups →
  Forall (deleteEvent opts withFinalizer namespace groups)
         (deleteGroup E opts withFinalizer namespace u entry w).1.1.
Proof.
  intros Hin. unfold deleteGroup. destruct entry as [resourceType resourceDiff].
  destruct (DeleteFlag opts) eqn:Hflag; [|constructor].
  unfold bind, callDelete.
  destruct ((if withFinalizer then _ else _) _ _ _ _ _) as [[names [e|]] w1]; simpl.
  - constructor; [repeat split; assumption|].
    constructor; [exists names, e; reflexivity | constructor].
  - constructor; [repeat split; assumption | constructor].
Qed.

Lemma deleteGroups_returned withFinalizer namespace groups w :
  (forM (deleteGroup E opts withFinalizer namespace) groups tt w).2 = Returned tt.
Proof.
  rewrite (forM_fold E _ (λ _ _, tt)).
  - f_equal. induction groups; [reflexivity | assumption].
  - intros [] x w' _. apply deleteGroup_returned.
Qed.

Lemma deleteGroups_events withFinalizer namespace groups w :
  Forall (deleteEvent opts withFinalizer namespace groups)
         (forM (deleteGroup E opts withFinalizer namespace) groups tt w).1.1.
Proof.
  apply forM_events. intros s x w' Hx. apply deleteGroup_events. exact Hx.
Qed.

Lemma globalNamespace_returned namespaces st entry w :
  (globalNamespace E opts namespaces st entry w).2
  = Returned (globalStep E opts namespaces st entry).
Proof.
  unfold globalNamespace, globalStep. destruct entry as [namespace data]. simpl.
  destruct (Contains namespaces namespace); [|reflexivity].
  unfold bind, ask. simpl.
  pose proof (deleteGroups_returned true namespace (range E w _ data) w) as Hdel.
  destruct (forM _ (range E w _ data) tt w) as [[e1 w1] o]. simpl in Hdel. subst o.
  reflexivity.
Qed.

Lemma globalStep_response namespaces entries ns data :
  NoDup entries.*1 →
  response (fold_left (globalStep E opts namespaces) entries emptyReport) !! ns = Some data
  ↔ (ns, data) ∈ entries ∧ ns ∈ namespaces.
Proof.
  induction entries as [|[k d] entries IH] using rev_ind; intros Hnd.
  - simpl. rewrite lookup_empty. split; [discriminate|]. intros [H _]. inversion H.
  - rewrite fmap_app in Hnd. apply NoDup_app in Hnd as (Hnd & Hfresh & _).
    rewrite fold_left_app. simpl. unfold globalStep at 1, Contains. simpl.
    assert (Hk : ∀ d', (k, d') ∉ entries).
    { intros d' Hin. apply (Hfresh k); [|left].
      apply list_elem_of_fmap. exists (k, d'). split; [reflexivity | exact Hin]. }
    rewrite elem_of_app, list_elem_of_singleton.
    case_bool_decide as Hmem; simpl.
    + destruct (decide (k = ns)) as [-> | Hne].
      * rewrite lookup_insert_eq. split.
        -- intros [= ->]. split; [right; reflexivity | exact Hmem].
        -- intros [[Hin | [= ->]] _]; [destruct (Hk _ Hin) | reflexivity].
      * rewrite lookup_insert_ne by exact Hne. rewrite IH by exact Hnd.
        split; [tauto|]. intros [[Hin | [= -> _]] ?]; [tauto | congruence].
    + rewrite IH by exact Hnd. split; [tauto|].
      intros [[Hin | [= -> _]] ?]; [tauto | contradiction].
Qed.

Lemma range_lookup {V : Type} (w : World E) (m : gmap string V) k v :
  (k, v) ∈ range E w V m ↔ m !! k = Some v.
Proof. rewrite (range_perm E w V m). apply elem_of_map_to_list. Qed.

Lemma range_NoDup {V : Type} (w : World E) (m : gmap string V) :
  NoDup (range E w V m).*1.
Proof. rewrite (range_perm E w V m). apply NoDup_fst_map_to_list. Qed.

(** Global mode returns whenever its scan does, and its response is the
    result of the scan cut down to the resolved namespaces. *)
Lemma globalMode_returned namespaces w resourceDiffs err :
  (getResourcesWithFinalizersPendingDeletion E w namespaces filterOpts).2
  = Returned (resourceDiffs, err) →
  ∃ st, (globalMode E filterOpts opts namespaces w).2 = Returned st
        ∧ ∀ ns data, response st !! ns = Some data
                     ↔ resourceDiffs !! ns = Some data ∧ ns ∈ namespaces.
Proof.
  intros Hscan. unfold globalMode, bind, observe, ask.
  destruct (getResourcesWithFinalizersPendingDeletion E w namespaces filterOpts)
    as [ev o]. simpl in Hscan. subst o.
  assert (Hrep : ∃ e, reportErr E err scanDiagnostic w = (e, w, Returned tt)).
  { destruct err; simpl; eauto. }
  destruct Hrep as [e ->]. simpl.
  pose proof (forM_fold E (globalNamespace E opts namespaces) (globalStep E opts namespaces)
                (range E w _ resourceDiffs)
                (λ s x w' _, globalNamespace_returned namespaces s x w')
                emptyReport w) as Hloop.
  destruct (forM _ (range E w _ resourceDiffs) emptyReport w) as [[e2 w2] o2].
  simpl in Hloop. subst o2. eexists. split; [reflexivity|].
  intros ns data. rewrite globalStep_response by apply range_NoDup.
  rewrite range_lookup. reflexivity.
Qed.
End ModeFacts.

(** ** Traces *)

Lemma discoveryCalls_app ev1 ev2 :
  discoveryCalls (ev1 ++ ev2) = (discoveryCalls ev1 + discoveryCalls ev2)%nat.
Proof. unfold discoveryCalls. rewrite filter_app, length_app. reflexivity. Qed.

Lemma discoveryCalls_none (Q : Event → Prop) ev :
  (∀ e, Q e → isDiscovery e = false) → Forall Q ev → discoveryCalls ev = 0%nat.
Proof.
  intros HQ Hev. unfold discoveryCalls. induction Hev as [|e ev He _ IH]; [reflexivity|].
  rewrite filter_cons. destruct (decide _) as [Hd|]; [|exact IH].
  rewrite (HQ e He) in Hd. discriminate.
Qed.

Section ScanEvents.
Context (E : Env) {A : Type}.
Variable scope : string.
Variable isPending : Unstructured → bool.
Variable record : A → string → Unstructured → A.
Variable w : World E.
Variable filterOpts : FilterOptions.

Lemma scanItem_events resourceName acc item :
  Forall (catalogEvent scope)
         (scanItem E isPending record filterOpts resourceName acc item).1.
Proof.
  unfold scanItem. case_bool_decide; [constructor|].
  destruct (HasExcludedLabel E _ _) as [[] ?]; [repeat constructor|].
  destruct (HasIncludedAge E _ _) as [[] ?]; simpl;
    [destruct (isPending item)|]; repeat constructor.
Qed.

Lemma scanResource_events groupVersion gv acc resourceType :
  Forall (catalogEvent scope)
         (scanResource E scope isPending record w filterOpts groupVersion gv acc resourceType).1.
Proof.
  unfold scanResource. destruct (_ && _); [|constructor].
  destruct (DynamicList E w _ scope) as [items | err].
  2:{ constructor; [reflexivity|]. constructor; [|constructor].
      left. exists groupVersion, err. reflexivity. }
  pose proof (forEach_events (scanItem E isPending record filterOpts (Name resourceType))
                (catalogEvent scope) items
                (λ s x _, scanItem_events (Name resourceType) s x) acc) as Hloop.
  destruct (forEach _ items acc) as [ev acc']. simpl in *.
  constructor; [reflexivity | exact Hloop].
Qed.

Lemma scanCatalog_events resourceTypes acc :
  Forall (catalogEvent scope)
         (scanCatalog E scope isPending record w filterOpts resourceTypes acc).1.
Proof.
  revert acc. induction resourceTypes as [|group rest IH]; intros acc; simpl.
  - constructor.
  - destruct (ParseGroupVersion E (GroupVersionStr group)) as [gv | err]; [|constructor].
    pose proof (forEach_events
                  (scanResource E scope isPending record w filterOpts (GroupVersionStr group) gv)
                  (catalogEvent scope) (APIResources group)
                  (λ s x _, scanResource_events (GroupVersionStr group) gv s x) acc) as Hloop.
    destruct (forEach _ (APIResources group) acc) as [e1 acc1]. specialize (IH acc1).
    destruct (scanCatalog E scope isPending record w filterOpts rest acc1) as [e2 r].
    simpl in *. apply Forall_app. split; assumption.
Qed.

(** A scan fetches the catalog once, first; the rest of its trace is the
    trace of the scan of the catalog, or the diagnostic. *)
Lemma scan_events empty :
  ∃ ev, (scan E scope isPending record w filterOpts empty).1 = CallDiscovery :: ev
        ∧ Forall (catalogEvent scope) ev.
Proof.
  unfold scan. destruct (ServerPreferredResources E w) as [resourceTypes | err].
  - pose proof (scanCatalog_events resourceTypes empty) as Hev.
    destruct (scanCatalog _ _ _ _ _ _ resourceTypes empty) as [ev r]. simpl in *. eauto.
  - eexists. split; [reflexivity|]. constructor; [|constructor].
    right. exists err. reflexivity.
Qed.

Lemma scan_discoveryCalls empty :
  discoveryCalls (scan E scope isPending record w filterOpts empty).1 = 1%nat.
Proof.
  destruct (scan_events empty) as (ev & -> & Hev).
  change (CallDiscovery :: ev) with ([CallDiscovery] ++ ev).
  rewrite discoveryCalls_app, (discoveryCalls_none (catalogEvent scope) ev); auto.
  intros [] H; try reflexivity. destruct H.
Qed.
End ScanEvents.

Section ModeTraces.
Context (E : Env).
Variable filterOpts : FilterOptions.
Variable opts : Opts.

Lemma deleteEvent_driverEvent withFinalizer namespace namespaces groups
    (G : string → string → list string → Prop) ev :
  namespace ∈ namespaces →
  (∀ resourceType names, (resourceType, names) ∈ groups → G namespace resourceType names) →
  Forall (deleteEvent opts withFinalizer namespace groups) ev →
  Forall (driverEvent opts withFinalizer namespaces G) ev.
Proof.
  intros Hns HG Hev. eapply Forall_impl; [exact Hev|].
  intros [] H; simpl in *; try exact H.
  - destruct H as (names & err & H). left. exists names, namespace, err. auto.
  - destruct H as (-> & -> & Hin & -> & Hflag). auto.
Qed.

Lemma globalNamespace_events namespaces (G : string → string → list string → Prop) st entry w :
  (∀ resourceType names, entry.2 !! resourceType = Some names →
                         G entry.1 resourceType names) →
  Forall (driverEvent opts true namespaces G) (globalNamespace E opts namespaces st entry w).1.1.
Proof.
  intros HG. unfold globalNamespace. destruct entry as [namespace data]. simpl in *.
  unfold Contains. case_bool_decide as Hns; [|constructor].
  unfold bind, ask. simpl.
  pose proof (deleteGroups_events E opts true namespace (range E w _ data) w) as Hev.
  destruct (forM _ (range E w _ data) tt w) as [[e1 w1] [c | []]]; simpl in *.
  - eapply deleteEvent_driverEvent; [exact Hns | | exact Hev].
    intros rt names Hin. apply HG. apply range_lookup in Hin. exact Hin.
  - rewrite app_nil_r. eapply deleteEvent_driverEvent; [exact Hns | | exact Hev].
    intros rt names Hin. apply HG. apply range_lookup in Hin. exact Hin.
Qed.

Lemma globalMode_trace namespaces w :
  ∃ G, globalTrace opts namespaces G (globalMode E filterOpts opts namespaces w).1.1
       ∧ ∀ resourceDiffs err,
           (getResourcesWithFinalizersPendingDeletion E w namespaces filterOpts).2
           = Returned (resourceDiffs, err) →
           G = scannedGroup resourceDiffs.
Proof.
  unfold globalMode, bind, observe, ask, getResourcesWithFinalizersPendingDeletion.
  destruct (scan_events E NamespaceAll pendingChecked recordGlobal w filterOpts ∅)
    as (scanEv & Hev & Hscan).
  destruct (scan E NamespaceAll pendingChecked recordGlobal w filterOpts ∅)
    as [ev [code | [resourceDiffs err]]]; simpl in Hev; subst ev.
  - exists (λ _ _ _, True). split; [|intros ? ? [=]].
    exists scanEv, []. rewrite app_nil_r. repeat split; [exact Hscan | constructor].
  - exists (scannedGroup resourceDiffs). split; [|intros ? ? [= <- _]; reflexivity].
    assert (Hrep : ∃ e, reportErr E err scanDiagnostic w = (e, w, Returned tt)
                        ∧ Forall (driverEvent opts true namespaces
                                    (scannedGroup resourceDiffs)) e).
    { destruct err as [e|]; simpl; eexists; (split; [reflexivity|]).
      - constructor; [|constructor]. right. exists e. reflexivity.
      - constructor. }
    destruct Hrep as (e & -> & He). simpl.
    pose proof (forM_events E (driverEvent opts true namespaces (scannedGroup resourceDiffs))
                  (globalNamespace E opts namespaces) (range E w _ resourceDiffs)) as Hloop.
    specialize (Hloop (λ s x w' Hx, globalNamespace_events namespaces _ s x w'
                         (λ rt names Hl, ex_intro _ x.2
                            (conj (proj1 (range_lookup E w resourceDiffs x.1 x.2)
                                     ltac:(destruct x; exact Hx)) Hl)))
                       emptyReport w).
    destruct (forM _ (range E w _ resourceDiffs) emptyReport w) as [[e2 w2] o2].
    simpl in *. exists scanEv, (e ++ e2).
    split; [reflexivity|]. split; [exact Hscan|].
    apply Forall_app. split; assumption.
Qed.

Lemma scopedNamespace_run st namespace w :
  scopedNamespace E filterOpts opts st namespace w
  = let s := getNamespacedResourcesWithFinalizersPendingDeletion E w namespace filterOpts in
    match s.2 with
    | Exited code => (s.1, w, Exited code)
    | Returned (m, Some e) => (s.1 ++ [namespaceDiagnostic namespace e], w, Returned st)
    | Returned (m, None) =>
        let d := forM (deleteGroup E opts false namespace) (range E w _ m) tt w in
        (s.1 ++ d.1.1, d.1.2, Returned (addToReport E opts st namespace m))
    end.
Proof.
  unfold scopedNamespace, bind, observe, ask.
  destruct (getNamespacedResourcesWithFinalizersPendingDeletion E w namespace filterOpts)
    as [ev [code | [m [e|]]]]; simpl; try reflexivity.
  pose proof (deleteGroups_returned E opts false namespace (range E w _ m) w) as Hdel.
  destruct (forM _ (range E w _ m) tt w) as [[e1 w1] o]. simpl in *. subst o.
  rewrite app_nil_r. reflexivity.
Qed.
End ModeTraces.

(** ** Shape of the indexes *)

Lemma forEach_invariant {X S : Type} (I : S → Prop) (body : S → X → list Event * S) xs :
  (∀ s x, I s → I (body s x).2) → ∀ s, I s → I (forEach body xs s).2.
Proof.
  intros Hbody. induction xs as [|x xs IH]; intros s Hs; [exact Hs|].
  rewrite forEach_cons. simpl. apply IH, Hbody, Hs.
Qed.

Lemma scanCatalog_invariant (E : Env) {A : Type} (I : A → Prop) scope isPending
    (record : A → string → Unstructured → A) w filterOpts resourceTypes :
  (∀ acc resourceName item, I acc → I (record acc resourceName item)) →
  ∀ acc, I acc → I (scanCatalog E scope isPending record w filterOpts resourceTypes acc).2.1.
Proof.
  intros Hrec. induction resourceTypes as [|group rest IH]; intros acc Hacc; [exact Hacc|].
  simpl. destruct (ParseGroupVersion E (GroupVersionStr group)) as [gv | err]; [|exact Hacc].
  pose proof (forEach_invariant I
                (scanResource E scope isPending record w filterOpts (GroupVersionStr group) gv)
                (APIResources group)) as Hloop.
  destruct (forEach _ (APIResources group) acc) as [e1 acc1] eqn:Hrun.
  assert (Hacc1 : I acc1).
  { replace acc1 with (forEach (scanResource E scope isPending record w filterOpts
                                  (GroupVersionStr group) gv) (APIResources group) acc).2
      by (rewrite Hrun; reflexivity).
    apply Hloop; [|exact Hacc]. intros s rt Hs. unfold scanResource.
    destruct (_ && _); [|exact Hs].
    destruct (DynamicList E w _ scope) as [items | e]; [|exact Hs].
    pose proof (forEach_invariant I (scanItem E isPending record filterOpts (Name rt)) items)
      as Hitems.
    destruct (forEach _ items s) as [e2 s2] eqn:Hrun2. simpl.
    replace s2 with (forEach (scanItem E isPending record filterOpts (Name rt)) items s).2
      by (rewrite Hrun2; reflexivity).
    apply Hitems; [|exact Hs]. intros s' item Hs'.
    rewrite scanItem_result. destruct (kept _ _ _ _); auto. }
  specialize (IH acc1 Hacc1).
  destruct (scanCatalog E scope isPending record w filterOpts rest acc1) as [e2 r].
  exact IH.
Qed.

Lemma recordScoped_nonEmpty acc resourceName item :
  nonEmptyLists acc → nonEmptyLists (recordScoped acc resourceName item).
Proof.
  intros Hacc rt names. unfold recordScoped.
  destruct (decide (resourceName = rt)) as [-> | Hne].
  - rewrite lookup_insert_eq. intros [= <-]. destruct (default [] _); discriminate.
  - rewrite lookup_insert_ne by exact Hne. apply Hacc.
Qed.

Lemma recordGlobal_nonEmpty acc resourceName item :
  nonEmptyGroups acc → nonEmptyGroups (recordGlobal acc resourceName item).
Proof.
  intros Hacc ns inner. unfold recordGlobal.
  destruct (decide (GetNamespace item = ns)) as [<- | Hne].
  - rewrite lookup_insert_eq. intros [= <-]. split.
    + apply insert_non_empty.
    + apply (recordScoped_nonEmpty (default ∅ (acc !! GetNamespace item)) resourceName item).
      destruct (acc !! GetNamespace item) as [i|] eqn:Hi; simpl.
      * apply (Hacc _ _ Hi).
      * intros ? ? H. rewrite lookup_empty in H. discriminate.
  - rewrite lookup_insert_ne by exact Hne. apply Hacc.
Qed.

Lemma global_nonEmpty E w namespaces filterOpts m err :
  (getResourcesWithFinalizersPendingDeletion E w namespaces filterOpts).2 = Returned (m, err) →
  nonEmptyGroups m.
Proof.
  intros Hret. apply scan_returned in Hret as (rts & _ & Hr).
  replace m with (scanCatalog E NamespaceAll pendingChecked recordGlobal w filterOpts rts ∅).2.1
    by (rewrite <- Hr; reflexivity).
  apply (scanCatalog_invariant E nonEmptyGroups).
  - intros. apply recordGlobal_nonEmpty. assumption.
  - intros ? ? H. rewrite lookup_empty in H. discriminate.
Qed.

Lemma scoped_nonEmpty E w namespace filterOpts m err :
  (getNamespacedResourcesWithFinalizersPendingDeletion E w namespace filterOpts).2
  = Returned (m, err) →
  nonEmptyLists m.
Proof.
  intros Hret. apply scan_returned in Hret as (rts & _ & Hr).
  replace m with (scanCatalog E namespace pendingChecked recordScoped w filterOpts rts ∅).2.1
    by (rewrite <- Hr; reflexivity).
  apply (scanCatalog_invariant E nonEmptyLists).
  - intros. apply recordScoped_nonEmpty. assumption.
  - intros ? ? H. rewrite lookup_empty in H. discriminate.
Qed.

(** ** Scoped mode *)

Section ScopedFacts.
Context (E : Env).
Variable filterOpts : FilterOptions.
Variable opts : Opts.

Local Abbreviation scopedLoop := (forM (scopedNamespace E filterOpts opts)).

Lemma scopedNamespace_returned st namespace w ev w' st' :
  scopedNamespace E filterOpts opts st namespace w = (ev, w', Returned st') →
  ∃ scanEv driverEv m err,
    getNamespacedResourcesWithFinalizersPendingDeletion E w namespace filterOpts
    = (CallDiscovery :: scanEv, Returned (m, err))
    ∧ ev = CallDiscovery :: scanEv ++ driverEv
    ∧ Forall (catalogEvent namespace) scanEv
    ∧ Forall (driverEvent opts false [namespace] (λ _ _ _, True)) driverEv
    ∧ st' = match err with Some _ => st | None => addToReport E opts st namespace m end.
Proof.
  rewrite scopedNamespace_run. unfold getNamespacedResourcesWithFinalizersPendingDeletion.
  destruct (scan_events E namespace pendingChecked recordScoped w filterOpts ∅)
    as (scanEv & Hev & Hscan).
  destruct (scan E namespace pendingChecked recordScoped w filterOpts ∅)
    as [ev0 [code | [m [e|]]]]; simpl in *; subst ev0; [discriminate| |].
  - intros [= <- <- <-]. exists scanEv, [namespaceDiagnostic namespace e], m, (Some e).
    repeat split; try assumption. constructor; [|constructor].
    right. exists namespace, e. split; [reflexivity | left].
  - pose proof (deleteGroups_events E opts false namespace (range E w _ m) w) as Hdel.
    intros [= <- <- <-]. eexists scanEv, _, m, None.
    repeat split; try assumption.
    eapply deleteEvent_driverEvent; [| |exact Hdel]; [left | done].
Qed.

Lemma scopedNamespace_events namespaces st namespace w :
  namespace ∈ namespaces →
  Forall (scopedEvent namespaces) (scopedNamespace E filterOpts opts st namespace w).1.1.
Proof.
  intros Hns. rewrite scopedNamespace_run.
  unfold getNamespacedResourcesWithFinalizersPendingDeletion.
  destruct (scan_events E namespace pendingChecked recordScoped w filterOpts ∅)
    as (scanEv & Hev & Hscan).
  assert (Hs : Forall (scopedEvent namespaces) (CallDiscovery :: scanEv)).
  { constructor; [exact I|]. eapply Forall_impl; [exact Hscan|].
    intros [] H; simpl in *; try exact I; try destruct H. subst. exact Hns. }
  destruct (scan E namespace pendingChecked recordScoped w filterOpts ∅)
    as [ev0 [code | [m [e|]]]]; simpl in *; subst ev0.
  - exact Hs.
  - apply Forall_app. split; [exact Hs | repeat constructor].
  - apply Forall_app. split; [exact Hs|].
    pose proof (deleteGroups_events E opts false namespace (range E w _ m) w) as Hdel.
    eapply Forall_impl; [exact Hdel|].
    intros [] H; simpl in *;
      first [ exact I
            | destruct H as (-> & -> & _); split; [reflexivity | exact Hns]
            | destruct H ].
Qed.

Lemma scopedMode_trace namespaces st w ev w' st' :
  scopedLoop namespaces st w = (ev, w', Returned st') → scopedTrace opts namespaces ev.
Proof.
  revert st w ev. induction namespaces as [|ns rest IH]; intros st w ev Hrun.
  - injection Hrun as <- _ _. reflexivity.
  - simpl in Hrun. apply bind_returned in Hrun as (e1 & w1 & s1 & e2 & H1 & H2 & ->).
    apply scopedNamespace_returned in H1
      as (scanEv & driverEv & m & err & _ & -> & Hscan & Hdrv & _).
    simpl. exists scanEv, driverEv, e2. rewrite <- app_assoc.
    repeat split; try assumption. eapply IH. exact H2.
Qed.

Lemma scopedMode_keys namespaces st0 w ev w' st :
  scopedLoop namespaces st0 w = (ev, w', Returned st) →
  ∀ ns, is_Some (response st !! ns)
        ↔ is_Some (response st0 !! ns) ∨ scannedWithoutError E filterOpts opts namespaces st0 w ns.
Proof.
  revert st0 w ev. induction namespaces as [|n rest IH]; intros st0 w ev Hrun ns.
  - injection Hrun as _ _ <-. split; [tauto|].
    intros [H | (before & ? & ? & ? & ? & ? & Heq & _)]; [exact H|].
    destruct before; discriminate.
  - simpl in Hrun. apply bind_returned in Hrun as (e1 & w1 & s1 & e2 & H1 & H2 & ->).
    rewrite (IH _ _ _ H2 ns).
    pose proof H1 as Hbody.
    apply scopedNamespace_returned in Hbody
      as (scanEv & driverEv & m & err & Hscan & _ & _ & _ & Hs1).
    assert (Hfirst : is_Some (response s1 !! ns)
                     ↔ is_Some (response st0 !! ns) ∨ (n = ns ∧ err = None)).
    { subst s1. destruct err as [e|]; simpl.
      - split; [tauto|]. intros [H | [_ [=]]]; exact H.
      - destruct (decide (n = ns)) as [-> | Hne].
        + rewrite lookup_insert_eq. split; [tauto | eauto].
        + rewrite lookup_insert_ne by exact Hne. split; [tauto|].
          intros [H | [? _]]; [exact H | contradiction]. }
    rewrite Hfirst. split.
    + intros [[H | [-> ->]] | (before & after & e3 & w3 & st3 & m3 & -> & Hpre & Hok)].
      * left. exact H.
      * right. exists [], rest, [], w, st0, m. repeat split.
        rewrite Hscan. reflexivity.
      * right. exists (n :: before), after, (e1 ++ e3), w3, st3, m3.
        repeat split; [|exact Hok]. simpl. apply bind_returned.
        exists e1, w1, s1, e3. auto.
    + intros [H | (before & after & e3 & w3 & st3 & m3 & Heq & Hpre & Hok)]; [tauto|].
      destruct before as [|b before]; simpl in Heq; injection Heq as <- ->.
      * injection Hpre as _ <- _. left. right. split; [reflexivity|].
        rewrite Hscan in Hok. simpl in Hok. congruence.
      * right. simpl in Hpre.
        apply bind_returned in Hpre as (e1' & w1' & s1' & e2' & H1' & H2' & ->).
        rewrite H1 in H1'. injection H1' as <- <- <-.
        exists before, after, e2', w3, st3, m3. auto.
Qed.

Lemma scopedMode_values namespaces st0 w ev w' st :
  scopedLoop namespaces st0 w = (ev, w', Returned st) →
  (∀ ns data, response st0 !! ns = Some data →
     ∃ w1, (getNamespacedResourcesWithFinalizersPendingDeletion E w1 ns filterOpts).2
           = Returned (data, None)) →
  ∀ ns data, response st !! ns = Some data →
    ∃ w1, (getNamespacedResourcesWithFinalizersPendingDeletion E w1 ns filterOpts).2
          = Returned (data, None).
Proof.
  intros Hrun H0.
  eapply (forM_invariant E (λ s, ∀ ns data, response s !! ns = Some data →
            ∃ w1, (getNamespacedResourcesWithFinalizersPendingDeletion E w1 ns filterOpts).2
                  = Returned (data, None)));
    [| exact H0 | exact Hrun].
  intros s x w0 e0 w1 s1 _ Hs Hbody.
  apply scopedNamespace_returned in Hbody as (? & ? & m & err & Hscan & _ & _ & _ & ->).
  destruct err; [exact Hs|]. intros ns data. simpl.
  destruct (decide (x = ns)) as [-> | Hne].
  - rewrite lookup_insert_eq. intros [= <-]. exists w0. rewrite Hscan. reflexivity.
  - rewrite lookup_insert_ne by exact Hne. apply Hs.
Qed.

Lemma scopedMode_nonEmpty namespaces st0 w ev w' st :
  scopedLoop namespaces st0 w = (ev, w', Returned st) →
  (∀ ns inner, response st0 !! ns = Some inner → nonEmptyLists inner) →
  ∀ ns inner, response st !! ns = Some inner → nonEmptyLists inner.
Proof.
  intros Hrun H0.
  eapply (forM_invariant E (λ s, ∀ ns inner, response s !! ns = Some inner → nonEmptyLists inner));
    [| exact H0 | exact Hrun].
  intros s x w0 e0 w1 s1 _ Hs Hbody.
  apply scopedNamespace_returned in Hbody as (? & ? & m & err & Hscan & _ & _ & _ & ->).
  destruct err; [exact Hs|]. intros ns inner. simpl.
  destruct (decide (x = ns)) as [-> | Hne].
  - rewrite lookup_insert_eq. intros [= <-].
    eapply scoped_nonEmpty. rewrite Hscan. reflexivity.
  - rewrite lookup_insert_ne by exact Hne. apply Hs.
Qed.
End ScopedFacts.

(** ** The driver *)

Lemma scanAndDelete_run E filterOpts opts lists w :
  scanAndDelete E filterOpts opts lists w
  = if noNamespaceFilter lists
    then globalMode E filterOpts opts (SetNamespaceList E lists w) w
    else scopedMode E filterOpts opts (SetNamespaceList E lists w) w.
Proof.
  unfold scanAndDelete, bind, ask, noNamespaceFilter.
  destruct (_ && _); [destruct (globalMode _ _ _ _ _) as [[? ?] ?]
                     | destruct (scopedMode _ _ _ _ _) as [[? ?] ?]]; reflexivity.
Qed.

Lemma noNamespaceFilter_spec lists :
  noNamespaceFilter lists = true ↔ IncludeListStr lists = [] ∧ ExcludeListStr lists = [].
Proof.
  unfold noNamespaceFilter.
  destruct (ExcludeListStr lists), (IncludeListStr lists); simpl;
    split; try discriminate; try tauto; intros [? ?]; discriminate.
Qed.

Lemma catalogEvent_not_discovery scope e : catalogEvent scope e → isDiscovery e = false.
Proof. destruct e; simpl; intros H; try reflexivity. destruct H. Qed.

Lemma driverEvent_not_discovery opts withFinalizer namespaces G e :
  driverEvent opts withFinalizer namespaces G e → isDiscovery e = false.
Proof. destruct e; simpl; intros H; try reflexivity. destruct H. Qed.

Lemma globalTrace_inv opts namespaces G ev :
  globalTrace opts namespaces G ev →
  discoveryCalls ev = 1%nat
  ∧ (∀ gvr ns, CallList gvr ns ∈ ev → ns = NamespaceAll)
  ∧ (∀ wf names ns resourceType noInteractive,
       CallDelete wf names ns resourceType noInteractive ∈ ev →
       wf = true ∧ ns ∈ namespaces ∧ G ns resourceType names)
  ∧ (∀ line, Stderr line ∈ ev →
       (∃ names ns err, Stderr line = deleteDiagnostic names ns err ∧ ns ∈ namespaces)
       ∨ (∃ err, Stderr line = scanDiagnostic err))
  ∧ (∀ line, Stdout line ∈ ev →
       (∃ groupVersion err, Stdout line = listDiagnostic groupVersion err)
       ∨ (∃ err, Stdout line = discoveryDiagnostic err)).
Proof.
  intros (scanEv & driverEv & -> & Hscan & Hdrv). split; [|split; [|split; [|split]]].
  - change (CallDiscovery :: scanEv ++ driverEv) with ([CallDiscovery] ++ scanEv ++ driverEv).
    rewrite !discoveryCalls_app.
    rewrite (discoveryCalls_none _ scanEv (catalogEvent_not_discovery _) Hscan).
    rewrite (discoveryCalls_none _ driverEv (driverEvent_not_discovery _ _ _ _) Hdrv).
    reflexivity.
  - intros gvr ns Hin. apply elem_of_cons in Hin as [[=] | Hin].
    apply elem_of_app in Hin as [Hin | Hin].
    + apply (proj1 (Forall_forall _ _) Hscan) in Hin. exact Hin.
    + apply (proj1 (Forall_forall _ _) Hdrv) in Hin. destruct Hin.
  - intros wf names ns rt ni Hin. apply elem_of_cons in Hin as [[=] | Hin].
    apply elem_of_app in Hin as [Hin | Hin].
    + apply (proj1 (Forall_forall _ _) Hscan) in Hin. destruct Hin.
    + apply (proj1 (Forall_forall _ _) Hdrv) in Hin. simpl in Hin. tauto.
  - intros line Hin. apply elem_of_cons in Hin as [[=] | Hin].
    apply elem_of_app in Hin as [Hin | Hin].
    + apply (proj1 (Forall_forall _ _) Hscan) in Hin. destruct Hin.
    + apply (proj1 (Forall_forall _ _) Hdrv) in Hin. exact Hin.
  - intros line Hin. apply elem_of_cons in Hin as [[=] | Hin].
    apply elem_of_app in Hin as [Hin | Hin].
    + apply (proj1 (Forall_forall _ _) Hscan) in Hin. exact Hin.
    + apply (proj1 (Forall_forall _ _) Hdrv) in Hin. destruct Hin.
Qed.

Lemma scopedTrace_discoveryCalls opts namespaces ev :
  scopedTrace opts namespaces ev → discoveryCalls ev = length namespaces.
Proof.
  revert ev. induction namespaces as [|ns rest IH]; intros ev Hev; simpl in Hev.
  - subst ev. reflexivity.
  - destruct Hev as (scanEv & driverEv & restEv & -> & Hscan & Hdrv & Hrest).
    change (CallDiscovery :: scanEv ++ driverEv ++ restEv)
      with ([CallDiscovery] ++ scanEv ++ driverEv ++ restEv).
    rewrite !discoveryCalls_app, (IH _ Hrest).
    rewrite (discoveryCalls_none _ scanEv (catalogEvent_not_discovery _) Hscan).
    rewrite (discoveryCalls_none _ driverEv (driverEvent_not_discovery _ _ _ _) Hdrv).
    reflexivity.
Qed.

(** ** The two modes in the trace, and the returned value *)

(** The two modes, as they show in the trace of the scanning and deleting
    part of [GetUnusedfinalizers]. *)
Lemma scanAndDelete_modes (E : Env) (filterOpts : FilterOptions) (opts : Opts)
    (lists : IncludeExcludeLists) (w : World E) :
  let namespaces := SetNamespaceList E lists w in
  let run := scanAndDelete E filterOpts opts lists w in
  (IncludeListStr lists = [] ∧ ExcludeListStr lists = [] →
     run = globalMode E filterOpts opts namespaces w
     ∧ discoveryCalls run.1.1 = 1%nat
     ∧ (∀ gvr ns, CallList gvr ns ∈ run.1.1 → ns = NamespaceAll)
     ∧ (∀ wf names ns resourceType noInteractive,
          CallDelete wf names ns resourceType noInteractive ∈ run.1.1 →
          wf = true ∧ ns ∈ namespaces
          ∧ ∃ resourceDiffs err,
              (getResourcesWithFinalizersPendingDeletion E w namespaces filterOpts).2
              = Returned (resourceDiffs, err)
              ∧ scannedGroup resourceDiffs ns resourceType names))
  ∧ (¬ (IncludeListStr lists = [] ∧ ExcludeListStr lists = []) →
     run = scopedMode E filterOpts opts namespaces w
     ∧ (∀ gvr ns, CallList gvr ns ∈ run.1.1 → ns ∈ namespaces)
     ∧ (∀ wf names ns resourceType noInteractive,
          CallDelete wf names ns resourceType noInteractive ∈ run.1.1 →
          wf = false ∧ ns ∈ namespaces)
     ∧ (∀ st, run.2 = Returned st →
          scopedTrace opts namespaces run.1.1
          ∧ discoveryCalls run.1.1 = length namespaces)).
Proof.
  intros namespaces run. subst run. rewrite scanAndDelete_run. fold namespaces. split.
  - intros Hempty. apply noNamespaceFilter_spec in Hempty. rewrite Hempty.
    split; [reflexivity|].
    destruct (globalMode_trace E filterOpts opts namespaces w) as (G & Htrace & HG).
    apply globalTrace_inv in Htrace as (Hcount & Hlist & Hdel & _).
    split; [exact Hcount|]. split; [exact Hlist|].
    intros wf names ns rt ni Hin. specialize (Hdel _ _ _ _ _ Hin) as (-> & Hns & Hgroup).
    split; [reflexivity|]. split; [exact Hns|].
    destruct (getResourcesWithFinalizersPendingDeletion E w namespaces filterOpts).2
      as [code | [resourceDiffs err]] eqn:Hscan.
    + exfalso. clear Hgroup HG Hcount Hlist.
      unfold globalMode, bind, observe in Hin.
      destruct (getResourcesWithFinalizersPendingDeletion E w namespaces filterOpts)
        as [ev o] eqn:Hrun. simpl in Hscan. subst o. simpl in Hin.
      destruct (scan_events E NamespaceAll pendingChecked recordGlobal w filterOpts ∅)
        as (scanEv & Hev & Hcat).
      unfold getResourcesWithFinalizersPendingDeletion in Hrun. rewrite Hrun in Hev.
      simpl in Hev. subst ev. apply elem_of_cons in Hin as [[=] | Hin].
      apply (proj1 (Forall_forall _ _) Hcat) in Hin. destruct Hin.
    + exists resourceDiffs, err. split; [reflexivity|].
      rewrite (HG _ _ eq_refl) in Hgroup. exact Hgroup.
  - intros Hfilter.
    destruct (noNamespaceFilter lists) eqn:Hno;
      [apply noNamespaceFilter_spec in Hno; contradiction|].
    split; [reflexivity|].
    pose proof (forM_events E (scopedEvent namespaces)
                  (scopedNamespace E filterOpts opts) namespaces
                  (λ s x w' Hx, scopedNamespace_events E filterOpts opts namespaces s x w' Hx)
                  emptyReport w) as Hev.
    fold (scopedMode E filterOpts opts namespaces) in Hev.
    split; [|split].
    + intros gvr ns Hin. apply (proj1 (Forall_forall _ _) Hev) in Hin. exact Hin.
    + intros wf names ns rt ni Hin. apply (proj1 (Forall_forall _ _) Hev) in Hin. exact Hin.
    + intros st Hst.
      destruct (scopedMode E filterOpts opts namespaces w) as [[ev w'] o] eqn:Hrun.
      simpl in Hst. subst o.
      pose proof (scopedMode_trace E filterOpts opts _ _ _ _ _ _ Hrun) as Htrace.
      split; [exact Htrace|]. eapply scopedTrace_discoveryCalls. exact Htrace.
Qed.

(** What [GetUnusedfinalizers] writes after its scans and deletions: at most
    the line that reports an error of the formatter. *)
Lemma GetUnusedfinalizers_trace E filterOpts opts lists outputFormat w :
  ∃ tail,
    (GetUnusedfinalizers E filterOpts opts lists outputFormat w).1.1
    = (scanAndDelete E filterOpts opts lists w).1.1 ++ tail
    ∧ Forall (λ e, ∃ err, e = formatterDiagnostic err) tail
    ∧ ((∃ out, (GetUnusedfinalizers E filterOpts opts lists outputFormat w).2 = Returned out)
       ↔ ∃ st, (scanAndDelete E filterOpts opts lists w).2 = Returned st).
Proof.
  unfold GetUnusedfinalizers, bind.
  destruct (scanAndDelete E filterOpts opts lists w) as [[ev w'] [code | st]]; simpl.
  - exists []. rewrite app_nil_r. split; [reflexivity|]. split; [constructor|].
    split; intros [? [=]].
  - destruct (MarshalIndent E (response st)) as [json | err]; simpl.
    + destruct (unusedResourceFormatter E _ _ _ _) as [s [fe|]]; simpl.
      * exists [formatterDiagnostic fe]. split; [reflexivity|].
        split; [repeat constructor; eauto | split; eauto].
      * exists []. split; [reflexivity|]. split; [constructor | split; eauto].
    + exists []. split; [reflexivity|]. split; [constructor | split; eauto].
Qed.

(** C9 (as amended). [GetUnusedfinalizers] returns an error exactly when the
    encoding of the response into JSON fails, and it is that error, with an
    empty string.  When the encoding succeeds it returns the string that the
    formatter handed back and no error, also when the formatter fails: its
    error is only printed, and the text buffer is not returned in its
    place. *)
Theorem error_only_from_marshal (E : Env) (filterOpts : FilterOptions) (opts : Opts)
    (lists : IncludeExcludeLists) (outputFormat : string) (w : World E) :
  (∀ ev w' out e,
      GetUnusedfinalizers E filterOpts opts lists outputFormat w
      = (ev, w', Returned (out, Some e))
      ↔ ∃ st, scanAndDelete E filterOpts opts lists w = (ev, w', Returned st)
              ∧ MarshalIndent E (response st) = Err e ∧ out = "")
  ∧ (∀ ev w' st jsonResponse,
      scanAndDelete E filterOpts opts lists w = (ev, w', Returned st) →
      MarshalIndent E (response st) = Ok jsonResponse →
      let rendered :=
        unusedResourceFormatter E outputFormat (outputBuffer st) opts jsonResponse in
      GetUnusedfinalizers E filterOpts opts lists outputFormat w
      = (ev ++ match rendered.2 with
               | Some e => [formatterDiagnostic e]
               | None => []
               end,
         w', Returned (rendered.1, None))).
Proof.
  split.
  - intros ev w' out e. unfold GetUnusedfinalizers. rewrite bind_returned. split.
    + intros (e1 & w1 & st & e2 & Hscan & Hrest & ->).
      destruct (MarshalIndent E (response st)) as [json | err] eqn:Hm.
      * destruct (unusedResourceFormatter E _ _ _ _) as [s [fe|]];
          simpl in Hrest; injection Hrest; discriminate.
      * injection Hrest as <- <- <- <-. exists st. rewrite app_nil_r. auto.
    + intros (st & Hscan & Hm & ->). exists ev, w', st, []. rewrite Hm, app_nil_r. auto.
  - intros ev w' st json Hscan Hm rendered. subst rendered.
    unfold GetUnusedfinalizers, bind. rewrite Hscan, Hm.
    destruct (unusedResourceFormatter E _ _ _ _) as [s [fe|]]; reflexivity.
Qed.

(** C10. In global mode the response holds, of the result of the
    all-namespaces scan, the namespaces that are in the list resolved by
    [SetNamespaceList] and nothing else: a namespace outside that list is
    not a key of the response although the scan found pending objects in it,
    no delete helper is called for it, and no line on the error stream is
    about it (such a line reports that the scan returned an error or that a
    deletion failed in a namespace of the list). *)
Theorem global_report_within_namespaces (E : Env) (filterOpts : FilterOptions)
    (opts : Opts) (lists : IncludeExcludeLists) (w : World E)
    (resourceDiffs : NamespaceIndex) (err : option error) :
  noNamespaceFilter lists = true →
  let namespaces := SetNamespaceList E lists w in
  (getResourcesWithFinalizersPendingDeletion E w namespaces filterOpts).2
  = Returned (resourceDiffs, err) →
  ∃ ev w' st,
    scanAndDelete E filterOpts opts lists w = (ev, w', Returned st)
    ∧ (∀ ns, ns ∈ dom (response st) → ns ∈ namespaces)
    ∧ (∀ ns data, response st !! ns = Some data
                  ↔ resourceDiffs !! ns = Some data ∧ ns ∈ namespaces)
    ∧ (∀ ns, ns ∉ namespaces →
         response st !! ns = None
         ∧ ∀ wf names resourceType noInteractive,
             CallDelete wf names ns resourceType noInteractive ∉ ev)
    ∧ (∀ line, Stderr line ∈ ev →
         (∃ names ns e, Stderr line = deleteDiagnostic names ns e ∧ ns ∈ namespaces)
         ∨ (∃ e, Stderr line = scanDiagnostic e)).
Proof.
  intros Hno namespaces Hscan.
  rewrite scanAndDelete_run, Hno. fold namespaces.
  destruct (globalMode_returned E filterOpts opts namespaces w _ _ Hscan) as (st & Hst & Hresp).
  destruct (globalMode_trace E filterOpts opts namespaces w) as (G & Htrace & _).
  apply globalTrace_inv in Htrace as (_ & _ & Hdel & Herr & _).
  destruct (globalMode E filterOpts opts namespaces w) as [[ev w'] o]. simpl in *. subst o.
  exists ev, w', st. split; [reflexivity|]. split; [|split; [|split]].
  - intros ns Hin. apply elem_of_dom in Hin as [data Hdata].
    apply Hresp in Hdata. tauto.
  - exact Hresp.
  - intros ns Hns. split.
    + destruct (response st !! ns) as [data|] eqn:Hdata; [|reflexivity].
      apply Hresp in Hdata. tauto.
    + intros wf names rt ni Hin. apply Hdel in Hin. tauto.
  - exact Herr.
Qed.

(** ** Which namespaces are keys of the response *)

(** C4 (as amended). In scoped mode a namespace is a key of the response exactly
    when it is one of the resolved namespaces and its scan returned without an
    error, whether or not the scan found anything.  In global mode a
    namespace is a key exactly when it is one of the resolved namespaces and
    the all-namespaces scan recorded a pending object in it, so that its inner
    map is not empty.  In both modes no resource type is mapped to an empty
    list of names. *)
Theorem namespace_keys (E : Env) (filterOpts : FilterOptions) (opts : Opts)
    (lists : IncludeExcludeLists) (w : World E) (st : Report) :
  (scanAndDelete E filterOpts opts lists w).2 = Returned st →
  let namespaces := SetNamespaceList E lists w in
  (noNamespaceFilter lists = false →
     ∀ ns, ns ∈ dom (response st)
           ↔ scannedWithoutError E filterOpts opts namespaces emptyReport w ns)
  ∧ (noNamespaceFilter lists = true →
     ∃ resourceDiffs err,
       (getResourcesWithFinalizersPendingDeletion E w namespaces filterOpts).2
       = Returned (resourceDiffs, err)
       ∧ (∀ ns, ns ∈ dom (response st)
                ↔ ns ∈ namespaces
                  ∧ ∃ resourceType name, namespaceEntry resourceDiffs (ns, resourceType, name))
       ∧ (∀ ns inner, response st !! ns = Some inner → inner ≠ ∅))
  ∧ (∀ ns inner resourceType names,
       response st !! ns = Some inner → inner !! resourceType = Some names → names ≠ []).
Proof.
  intros Hrun namespaces. rewrite scanAndDelete_run in Hrun. fold namespaces in Hrun.
  destruct (noNamespaceFilter lists) eqn:Hno.
  - split; [discriminate|].
    assert (Hglobal : ∃ resourceDiffs err,
               (getResourcesWithFinalizersPendingDeletion E w namespaces filterOpts).2
               = Returned (resourceDiffs, err)).
    { unfold globalMode, bind, observe in Hrun.
      destruct (getResourcesWithFinalizersPendingDeletion E w namespaces filterOpts)
        as [ev [code | [rd err]]]; [discriminate | simpl; eauto]. }
    destruct Hglobal as (rd & err & Hscan).
    destruct (globalMode_returned E filterOpts opts namespaces w _ _ Hscan) as (st' & Hst & Hresp).
    rewrite Hrun in Hst. injection Hst as <-.
    pose proof (global_nonEmpty _ _ _ _ _ _ Hscan) as Hne.
    split.
    + intros _. exists rd, err. split; [exact Hscan|]. split.
      * intros ns. rewrite elem_of_dom. split.
        -- intros [data Hdata]. apply Hresp in Hdata as [Hdata Hns]. split; [exact Hns|].
           destruct (Hne _ _ Hdata) as [Hinner Hlists].
           apply map_choose in Hinner as (rt & names & Hnames).
           pose proof (Hlists _ _ Hnames) as Hnil.
           destruct names as [|n names]; [done|].
           exists rt, n, data. split; [exact Hdata|]. exists (n :: names).
           split; [exact Hnames | left].
        -- intros (Hns & rt & n & data & Hdata & _). exists data. apply Hresp. auto.
      * intros ns inner Hinner. apply Hresp in Hinner as [Hinner _].
        apply (Hne _ _ Hinner).
    + intros ns inner rt names Hinner. apply Hresp in Hinner as [Hinner _].
      apply (Hne _ _ Hinner).
  - unfold scopedMode in Hrun.
    destruct (forM (scopedNamespace E filterOpts opts) namespaces emptyReport w)
      as [[ev w'] o] eqn:Hloop. simpl in Hrun. subst o.
    split; [|split; [discriminate|]].
    + intros _ ns. rewrite elem_of_dom.
      rewrite (scopedMode_keys E filterOpts opts _ _ _ _ _ _ Hloop ns). simpl.
      rewrite lookup_empty. split; [|tauto]. intros [[? [=]] | H]; exact H.
    + intros ns inner rt names Hinner.
      eapply (scopedMode_nonEmpty E filterOpts opts _ _ _ _ _ _ Hloop); [|exact Hinner].
      intros ? ? H. simpl in H. rewrite lookup_empty in H. discriminate.
Qed.

(** ** The demo cluster *)

Lemma demo_inScope resource ns o :
  ns ≠ NamespaceAll →
  Demo.inScope resource NamespaceAll o = bool_decide (o.1 = resource)
  ∧ Demo.inScope resource ns o
    = bool_decide (o.1 = resource) && bool_decide (GetNamespace o.2 = ns).
Proof.
  intros Hne. unfold Demo.inScope.
  rewrite (bool_decide_eq_false_2 _ Hne).
  rewrite (bool_decide_eq_true_2 (NamespaceAll = NamespaceAll)) by reflexivity.
  simpl. rewrite andb_true_r. split; reflexivity.
Qed.

Lemma demo_namespaceConsistent encode (c : Demo.Cluster) namespaces :
  NamespaceAll ∉ namespaces → namespaceConsistent (Demo.env encode) c namespaces.
Proof.
  intros Hall gvr ns Hns. simpl. unfold Demo.listObjects.
  destruct (Contains (Demo.forbidden c) (GVRResource gvr)); [reflexivity|].
  f_equal. assert (Hne : ns ≠ NamespaceAll) by (intros ->; contradiction).
  induction (Demo.objects c) as [|o objs IH]; [reflexivity|].
  destruct (demo_inScope (GVRResource gvr) ns o Hne) as [Hall' Hscoped].
  rewrite !filter_cons, Hall', Hscoped.
  destruct (bool_decide (o.1 = GVRResource gvr)); simpl.
  - rewrite filter_cons. destruct (decide (GetNamespace o.2 = ns)) as [Hns' | Hns'].
    + rewrite (bool_decide_eq_true_2 _ Hns'). simpl. f_equal. exact IH.
    + rewrite (bool_decide_eq_false_2 _ Hns'). simpl. exact IH.
  - exact IH.
Qed.

Lemma demo_coversAllNamespaces encode (c : Demo.Cluster) namespaces :
  Forall (λ o, GetNamespace o.2 ∈ namespaces) (Demo.objects c) →
  coversAllNamespaces (Demo.env encode) c namespaces.
Proof.
  intros Hobjs gvr items item. simpl. unfold Demo.listObjects.
  destruct (Contains _ _); [discriminate|]. intros [= <-] Hin.
  apply list_elem_of_fmap in Hin as (o & -> & Hin).
  apply list_elem_of_filter in Hin as [_ Hin].
  apply (proj1 (Forall_forall _ _) Hobjs). exact Hin.
Qed.

(** ** Runs on the demo cluster *)

(** The report of the spec's first scenario: [cm-a] is stuck in [default];
    the object marked as used and the one without a deletion timestamp are
    not reported. *)
Example report_only_default :
  (scanAndDelete (Demo.env Demo.marshal) Demo.noFilter Demo.reportOnly
                 Demo.onlyDefault Demo.cluster).2
  = Returned {| outputBuffer := "default: configmaps[cm-a]" +:+ newline;
                response := {[ "default" := {[ "configmaps" := ["cm-a"] ]} ]} |}.
Proof. vm_compute. reflexivity. Qed.

(** Witness of C3 on the demo cluster: the entry that the global scan reports
    for [cm-a] is reported by the scoped scans. *)
Lemma global_scoped_same_pending_witness :
  pendingScoped (Demo.env Demo.marshal) Demo.cluster
                ["default"; "kube-system"; "staging"] Demo.noFilter
                ("default", "configmaps", "cm-a").
Proof.
  apply (global_scoped_same_pending (Demo.env Demo.marshal) Demo.cluster
           ["default"; "kube-system"; "staging"] Demo.noFilter).
  - apply demo_namespaceConsistent. unfold NamespaceAll.
    rewrite !not_elem_of_cons. repeat split; try discriminate. apply not_elem_of_nil.
  - apply demo_coversAllNamespaces. simpl.
    repeat constructor; simpl; rewrite !elem_of_cons; auto.
  - exists {[ "default" := {[ "configmaps" := ["cm-a"] ]};
              "kube-system" := {[ "secrets" := ["sec-b"] ]};
              "staging" := {[ "deployments" := ["dep-c"] ]} ]}, None.
    split; [vm_compute; reflexivity|].
    exists {[ "configmaps" := ["cm-a"] ]}. split; [vm_compute; reflexivity|].
    exists ["cm-a"]. split; [vm_compute; reflexivity | left].
Defined.

(** Witness of C7: listing secrets is refused; the global scan carries on as
    if the catalog had no secrets. *)
Lemma list_failure_skips_type_witness :
  ∃ e1 e2 r,
    getResourcesWithFinalizersPendingDeletion (Demo.env Demo.marshal) Demo.restricted
      [] Demo.noFilter
    = (CallDiscovery :: e1
         ++ [CallList {| GVRGroup := ""; GVRVersion := "v1"; GVRResource := "secrets" |}
                      NamespaceAll;
             listDiagnostic "v1" "forbidden"]
         ++ e2, Returned r)
    ∧ scanCatalog (Demo.env Demo.marshal) NamespaceAll pendingChecked recordGlobal
        Demo.restricted Demo.noFilter
        [withoutType Demo.coreV1 [Demo.configmaps] [Demo.nodes]; Demo.appsV1] ∅
      = (e1 ++ e2, r).
Proof.
  pose proof (list_failure_skips_type (Demo.env Demo.marshal) Demo.restricted Demo.noFilter
                [] [Demo.appsV1] Demo.coreV1 [Demo.configmaps] [Demo.nodes] Demo.secrets
                {| Group := ""; Version := "v1" |}
                eq_refl (Forall_nil_2 _) eq_refl eq_refl (conj eq_refl eq_refl)) as H.
  cbv zeta in H. destruct H as [H _]. exact (H "forbidden" [] eq_refl).
Defined.

(** Witness of C8: an unreachable catalog ends the run with exit code 1 before
    anything is listed or deleted; a malformed group/version makes the scan
    return the error with what the groups before it gave. *)
Lemma discovery_failure_exits_parse_error_returns_witness :
  GetUnusedfinalizers (Demo.env Demo.marshal) Demo.noFilter Demo.deleteAll Demo.noLists
                      "json" Demo.unreachable
  = ([CallDiscovery; discoveryDiagnostic "connection refused"], Demo.unreachable, Exited 1)
  ∧ ∃ ev m,
      getResourcesWithFinalizersPendingDeletion (Demo.env Demo.marshal) Demo.garbled
        [] Demo.noFilter
      = (CallDiscovery :: ev, Returned (m, Some "unexpected GroupVersion string: a/b/c"))
      ∧ scanCatalog (Demo.env Demo.marshal) NamespaceAll pendingChecked recordGlobal
          Demo.garbled Demo.noFilter [Demo.coreV1] ∅
        = (ev, (m, None)).
Proof.
  split.
  - apply (discovery_failure_exits_parse_error_returns (Demo.env Demo.marshal)
             Demo.unreachable Demo.noFilter).
    + reflexivity.
    + left. reflexivity.
  - apply (proj2 (discovery_failure_exits_parse_error_returns (Demo.env Demo.marshal)
                    Demo.garbled Demo.noFilter)
             [Demo.coreV1] Demo.malformed [Demo.appsV1]).
    + reflexivity.
    + repeat constructor. exists {| Group := ""; Version := "v1" |}. reflexivity.
    + reflexivity.
Defined.

(** Witness of C9 (as amended): with an encoder that fails the run returns its
    error; with a formatter that fails, on a report that is not empty, the run
    prints the error and returns what the formatter handed back. *)
Lemma error_only_from_marshal_witness :
  (GetUnusedfinalizers (Demo.env Demo.refuse) Demo.noFilter Demo.reportOnly Demo.noLists
                       "json" Demo.cluster).2
  = Returned ("", Some "json: unsupported value")
  ∧ (GetUnusedfinalizers (Demo.custom Demo.listObjects Demo.failing Demo.marshal)
       Demo.noFilter Demo.reportOnly Demo.noLists "table" Demo.cluster).2
    = Returned ("", None).
Proof.
  pose (E := Demo.env Demo.refuse).
  pose (run := scanAndDelete E Demo.noFilter Demo.reportOnly Demo.noLists Demo.cluster).
  pose (E' := Demo.custom Demo.listObjects Demo.failing Demo.marshal).
  pose (run' := scanAndDelete E' Demo.noFilter Demo.reportOnly Demo.noLists Demo.cluster).
  pose (st' := Demo.returned run'.2 emptyReport).
  pose (json := match MarshalIndent E' (response st') with Ok j => j | Err _ => "" end).
  split.
  - assert (H : GetUnusedfinalizers E Demo.noFilter Demo.reportOnly Demo.noLists
                  "json" Demo.cluster
                = (run.1.1, run.1.2, Returned ("", Some "json: unsupported value"))).
    { apply (proj1 (error_only_from_marshal E Demo.noFilter Demo.reportOnly
                      Demo.noLists "json" Demo.cluster)).
      exists (Demo.returned run.2 emptyReport).
      split; [vm_compute; reflexivity | split; reflexivity]. }
    fold E. rewrite H. reflexivity.
  - assert (H : GetUnusedfinalizers E' Demo.noFilter Demo.reportOnly Demo.noLists
                  "table" Demo.cluster
                = (run'.1.1 ++ [formatterDiagnostic "render: failed"],
                   run'.1.2, Returned ("", None))).
    { apply (proj2 (error_only_from_marshal E' Demo.noFilter Demo.reportOnly
                      Demo.noLists "table" Demo.cluster)
               run'.1.1 run'.1.2 st' json);
        vm_compute; reflexivity. }
    fold E'. rewrite H. reflexivity.
Defined.

(** Witness of C10: [staging] is not among the resolved namespaces; the scan
    finds [dep-c] there, and the response has no key [staging]. *)
Lemma global_report_within_namespaces_witness :
  ∃ st,
    (scanAndDelete (Demo.env Demo.marshal) Demo.noFilter Demo.deleteAll Demo.noLists
                   Demo.partial).2 = Returned st
    ∧ response st !! "staging" = None
    ∧ response st !! "default" = Some {[ "configmaps" := ["cm-a"] ]}.
Proof.
  assert (Hstaging : "staging" ∉ ["default"; "kube-system"]).
  { rewrite !not_elem_of_cons. repeat split; try discriminate. apply not_elem_of_nil. }
  assert (Hdefault : "default" ∈ ["default"; "kube-system"]) by left.
  set (E := Demo.env Demo.marshal).
  assert (Hns : SetNamespaceList E Demo.noLists Demo.partial = ["default"; "kube-system"])
    by (vm_compute; reflexivity).
  assert (Hscan :
    (getResourcesWithFinalizersPendingDeletion E Demo.partial
       (SetNamespaceList E Demo.noLists Demo.partial) Demo.noFilter).2
    = Returned ({[ "default" := {[ "configmaps" := ["cm-a"] ]};
                   "kube-system" := {[ "secrets" := ["sec-b"] ]};
                   "staging" := {[ "deployments" := ["dep-c"] ]} ]}, None))
    by (vm_compute; reflexivity).
  destruct (global_report_within_namespaces E Demo.noFilter Demo.deleteAll Demo.noLists
              Demo.partial _ _ eq_refl Hscan)
    as (ev & w' & st & Hrun & _ & Hin & Hout & _).
  rewrite Hns in Hin, Hout.
  exists st. rewrite Hrun. split; [reflexivity|]. split.
  - apply Hout. exact Hstaging.
  - apply Hin. split; [vm_compute; reflexivity | exact Hdefault].
Defined.

(** In global mode the response does not depend on the deletion options: what
    the delete helper hands back never reaches it. *)
Lemma global_response_ignores_delete E filterOpts opts opts' namespaces w st st' :
  (globalMode E filterOpts opts namespaces w).2 = Returned st →
  (globalMode E filterOpts opts' namespaces w).2 = Returned st' →
  response st = response st'.
Proof.
  intros Hst Hst'.
  assert (Hscan : ∃ resourceDiffs err,
             (getResourcesWithFinalizersPendingDeletion E w namespaces filterOpts).2
             = Returned (resourceDiffs, err)).
  { unfold globalMode, bind, observe in Hst.
    destruct (getResourcesWithFinalizersPendingDeletion E w namespaces filterOpts)
      as [ev [code | [rd err]]]; [discriminate | simpl; eauto]. }
  destruct Hscan as (rd & err & Hscan).
  destruct (globalMode_returned E filterOpts opts namespaces w _ _ Hscan) as (s1 & H1 & Hr1).
  destruct (globalMode_returned E filterOpts opts' namespaces w _ _ Hscan) as (s2 & H2 & Hr2).
  rewrite Hst in H1. rewrite Hst' in H2. injection H1 as <-. injection H2 as <-.
  apply map_eq. intros ns. apply option_eq. intros data. rewrite Hr1, Hr2. reflexivity.
Qed.

(** C2. The delete flag is set, the run is not interactive and the delete
    helper succeeds for [cm-a]: it is called, it hands back no name, [cm-a] is
    gone from the cluster, and the report still lists [cm-a], in scoped mode
    and in global mode alike. *)
Theorem deleted_names_stay_in_report :
  let E := Demo.env Demo.marshal in
  let scoped :=
    GetUnusedfinalizers E Demo.noFilter Demo.deleteAll Demo.onlyDefault "json" Demo.cluster in
  let global :=
    GetUnusedfinalizers E Demo.noFilter Demo.deleteAll Demo.noLists "json" Demo.cluster in
  DeleteResource E ["cm-a"] "default" "configmaps" true Demo.cluster
  = (([], None), Demo.afterDelete)
  ∧ CallDelete false ["cm-a"] "default" "configmaps" true ∈ scoped.1.1
  ∧ scoped.1.2 = Demo.afterDelete
  ∧ scoped.2 = Returned ("{default:{configmaps:[cm-a]}}", None)
  ∧ (scanAndDelete E Demo.noFilter Demo.deleteAll Demo.onlyDefault Demo.cluster).2
    = (scanAndDelete E Demo.noFilter Demo.reportOnly Demo.onlyDefault Demo.cluster).2
  ∧ CallDelete true ["cm-a"] "default" "configmaps" true ∈ global.1.1
  ∧ Forall (λ o, GetName o.2 ≠ "cm-a") (Demo.objects global.1.2)
  ∧ global.2
    = Returned ("{kube-system:{secrets:[sec-b]},staging:{deployments:[dep-c]},"
                +:+ "default:{configmaps:[cm-a]}}", None).
Proof.
  cbv zeta.
  split; [vm_compute; reflexivity|].
  split; [vm_compute; repeat constructor|].
  split; [vm_compute; reflexivity|].
  split; [vm_compute; reflexivity|].
  split; [vm_compute; reflexivity|].
  split; [vm_compute; repeat constructor|].
  split; [vm_compute; repeat constructor; intros [=] | vm_compute; reflexivity].
Qed.

(** C4 as it is stated fails.  In global mode, on a cluster where nothing is
    stuck, [default] is a resolved namespace and the all-namespaces list calls
    cover it, yet it is not a key of the response.  In scoped mode, when a
    group/version of the catalog does not parse, the resource types of the
    groups before it are listed in [default], and [default] is not a key of
    the response either. *)
Lemma namespace_key_counterexample :
  let E := Demo.env Demo.marshal in
  let global := scanAndDelete E Demo.noFilter Demo.reportOnly Demo.noLists Demo.quiet in
  let scoped := scanAndDelete E Demo.noFilter Demo.reportOnly Demo.onlyDefault Demo.garbled in
  (global.2 = Returned emptyReport
   ∧ "default" ∈ SetNamespaceList E Demo.noLists Demo.quiet
   ∧ typeScannedUnder global.1.1 "default"
   ∧ "default" ∉ dom (response emptyReport))
  ∧ (scoped.2 = Returned emptyReport
     ∧ "default" ∈ SetNamespaceList E Demo.onlyDefault Demo.garbled
     ∧ typeScannedUnder scoped.1.1 "default").
Proof.
  cbv zeta. split.
  - split; [vm_compute; reflexivity|]. split; [vm_compute; left|]. split.
    + exists {| GVRGroup := ""; GVRVersion := "v1"; GVRResource := "configmaps" |},
             NamespaceAll.
      split; [vm_compute; repeat constructor | right; reflexivity].
    + simpl. rewrite dom_empty_L. apply not_elem_of_empty.
  - split; [vm_compute; reflexivity|]. split; [vm_compute; left|].
    exists {| GVRGroup := ""; GVRVersion := "v1"; GVRResource := "configmaps" |}, "default".
    split; [vm_compute; repeat constructor | left; reflexivity].
Qed.

(** Witness of C4 as amended: in scoped mode the namespace [vacant], which
    holds nothing, is a key of the response, mapped to an empty map. *)
Lemma namespace_keys_witness :
  let run :=
    scanAndDelete (Demo.env Demo.marshal) Demo.noFilter Demo.reportOnly
                  Demo.defaultAndVacant Demo.cluster in
  "vacant" ∈ dom (response (Demo.returned run.2 emptyReport))
  ∧ response (Demo.returned run.2 emptyReport) !! "vacant" = Some ∅.
Proof.
  cbv zeta. split; [|vm_compute; reflexivity].
  set (E := Demo.env Demo.marshal).
  pose (first := forM (scopedNamespace E Demo.noFilter Demo.reportOnly) ["default"]
                      emptyReport Demo.cluster).
  apply (proj1 (namespace_keys E Demo.noFilter Demo.reportOnly Demo.defaultAndVacant
                  Demo.cluster _ ltac:(vm_compute; reflexivity)) eq_refl "vacant").
  exists ["default"], [], first.1.1, first.1.2, (Demo.returned first.2 emptyReport), ∅.
  split; [vm_compute; reflexivity|]. split; vm_compute; reflexivity.
Defined.

(** C3 as it is stated fails.  The caller may list inside a namespace and not
    across namespaces, so the all-namespaces list calls are refused.  The
    namespaces scanned one by one are all the namespaces of the cluster, the
    scan of [default] reports [cm-a], and the global scan, which prints the
    refusals and carries on, returns an empty index without an error. *)
Lemma global_scoped_same_pending_counterexample :
  let E := Demo.custom Demo.listNamespaced Demo.formatter Demo.marshal in
  let namespaces := Demo.namespaceNames Demo.cluster in
  let entry := ("default", "configmaps", "cm-a") in
  Forall (λ o, GetNamespace o.2 ∈ namespaces) (Demo.objects Demo.cluster)
  ∧ coversAllNamespaces E Demo.cluster namespaces
  ∧ (getResourcesWithFinalizersPendingDeletion E Demo.cluster namespaces Demo.noFilter).2
    = Returned (∅, None)
  ∧ pendingScoped E Demo.cluster namespaces Demo.noFilter entry
  ∧ ¬ pendingGlobal E Demo.cluster namespaces Demo.noFilter entry.
Proof.
  cbv zeta.
  set (E := Demo.custom Demo.listNamespaced Demo.formatter Demo.marshal).
  assert (Hglobal :
    (getResourcesWithFinalizersPendingDeletion E Demo.cluster
       (Demo.namespaceNames Demo.cluster) Demo.noFilter).2 = Returned (∅, None))
    by (vm_compute; reflexivity).
  split; [|split; [|split; [exact Hglobal|split]]].
  - vm_compute. repeat constructor.
  - intros gvr items item Hlist. simpl in Hlist. discriminate Hlist.
  - split; [left|].
    exists {[ "configmaps" := ["cm-a"] ]}, None. split; [vm_compute; reflexivity|].
    exists ["cm-a"]. split; [vm_compute; reflexivity | left].
  - intros (m & err & Hscan & inner & Hinner & _).
    rewrite Hglobal in Hscan. injection Hscan as <- _.
    simpl in Hinner. rewrite lookup_empty in Hinner. discriminate Hinner.
Qed.

(** C9 as it is stated fails.  The formatter fails on a report whose text
    buffer and whose JSON encoding are both there: the run prints the error of
    the formatter and returns the empty string that the formatter handed back,
    with no error; the buffer is not returned. *)
Lemma error_only_from_marshal_counterexample :
  let E := Demo.custom Demo.listObjects Demo.failing Demo.marshal in
  let scans := scanAndDelete E Demo.noFilter Demo.reportOnly Demo.onlyDefault Demo.cluster in
  let st := Demo.returned scans.2 emptyReport in
  let run :=
    GetUnusedfinalizers E Demo.noFilter Demo.reportOnly Demo.onlyDefault "table"
      Demo.cluster in
  scans.2 = Returned st
  ∧ outputBuffer st ≠ ""
  ∧ (∃ json, MarshalIndent E (response st) = Ok json ∧ json ≠ "")
  ∧ run.2 = Returned ("", None)
  ∧ last run.1.1 = Some (formatterDiagnostic "render: failed").
Proof.
  cbv zeta. split; [vm_compute; reflexivity|].
  split; [vm_compute; discriminate|]. split.
  - eexists. split; [vm_compute; reflexivity | discriminate].
  - split; vm_compute; reflexivity.
Qed.

(** ** The earlier revision *)

Lemma forEach_ext {X S : Type} (f g : S → X → list Event * S) xs :
  (∀ s x, f s x = g s x) → ∀ s, forEach f xs s = forEach g xs s.
Proof.
  intros Hfg. induction xs as [|x xs IH]; intros s; [reflexivity|].
  cbn. rewrite Hfg. destruct (g s x) as [e1 s1]. rewrite IH. reflexivity.
Qed.

Lemma scan_ext (E : Env) {A : Type} scope p q (record : A → string → Unstructured → A)
    w filterOpts empty :
  (∀ item, p item = q item) →
  scan E scope p record w filterOpts empty = scan E scope q record w filterOpts empty.
Proof.
  intros Hpq. unfold scan. destruct (ServerPreferredResources E w) as [rts|e]; [|reflexivity].
  assert (Hcat : ∀ acc, scanCatalog E scope p record w filterOpts rts acc
                        = scanCatalog E scope q record w filterOpts rts acc).
  { induction rts as [|g rest IH]; intros acc; [reflexivity|].
    cbn. destruct (ParseGroupVersion E (GroupVersionStr g)) as [gv|e]; [|reflexivity].
    rewrite (forEach_ext (scanResource E scope p record w filterOpts (GroupVersionStr g) gv)
                         (scanResource E scope q record w filterOpts (GroupVersionStr g) gv)).
    - destruct (forEach _ _ _) as [e1 acc1]. rewrite IH. reflexivity.
    - intros s r. unfold scanResource.
      destruct (Namespaced r && Contains (Verbs r) "list"); [|reflexivity].
      destruct (DynamicList E w _ scope) as [items|e]; [|reflexivity].
      rewrite (forEach_ext (scanItem E p record filterOpts (Name r))
                           (scanItem E q record filterOpts (Name r))); [reflexivity|].
      intros s' item. unfold scanItem. rewrite Hpq. reflexivity. }
  rewrite Hcat. reflexivity.
Qed.

Lemma pendingInline_checked item : pendingInline item = pendingChecked item.
Proof.
  unfold pendingInline, pendingChecked, CheckFinalizers.
  destruct (_ && _); reflexivity.
Qed.

(** X1. The scan of the earlier revision and the namespaced scan of the later
    one are the same function: on every cluster, namespace and filter they
    write the same trace and end in the same way, with the same index and the
    same error.  Moving the pending test into [CheckFinalizers] changed
    nothing. *)
Theorem previous_scan_same_as_namespaced (E : Env) (w : World E) (namespace : string)
    (filterOpts : FilterOptions) :
  Previous.getResourcesWithFinalizersPendingDeletion E w namespace filterOpts
  = getNamespacedResourcesWithFinalizersPendingDeletion E w namespace filterOpts.
Proof. apply scan_ext, pendingInline_checked. Qed.

Lemma forM_ext {E : Env} {X S : Type} (f g : S → X → M E S) xs :
  (∀ s x w, f s x w = g s x w) → ∀ s w, forM f xs s w = forM g xs s w.
Proof.
  intros Hfg. induction xs as [|x xs IH]; intros s w; [reflexivity|].
  cbn. unfold bind. rewrite Hfg. destruct (g s x w) as [[e1 w1] [c|s1]]; [reflexivity|].
  rewrite IH. reflexivity.
Qed.

Lemma scanNamespace_scopedNamespace E filterOpts opts st namespace w :
  PreviousDriver.scanNamespace E filterOpts opts st namespace w
  = scopedNamespace E filterOpts opts st namespace w.
Proof.
  unfold PreviousDriver.scanNamespace, scopedNamespace, bind, observe.
  unfold Previous.getResourcesWithFinalizersPendingDeletion,
    getNamespacedResourcesWithFinalizersPendingDeletion.
  rewrite (scan_ext E namespace pendingInline pendingChecked) by apply pendingInline_checked.
  reflexivity.
Qed.

(** X2. When the include list or the exclude list is not empty, the earlier
    revision of [GetUnusedfinalizers] and the later one do the same: same
    trace, same cluster left behind, same outcome. *)
Theorem previous_driver_same_as_scoped_mode (E : Env) (filterOpts : FilterOptions)
    (opts : Opts) (lists : IncludeExcludeLists) (outputFormat : string) (w : World E) :
  noNamespaceFilter lists = false →
  PreviousDriver.GetUnusedfinalizers E filterOpts opts lists outputFormat w
  = GetUnusedfinalizers E filterOpts opts lists outputFormat w.
Proof.
  intros Hmode.
  unfold PreviousDriver.GetUnusedfinalizers, GetUnusedfinalizers, scanAndDelete.
  rewrite Hmode. unfold scopedMode, bind, ask.
  rewrite (forM_ext (PreviousDriver.scanNamespace E filterOpts opts)
                    (scopedNamespace E filterOpts opts))
    by apply scanNamespace_scopedNamespace.
  destruct (forM _ _ _ _) as [[e1 w1] [c|st]]; [reflexivity|].
  cbn [app].
  destruct (MarshalIndent E (response st)) as [json|e]; [|reflexivity].
  destruct (unusedResourceFormatter E outputFormat (outputBuffer st) opts json) as [s err].
  destruct (reportErr E err formatterDiagnostic w1) as [[e2 w2] [c|[]]]; reflexivity.
Qed.

(** ** Runs that do not delete *)

Lemma deleteCalls_app ev1 ev2 : deleteCalls (ev1 ++ ev2) = deleteCalls ev1 ++ deleteCalls ev2.
Proof. apply omap_app. Qed.

Lemma deleteCalls_catalog scope ev : Forall (catalogEvent scope) ev → deleteCalls ev = [].
Proof.
  induction 1 as [|e ev He _ IH]; [reflexivity|].
  destruct e; try (exact IH); destruct He.
Qed.

Lemma deleteCalls_scan (E : Env) {A : Type} scope isPending
    (record : A → string → Unstructured → A) w filterOpts empty :
  deleteCalls (scan E scope isPending record w filterOpts empty).1 = [].
Proof.
  destruct (scan_events E scope isPending record w filterOpts empty) as (ev & -> & Hev).
  exact (deleteCalls_catalog scope ev Hev).
Qed.

Section DeletesNothing.
Context (E : Env).

Lemma bind_deletes_nothing {A B : Type} (m : M E A) (f : A → M E B) w :
  (m w).1.2 = w ∧ deleteCalls (m w).1.1 = [] →
  (∀ a, (f a w).1.2 = w ∧ deleteCalls (f a w).1.1 = []) →
  (bind m f w).1.2 = w ∧ deleteCalls (bind m f w).1.1 = [].
Proof.
  unfold bind. destruct (m w) as [[e1 w1] [c|a]]; cbn [fst snd]; intros [-> He1] Hf; [done|].
  specialize (Hf a). destruct (f a w) as [[e2 w2] o2]. cbn [fst snd] in *.
  rewrite deleteCalls_app, He1. exact Hf.
Qed.

Lemma forM_deletes_nothing {X S : Type} (body : S → X → M E S) xs :
  (∀ s x w, (body s x w).1.2 = w ∧ deleteCalls (body s x w).1.1 = []) →
  ∀ s w, (forM body xs s w).1.2 = w ∧ deleteCalls (forM body xs s w).1.1 = [].
Proof.
  intros Hbody. induction xs as [|x xs IH]; intros s w; [done|].
  cbn. apply bind_deletes_nothing; [apply Hbody|]. intros a. apply IH.
Qed.

Lemma scanAndDelete_deletes_nothing filterOpts opts lists w :
  DeleteFlag opts = false →
  (scanAndDelete E filterOpts opts lists w).1.2 = w
  ∧ deleteCalls (scanAndDelete E filterOpts opts lists w).1.1 = [].
Proof.
  intros Hflag.
  assert (Hgroups : ∀ wf ns groups w0,
             (forM (deleteGroup E opts wf ns) groups tt w0).1.2 = w0
             ∧ deleteCalls (forM (deleteGroup E opts wf ns) groups tt w0).1.1 = []).
  { intros wf ns groups w0. apply forM_deletes_nothing.
    intros [] [rt names] w1. unfold deleteGroup. rewrite Hflag. done. }
  rewrite scanAndDelete_run. destruct (noNamespaceFilter lists).
  - unfold globalMode. apply bind_deletes_nothing.
    + unfold observe, getResourcesWithFinalizersPendingDeletion.
      pose proof (deleteCalls_scan E NamespaceAll pendingChecked recordGlobal w filterOpts ∅) as H.
      destruct (scan _ _ _ _ _ _ _) as [ev o]. done.
    + intros [resourceDiffs err]. apply bind_deletes_nothing.
      { destruct err; done. }
      intros _. apply bind_deletes_nothing; [done|]. intros entries.
      apply forM_deletes_nothing. intros st [ns data] w0. unfold globalNamespace.
      destruct (Contains _ ns); [|done].
      apply bind_deletes_nothing; [done|]. intros groups.
      apply bind_deletes_nothing; [apply Hgroups|]. done.
  - unfold scopedMode. apply forM_deletes_nothing. intros st ns w0.
    unfold scopedNamespace. apply bind_deletes_nothing.
    + unfold observe, getNamespacedResourcesWithFinalizersPendingDeletion.
      pose proof (deleteCalls_scan E ns pendingChecked recordScoped w0 filterOpts ∅) as H.
      destruct (scan _ _ _ _ _ _ _) as [ev o]. done.
    + intros [resourceDiffs [e|]].
      { apply bind_deletes_nothing; done. }
      apply bind_deletes_nothing; [done|]. intros groups.
      apply bind_deletes_nothing; [apply Hgroups|]. done.
Qed.
End DeletesNothing.

(** X3. Without the delete flag [GetUnusedfinalizers] calls no delete helper
    and leaves the cluster as it found it, in both modes and however the run
    ends. *)
Theorem report_only_run_deletes_nothing (E : Env) (filterOpts : FilterOptions)
    (opts : Opts) (lists : IncludeExcludeLists) (outputFormat : string) (w : World E) :
  DeleteFlag opts = false →
  (GetUnusedfinalizers E filterOpts opts lists outputFormat w).1.2 = w
  ∧ deleteCalls (GetUnusedfinalizers E filterOpts opts lists outputFormat w).1.1 = [].
Proof.
  intros Hflag. unfold GetUnusedfinalizers. apply bind_deletes_nothing.
  - apply scanAndDelete_deletes_nothing, Hflag.
  - intros st. destruct (MarshalIndent E (response st)) as [json|e]; [|done].
    destruct (unusedResourceFormatter E outputFormat (outputBuffer st) opts json) as [s [e|]];
      done.
Qed.

(** ** The error of a scan *)

Section ParseErrors.
Context (E : Env) {A : Type}.
Variable scope : string.
Variable isPending : Unstructured → bool.
Variable record : A → string → Unstructured → A.
Variable w : World E.
Variable filterOpts : FilterOptions.

Lemma scanCatalog_error resourceTypes :
  ∀ acc,
    ((scanCatalog E scope isPending record w filterOpts resourceTypes acc).2.2 = None
     ↔ parses E resourceTypes)
    ∧ ∀ err,
        (scanCatalog E scope isPending record w filterOpts resourceTypes acc).2.2 = Some err
        ↔ firstParseFailure E resourceTypes err.
Proof.
  induction resourceTypes as [|g rest IH]; intros acc.
  - split; [split; [constructor|reflexivity]|].
    intros err. split; [discriminate|]. intros (before & group & after & H & _).
    by destruct before.
  - cbn. destruct (ParseGroupVersion E (GroupVersionStr g)) as [gv|e0] eqn:Hg.
    + destruct (forEach _ (APIResources g) acc) as [e1 acc1].
      specialize (IH acc1). destruct (scanCatalog _ _ _ _ _ _ rest acc1) as [e2 r].
      cbn in *. destruct IH as [IHn IHs]. split.
      * rewrite IHn. unfold parses. rewrite Forall_cons. split; [|tauto].
        intros H. split; [by exists gv|exact H].
      * intros err. rewrite IHs. split.
        -- intros (before & group & after & -> & Hb & He).
           exists (g :: before), group, after. split; [reflexivity|]. split; [|exact He].
           constructor; [by exists gv|exact Hb].
        -- intros (before & group & after & Heq & Hb & He).
           destruct before as [|g' before]; cbn in Heq; injection Heq as -> ->.
           { rewrite Hg in He. discriminate. }
           apply Forall_cons in Hb as [_ Hb]. by exists before, group, after.
    + cbn. split.
      * split; [discriminate|]. intros [[gv Hgv] _]%Forall_cons.
        rewrite Hg in Hgv. discriminate.
      * intros err. split.
        -- intros [= <-]. exists [], g, rest. split; [reflexivity|]. split; [constructor|exact Hg].
        -- intros (before & group & after & Heq & Hb & He).
           destruct before as [|g' before]; cbn in Heq; injection Heq as -> ->.
           { rewrite Hg in He. congruence. }
           apply Forall_cons in Hb as [[gv Hgv] _]. rewrite Hg in Hgv. discriminate.
Qed.
End ParseErrors.

Lemma scan_errors_agree (E : Env) (w : World E) (filterOpts : FilterOptions)
    (namespaces : list string) (namespace : string) global scoped err1 err2 :
  (getResourcesWithFinalizersPendingDeletion E w namespaces filterOpts).2
  = Returned (global, err1) →
  (getNamespacedResourcesWithFinalizersPendingDeletion E w namespace filterOpts).2
  = Returned (scoped, err2) →
  err2 = err1.
Proof.
  intros (rts & Hd1 & Hr1)%scan_returned (rts' & Hd2 & Hr2)%scan_returned.
  rewrite Hd1 in Hd2. injection Hd2 as <-.
  pose proof (scanCatalog_error E NamespaceAll pendingChecked recordGlobal w filterOpts
                rts ∅) as [Hgn Hgs].
  pose proof (scanCatalog_error E namespace pendingChecked recordScoped w filterOpts
                rts ∅) as [Hsn Hss].
  rewrite <- Hr1 in Hgn, Hgs. rewrite <- Hr2 in Hsn, Hss. cbn [snd] in *.
  destruct err1 as [e|].
  - by apply Hss, Hgs.
  - by apply Hsn, Hgn.
Qed.

(** X5. When the catalog is fetched, both scans return, and with the same
    error: none exactly when every group/version of the catalog parses, and
    otherwise the error of the first group/version that does not parse.  A list
    call that fails, or an error of a filter, never becomes the error of a
    scan. *)
Theorem scan_error_is_first_parse_failure (E : Env) (w : World E)
    (filterOpts : FilterOptions) (namespaces : list string) (namespace : string)
    (resourceTypes : list APIResourceList) :
  ServerPreferredResources E w = Ok resourceTypes →
  ∃ global scoped err,
    (getResourcesWithFinalizersPendingDeletion E w namespaces filterOpts).2
    = Returned (global, err)
    ∧ (getNamespacedResourcesWithFinalizersPendingDeletion E w namespace filterOpts).2
      = Returned (scoped, err)
    ∧ (err = None ↔ parses E resourceTypes)
    ∧ ∀ e, err = Some e ↔ firstParseFailure E resourceTypes e.
Proof.
  intros Hd.
  destruct (proj2 (scan_returns E NamespaceAll pendingChecked recordGlobal w filterOpts ∅))
    as [[global err] Hg]; [by exists resourceTypes|].
  destruct (proj2 (scan_returns E namespace pendingChecked recordScoped w filterOpts ∅))
    as [[scoped err'] Hs]; [by exists resourceTypes|].
  assert (err' = err) as -> by exact (scan_errors_agree E w filterOpts namespaces namespace
                                        global scoped err err' Hg Hs).
  exists global, scoped, err. split; [exact Hg|]. split; [exact Hs|].
  apply scan_returned in Hg as (rts & Hd' & Hr). rewrite Hd in Hd'. injection Hd' as <-.
  pose proof (scanCatalog_error E NamespaceAll pendingChecked recordGlobal w filterOpts
                resourceTypes ∅) as H.
  rewrite <- Hr in H. exact H.
Qed.

(** ** The list calls of a scan *)

Lemma listCalls_app ev1 ev2 : listCalls (ev1 ++ ev2) = listCalls ev1 ++ listCalls ev2.
Proof. apply omap_app. Qed.

Section ListCalls.
Context (E : Env) {A : Type}.
Variable scope : string.
Variable isPending : Unstructured → bool.
Variable record : A → string → Unstructured → A.
Variable w : World E.
Variable filterOpts : FilterOptions.

Lemma listCalls_items resourceName items :
  ∀ acc, listCalls (forEach (scanItem E isPending record filterOpts resourceName) items acc).1
         = [].
Proof.
  induction items as [|item items IH]; intros acc; [reflexivity|].
  rewrite forEach_cons. cbn [fst]. rewrite listCalls_app, IH, app_nil_r.
  unfold scanItem. destruct (bool_decide _); [reflexivity|].
  destruct (HasExcludedLabel E _ _) as [[] ?]; [reflexivity|].
  destruct (HasIncludedAge E _ _) as [[] ?]; cbn; [|reflexivity].
  destruct (isPending item); reflexivity.
Qed.

Lemma listCalls_resource groupVersion gv acc resourceType :
  listCalls (scanResource E scope isPending record w filterOpts groupVersion gv acc
               resourceType).1
  = if listable resourceType then [(WithResource gv (Name resourceType), scope)] else [].
Proof.
  unfold scanResource, listable.
  destruct (Namespaced resourceType && Contains (Verbs resourceType) "list"); [|reflexivity].
  destruct (DynamicList E w _ scope) as [items|e]; [|reflexivity].
  pose proof (listCalls_items (Name resourceType) items acc) as H.
  destruct (forEach _ items acc) as [ev acc']. cbn [fst] in *.
  change (listCalls (CallList (WithResource gv (Name resourceType)) scope :: ev))
    with ((WithResource gv (Name resourceType), scope) :: listCalls ev).
  by rewrite H.
Qed.

Lemma listCalls_resources groupVersion gv resourceTypes :
  ∀ acc,
    listCalls (forEach (scanResource E scope isPending record w filterOpts groupVersion gv)
                 resourceTypes acc).1
    = (λ r, (WithResource gv (Name r), scope))
        <$> filter (λ r, listable r = true) resourceTypes.
Proof.
  induction resourceTypes as [|r rs IH]; intros acc; [reflexivity|].
  rewrite forEach_cons. cbn [fst]. rewrite listCalls_app, IH, listCalls_resource.
  rewrite filter_cons. destruct (decide (listable r = true)) as [->|Hn]; [reflexivity|].
  by apply not_true_is_false in Hn as ->.
Qed.

Lemma listCalls_catalog resourceTypes :
  ∀ acc,
    listCalls (scanCatalog E scope isPending record w filterOpts resourceTypes acc).1
    = expectedListCalls E scope resourceTypes.
Proof.
  induction resourceTypes as [|g rest IH]; intros acc; [reflexivity|].
  unfold expectedListCalls. cbn [scanCatalog reachedGroups].
  destruct (ParseGroupVersion E (GroupVersionStr g)) as [gv|e]; [|reflexivity].
  pose proof (listCalls_resources (GroupVersionStr g) gv (APIResources g) acc) as H1.
  destruct (forEach _ (APIResources g) acc) as [e1 acc1].
  specialize (IH acc1). destruct (scanCatalog _ _ _ _ _ _ rest acc1) as [e2 r].
  cbn [fst snd flat_map] in *. by rewrite listCalls_app, H1, IH.
Qed.

Lemma listCalls_scan empty resourceTypes :
  ServerPreferredResources E w = Ok resourceTypes →
  listCalls (scan E scope isPending record w filterOpts empty).1
  = expectedListCalls E scope resourceTypes.
Proof.
  intros Hd. unfold scan. rewrite Hd.
  pose proof (listCalls_catalog resourceTypes empty) as H.
  destruct (scanCatalog _ _ _ _ _ _ _ _) as [ev r]. exact H.
Qed.
End ListCalls.

(** X6. When the catalog is fetched, the list calls of a scan are, in the
    order of the catalog, one call for each namespaced resource type that has
    the verb [list], of each group before the first one whose group/version
    does not parse; all at the scope of the scan (every namespace for the
    global scan, the namespace for the namespaced scan and for the scan of the
    earlier revision).  No other list call is made. *)
Theorem scan_lists_each_listable_type_once (E : Env) (w : World E)
    (filterOpts : FilterOptions) (namespaces : list string) (namespace : string)
    (resourceTypes : list APIResourceList) :
  ServerPreferredResources E w = Ok resourceTypes →
  listCalls (getResourcesWithFinalizersPendingDeletion E w namespaces filterOpts).1
  = expectedListCalls E NamespaceAll resourceTypes
  ∧ listCalls (getNamespacedResourcesWithFinalizersPendingDeletion E w namespace filterOpts).1
    = expectedListCalls E namespace resourceTypes
  ∧ listCalls (Previous.getResourcesWithFinalizersPendingDeletion E w namespace filterOpts).1
    = expectedListCalls E namespace resourceTypes.
Proof.
  intros Hd. split; [|split]; by apply listCalls_scan.
Qed.

(** ** The names a scan collects *)

Section Collected.
Context (E : Env) {A : Type}.
Variable scope : string.
Variable isPending : Unstructured → bool.
Variable record : A → string → Unstructured → A.
Variable w : World E.
Variable filterOpts : FilterOptions.
Variable proj : A → list string.
Variable sel : string → Unstructured → bool.
Hypothesis record_proj : ∀ acc resourceName item,
  proj (record acc resourceName item)
  = proj acc ++ (if sel resourceName item then [GetName item] else []).

Lemma collected_items resourceName items :
  ∀ acc,
    proj (forEach (scanItem E isPending record filterOpts resourceName) items acc).2
    = proj acc ++ itemNames E isPending filterOpts sel resourceName items.
Proof.
  induction items as [|item items IH]; intros acc; [by rewrite app_nil_r|].
  rewrite forEach_cons. cbn [snd]. rewrite IH, scanItem_result.
  unfold itemNames. rewrite filter_cons.
  destruct (kept E isPending filterOpts item).
  - rewrite record_proj. destruct (sel resourceName item); cbn [andb].
    + rewrite decide_True by reflexivity. by rewrite <- app_assoc.
    + rewrite decide_False by discriminate. by rewrite app_nil_r.
  - cbn [andb]. by rewrite decide_False by discriminate.
Qed.

Lemma collected_resource groupVersion gv acc resourceType :
  proj (scanResource E scope isPending record w filterOpts groupVersion gv acc
          resourceType).2
  = proj acc ++ resourceNames E scope isPending w filterOpts sel gv resourceType.
Proof.
  unfold scanResource, resourceNames, listable.
  destruct (Namespaced resourceType && Contains (Verbs resourceType) "list");
    [|by rewrite app_nil_r].
  destruct (DynamicList E w _ scope) as [items|e]; [|by rewrite app_nil_r].
  pose proof (collected_items (Name resourceType) items acc) as H.
  destruct (forEach _ items acc) as [ev acc']. exact H.
Qed.

Lemma collected_resources groupVersion gv resourceTypes :
  ∀ acc,
    proj (forEach (scanResource E scope isPending record w filterOpts groupVersion gv)
            resourceTypes acc).2
    = proj acc ++ flat_map (resourceNames E scope isPending w filterOpts sel gv) resourceTypes.
Proof.
  induction resourceTypes as [|r rs IH]; intros acc; [by rewrite app_nil_r|].
  rewrite forEach_cons. cbn [snd flat_map]. by rewrite IH, collected_resource, app_assoc.
Qed.

Lemma collected_catalog resourceTypes :
  ∀ acc,
    proj (scanCatalog E scope isPending record w filterOpts resourceTypes acc).2.1
    = proj acc ++ collectedNames E scope isPending w filterOpts sel resourceTypes.
Proof.
  induction resourceTypes as [|g rest IH]; intros acc; [by rewrite app_nil_r|].
  unfold collectedNames. cbn [scanCatalog reachedGroups].
  destruct (ParseGroupVersion E (GroupVersionStr g)) as [gv|e]; [|by rewrite app_nil_r].
  pose proof (collected_resources (GroupVersionStr g) gv (APIResources g) acc) as H1.
  destruct (forEach _ (APIResources g) acc) as [e1 acc1].
  specialize (IH acc1). destruct (scanCatalog _ _ _ _ _ _ rest acc1) as [e2 r].
  cbn [fst snd flat_map] in *. by rewrite IH, H1, app_assoc.
Qed.
End Collected.

Lemma recordScoped_names resourceType acc resourceName item :
  default [] (recordScoped acc resourceName item !! resourceType)
  = default [] (acc !! resourceType)
    ++ (if ofType resourceType resourceName item then [GetName item] else []).
Proof.
  unfold recordScoped, ofType. case_bool_decide as Hrt.
  - subst. by rewrite lookup_insert_eq.
  - by rewrite lookup_insert_ne, app_nil_r.
Qed.

Lemma recordGlobal_names namespace resourceType acc resourceName item :
  default [] (default ∅ (recordGlobal acc resourceName item !! namespace) !! resourceType)
  = default [] (default ∅ (acc !! namespace) !! resourceType)
    ++ (if ofTypeIn namespace resourceType resourceName item then [GetName item] else []).
Proof.
  unfold recordGlobal, ofTypeIn. cbv zeta. destruct (decide (GetNamespace item = namespace)) as [Hns|Hns].
  - rewrite (bool_decide_eq_true_2 _ Hns), andb_true_r. subst namespace.
    rewrite lookup_insert_eq. cbn [from_option id]. case_bool_decide as Hrt.
    + subst. by rewrite lookup_insert_eq.
    + by rewrite lookup_insert_ne, app_nil_r.
  - rewrite (bool_decide_eq_false_2 _ Hns), andb_false_r.
    by rewrite lookup_insert_ne, app_nil_r.
Qed.

Lemma stored_lookup (m : TypeIndex) resourceType :
  nonEmptyLists m → m !! resourceType = stored (default [] (m !! resourceType)).
Proof.
  intros Hm. destruct (m !! resourceType) as [names|] eqn:Hl; [|reflexivity].
  apply Hm in Hl. by destruct names.
Qed.

Lemma stored_lookup_global (m : NamespaceIndex) namespace resourceType :
  nonEmptyGroups m →
  default ∅ (m !! namespace) !! resourceType
  = stored (default [] (default ∅ (m !! namespace) !! resourceType)).
Proof.
  intros Hm. destruct (m !! namespace) as [inner|] eqn:Hl; [|reflexivity].
  apply stored_lookup. by apply (Hm namespace inner).
Qed.

Lemma scoped_names E w namespace filterOpts resourceTypes m err :
  ServerPreferredResources E w = Ok resourceTypes →
  (getNamespacedResourcesWithFinalizersPendingDeletion E w namespace filterOpts).2
  = Returned (m, err) →
  ∀ resourceType,
    m !! resourceType
    = stored (collectedNames E namespace pendingChecked w filterOpts (ofType resourceType)
                resourceTypes).
Proof.
  intros Hd Hrun resourceType.
  rewrite (stored_lookup m resourceType) by (eapply scoped_nonEmpty, Hrun). f_equal.
  apply scan_returned in Hrun as (rts & Hd' & Hr). rewrite Hd in Hd'. injection Hd' as <-.
  pose proof (collected_catalog E namespace pendingChecked recordScoped w filterOpts
                (λ m, default [] (m !! resourceType)) (ofType resourceType)
                (recordScoped_names resourceType) resourceTypes ∅) as H.
  rewrite <- Hr in H. exact H.
Qed.

Lemma global_names E w namespaces filterOpts resourceTypes m err :
  ServerPreferredResources E w = Ok resourceTypes →
  (getResourcesWithFinalizersPendingDeletion E w namespaces filterOpts).2
  = Returned (m, err) →
  ∀ namespace resourceType,
    default ∅ (m !! namespace) !! resourceType
    = stored (collectedNames E NamespaceAll pendingChecked w filterOpts
                (ofTypeIn namespace resourceType) resourceTypes).
Proof.
  intros Hd Hrun namespace resourceType.
  rewrite (stored_lookup_global m namespace resourceType) by (eapply global_nonEmpty, Hrun).
  f_equal.
  apply scan_returned in Hrun as (rts & Hd' & Hr). rewrite Hd in Hd'. injection Hd' as <-.
  pose proof (collected_catalog E NamespaceAll pendingChecked recordGlobal w filterOpts
                (λ m, default [] (default ∅ (m !! namespace) !! resourceType))
                (ofTypeIn namespace resourceType)
                (recordGlobal_names namespace resourceType) resourceTypes ∅) as H.
  rewrite <- Hr in H. exact H.
Qed.

(** X7. What the indexes hold, order and repetitions included.  Under a
    resource type the namespaced scan holds the names of the objects that its
    list calls for types of that name returned and that pass the filters and
    are pending, in the order of the catalog and of the lists; the global scan
    holds the same under a namespace and a resource type for the objects of
    that namespace.  Nothing is held when there is no such object, and no
    namespace is mapped to an empty map. *)
Theorem scan_collects_names_in_order (E : Env) (w : World E)
    (filterOpts : FilterOptions) (namespaces : list string) (namespace : string)
    (resourceTypes : list APIResourceList) :
  ServerPreferredResources E w = Ok resourceTypes →
  ∃ global scoped err,
    (getResourcesWithFinalizersPendingDeletion E w namespaces filterOpts).2
    = Returned (global, err)
    ∧ (getNamespacedResourcesWithFinalizersPendingDeletion E w namespace filterOpts).2
      = Returned (scoped, err)
    ∧ (∀ resourceType,
         scoped !! resourceType
         = stored (collectedNames E namespace pendingChecked w filterOpts
                     (ofType resourceType) resourceTypes))
    ∧ (∀ ns resourceType,
         default ∅ (global !! ns) !! resourceType
         = stored (collectedNames E NamespaceAll pendingChecked w filterOpts
                     (ofTypeIn ns resourceType) resourceTypes))
    ∧ (∀ ns, global !! ns ≠ Some ∅).
Proof.
  intros Hd.
  destruct (proj2 (scan_returns E NamespaceAll pendingChecked recordGlobal w filterOpts ∅))
    as [[global err] Hg]; [by exists resourceTypes|].
  destruct (proj2 (scan_returns E namespace pendingChecked recordScoped w filterOpts ∅))
    as [[scoped err'] Hs]; [by exists resourceTypes|].
  assert (err' = err) as -> by exact (scan_errors_agree E w filterOpts namespaces namespace
                                        global scoped err err' Hg Hs).
  exists global, scoped, err. split; [exact Hg|]. split; [exact Hs|].
  split; [exact (scoped_names E w namespace filterOpts resourceTypes scoped err Hd Hs)|].
  split; [exact (global_names E w namespaces filterOpts resourceTypes global err Hd Hg)|].
  intros ns Hns.
  destruct (global_nonEmpty E w namespaces filterOpts global err Hg ns ∅ Hns) as [Hne _].
  by apply Hne.
Qed.

Lemma collectedNames_consistent E w filterOpts namespace resourceType resourceTypes :
  namespaceConsistent E w [namespace] →
  collectedNames E namespace pendingChecked w filterOpts (ofType resourceType) resourceTypes
  = collectedNames E NamespaceAll pendingChecked w filterOpts
      (ofTypeIn namespace resourceType) resourceTypes.
Proof.
  intros Hc. unfold collectedNames. apply flat_map_ext. intros [g gv].
  apply flat_map_ext. intros r. unfold resourceNames. destruct (listable r); [|reflexivity].
  rewrite (Hc _ namespace) by (apply list_elem_of_singleton; reflexivity).
  destruct (DynamicList E w _ NamespaceAll) as [items|e]; [|reflexivity].
  unfold itemNames. f_equal. rewrite list_filter_filter. apply list_filter_iff.
  intros item. unfold ofType, ofTypeIn.
  destruct (kept E pendingChecked filterOpts item); cbn [andb];
    [|split; [intros [? ?]|intros ?]; discriminate].
  rewrite andb_true_iff, !bool_decide_eq_true. tauto.
Qed.

(** X8. When the list calls scoped to a namespace answer as the all-namespaces
    calls restricted to that namespace, the index of the namespaced scan is the
    entry of that namespace in the index of the global scan (the empty map when
    there is none), the same names in the same order, and both scans return the
    same error. *)
Theorem scoped_scan_is_global_scan_at_namespace (E : Env) (w : World E)
    (filterOpts : FilterOptions) (namespaces : list string) (namespace : string)
    global scoped err1 err2 :
  namespaceConsistent E w [namespace] →
  (getResourcesWithFinalizersPendingDeletion E w namespaces filterOpts).2
  = Returned (global, err1) →
  (getNamespacedResourcesWithFinalizersPendingDeletion E w namespace filterOpts).2
  = Returned (scoped, err2) →
  scoped = default ∅ (global !! namespace) ∧ err2 = err1.
Proof.
  intros Hc Hg Hs. split; [|by eapply scan_errors_agree].
  destruct (proj1 (scan_returned _ _ _ _ _ _ _ _) Hg) as (rts & Hd & _).
  apply map_eq. intros resourceType.
  rewrite (scoped_names E w namespace filterOpts rts scoped err2 Hd Hs).
  rewrite (global_names E w namespaces filterOpts rts global err1 Hd Hg).
  f_equal. by apply collectedNames_consistent.
Qed.

(** ** The deletions of global mode *)

Section DeleteCalls.
Context (E : Env).

Lemma deleteCalls_bind {A B : Type} (m : M E A) (f : A → M E B) w :
  deleteCalls (bind m f w).1.1
  = deleteCalls (m w).1.1
    ++ match (m w).2 with
       | Returned a => deleteCalls (f a (m w).1.2).1.1
       | Exited _ => []
       end.
Proof.
  unfold bind. destruct (m w) as [[e1 w1] [c|a]]; cbn [fst snd].
  - by rewrite app_nil_r.
  - destruct (f a w1) as [[e2 w2] o2]. cbn [fst snd]. apply deleteCalls_app.
Qed.

Lemma forM_deleteCalls {X S : Type} (body : S → X → M E S)
    (calls : X → list (bool * string * string * list string)) xs :
  (∀ s x w, deleteCalls (body s x w).1.1 ≡ₚ calls x ∧ ∃ s', (body s x w).2 = Returned s') →
  ∀ s w, deleteCalls (forM body xs s w).1.1 ≡ₚ flat_map calls xs.
Proof.
  intros Hbody. induction xs as [|x xs IH]; intros s w; [reflexivity|].
  cbn [forM flat_map]. rewrite deleteCalls_bind.
  destruct (Hbody s x w) as [Hc [s' Hr]]. rewrite Hr, Hc, IH. reflexivity.
Qed.

Context (filterOpts : FilterOptions) (opts : Opts).

Lemma deleteGroup_deleteCalls withFinalizer namespace u entry w :
  DeleteFlag opts = true →
  deleteCalls (deleteGroup E opts withFinalizer namespace u entry w).1.1
  = [(withFinalizer, namespace, entry.1, entry.2)].
Proof.
  intros Hflag. destruct entry as [rt names]. unfold deleteGroup. rewrite Hflag.
  unfold bind, callDelete.
  destruct ((if withFinalizer then DeleteResourceWithFinalizer E else DeleteResource E)
              names namespace rt (NoInteractive opts) w) as [[names' [e|]] w1]; reflexivity.
Qed.

Lemma deleteGroups_deleteCalls withFinalizer namespace groups w :
  DeleteFlag opts = true →
  deleteCalls (forM (deleteGroup E opts withFinalizer namespace) groups tt w).1.1
  ≡ₚ (λ g : string * list string, (withFinalizer, namespace, g.1, g.2)) <$> groups.
Proof.
  intros Hflag.
  rewrite (forM_deleteCalls _ (λ g, [(withFinalizer, namespace, g.1, g.2)])).
  - induction groups as [|g groups IH]; [reflexivity|]. cbn. by rewrite IH.
  - intros u g w0. split.
    + by rewrite deleteGroup_deleteCalls.
    + exists tt. apply deleteGroup_returned.
Qed.

Lemma globalNamespace_deleteCalls namespaces st entry w :
  DeleteFlag opts = true →
  deleteCalls (globalNamespace E opts namespaces st entry w).1.1
  ≡ₚ if Contains namespaces entry.1
     then (λ g : string * list string, (true, entry.1, g.1, g.2)) <$> map_to_list entry.2
     else [].
Proof.
  intros Hflag. destruct entry as [ns data]. unfold globalNamespace. cbn [fst snd].
  destruct (Contains namespaces ns); [|reflexivity].
  rewrite deleteCalls_bind. cbn [ask fst snd app]. rewrite deleteCalls_bind.
  pose proof (deleteGroups_returned E opts true ns (range E w _ data) w) as Hr.
  rewrite Hr. cbn [ret fst snd]. rewrite app_nil_r.
  rewrite deleteGroups_deleteCalls by exact Hflag.
  by rewrite (range_perm E w _ data).
Qed.

Lemma globalMode_deleteCalls namespaces w m err :
  DeleteFlag opts = true →
  (getResourcesWithFinalizersPendingDeletion E w namespaces filterOpts).2 = Returned (m, err) →
  deleteCalls (globalMode E filterOpts opts namespaces w).1.1
  ≡ₚ globalGroups namespaces (map_to_list m).
Proof.
  intros Hflag Hscan. unfold globalMode. rewrite deleteCalls_bind.
  unfold observe at 1 2 3. unfold getResourcesWithFinalizersPendingDeletion in *.
  pose proof (deleteCalls_scan E NamespaceAll pendingChecked recordGlobal w filterOpts ∅) as Hs.
  destruct (scan _ _ _ _ _ _ _) as [sev o]. cbn [fst snd] in *. subst o. rewrite Hs.
  cbn [app]. rewrite deleteCalls_bind.
  assert (Hrep : (reportErr E err scanDiagnostic w).1.2 = w
                 ∧ deleteCalls (reportErr E err scanDiagnostic w).1.1 = []
                 ∧ (reportErr E err scanDiagnostic w).2 = Returned tt).
  { by destruct err. }
  destruct Hrep as (Hw & -> & ->). rewrite Hw. cbn [app].
  rewrite deleteCalls_bind. cbn [ask fst snd app].
  unfold globalGroups. rewrite <- (range_perm E w _ m).
  apply forM_deleteCalls. intros st entry w0. split.
  - by apply globalNamespace_deleteCalls.
  - eexists. apply globalNamespace_returned.
Qed.
End DeleteCalls.

(** X9. In global mode with the delete flag, the calls of the delete helpers
    are those of [DeleteResourceWithFinalizer], one for every group (resource
    type and names) of every resolved namespace of the result of the scan, each
    once and in some order; this also when the scan returned an error, for the
    groups it had collected. *)
Theorem global_mode_deletes_each_group_once (E : Env) (filterOpts : FilterOptions)
    (opts : Opts) (lists : IncludeExcludeLists) (outputFormat : string) (w : World E)
    m err :
  DeleteFlag opts = true →
  noNamespaceFilter lists = true →
  (getResourcesWithFinalizersPendingDeletion E w (SetNamespaceList E lists w) filterOpts).2
  = Returned (m, err) →
  deleteCalls (GetUnusedfinalizers E filterOpts opts lists outputFormat w).1.1
  ≡ₚ globalGroups (SetNamespaceList E lists w) (map_to_list m).
Proof.
  intros Hflag Hmode Hscan. unfold GetUnusedfinalizers. rewrite deleteCalls_bind.
  rewrite scanAndDelete_run, Hmode.
  destruct (globalMode_returned E filterOpts opts _ w m err Hscan) as (st & Hst & _).
  rewrite Hst.
  assert (Htail : ∀ w1,
             deleteCalls
               ((match MarshalIndent E (response st) with
                 | Ok jsonResponse =>
                     let '(unusedFinalizers, err) :=
                       unusedResourceFormatter E outputFormat (outputBuffer st) opts
                         jsonResponse in
                     let* _ := reportErr E err formatterDiagnostic in
                     ret (unusedFinalizers, None)
                 | Err err => ret ("", Some err)
                 end) w1).1.1 = []).
  { intros w1. destruct (MarshalIndent E (response st)) as [json|e]; [|reflexivity].
    destruct (unusedResourceFormatter E outputFormat (outputBuffer st) opts json)
      as [s [e|]]; reflexivity. }
  rewrite Htail, app_nil_r.
  exact (globalMode_deleteCalls E filterOpts opts _ w m err Hflag Hscan).
Qed.

(** ** What the two modes return *)

Lemma append_assoc (a b c : string) : (a +:+ b) +:+ c = a +:+ (b +:+ c).
Proof.
  induction a as [|x a IH]; [reflexivity|].
  change (String x ((a +:+ b) +:+ c) = String x (a +:+ (b +:+ c))). by rewrite IH.
Qed.

Lemma append_empty_r (a : string) : a +:+ "" = a.
Proof.
  induction a as [|x a IH]; [reflexivity|].
  change (String x (a +:+ "") = String x a). by rewrite IH.
Qed.

Section GlobalReport.
Context (E : Env) (filterOpts : FilterOptions) (opts : Opts).

Lemma globalStep_buffer namespaces entries :
  ∀ st,
    outputBuffer (fold_left (globalStep E opts namespaces) entries st)
    = outputBuffer st +:+ written (globalBlocks E opts namespaces entries).
Proof.
  induction entries as [|[ns data] entries IH]; intros st.
  - cbn. by rewrite append_empty_r.
  - cbn [fold_left]. rewrite IH. unfold globalStep, globalBlocks, Contains.
    rewrite filter_cons. cbn [fst snd]. case_bool_decide as Hns.
    + rewrite decide_True by exact Hns. cbn [addToReport outputBuffer fmap list_fmap written foldr fst snd].
      by rewrite !append_assoc.
    + by rewrite decide_False by exact Hns.
Qed.

Lemma globalMode_report namespaces w m err :
  (getResourcesWithFinalizersPendingDeletion E w namespaces filterOpts).2 = Returned (m, err) →
  (globalMode E filterOpts opts namespaces w).2
  = Returned {| outputBuffer := written (globalBlocks E opts namespaces (range E w _ m));
                response := filter (λ e : string * TypeIndex, e.1 ∈ namespaces) m |}.
Proof.
  intros Hscan.
  assert (Hrun : (globalMode E filterOpts opts namespaces w).2
                 = Returned (fold_left (globalStep E opts namespaces) (range E w _ m)
                               emptyReport)).
  { pose proof (forM_fold E (globalNamespace E opts namespaces)
                  (globalStep E opts namespaces) (range E w _ m)
                  (λ s x w0 _, globalNamespace_returned E opts namespaces s x w0)
                  emptyReport w) as H.
    unfold getResourcesWithFinalizersPendingDeletion in Hscan.
    unfold globalMode, getResourcesWithFinalizersPendingDeletion, bind, observe, ask.
    destruct (scan _ _ _ _ _ _ _) as [sev o]. cbn [snd] in Hscan. subst o.
    destruct err as [e|]; cbn [reportErr emit ret];
      destruct (forM _ _ _ _) as [[e2 w2] o2]; exact H. }
  rewrite Hrun. f_equal.
  set (st := fold_left _ _ _).
  assert (Hb : outputBuffer st = written (globalBlocks E opts namespaces (range E w _ m))).
  { unfold st. by rewrite globalStep_buffer. }
  assert (Hr : response st = filter (λ e : string * TypeIndex, e.1 ∈ namespaces) m).
  { apply map_eq. intros ns. apply option_eq. intros data.
    unfold st. rewrite globalStep_response by apply range_NoDup.
    rewrite range_lookup, map_lookup_filter_Some. reflexivity. }
  destruct st as [b r]. cbn in Hb, Hr. by subst.
Qed.
End GlobalReport.

(** X10. What global mode returns, when its scan returns: the response that
    is encoded is the result of the scan restricted to the resolved namespaces,
    and the buffer handed to the formatter holds, for each of these namespaces
    in the order in which the map was walked, the block that
    [FormatOutputFromMap] makes of its entry and of the options.  The error of
    the scan and what the delete helper answers change none of this. *)
Theorem global_mode_return_value (E : Env) (filterOpts : FilterOptions)
    (opts : Opts) (lists : IncludeExcludeLists) (outputFormat : string) (w : World E)
    m err :
  noNamespaceFilter lists = true →
  (getResourcesWithFinalizersPendingDeletion E w (SetNamespaceList E lists w) filterOpts).2
  = Returned (m, err) →
  (GetUnusedfinalizers E filterOpts opts lists outputFormat w).2
  = Returned
      match MarshalIndent E (filter (λ e : string * TypeIndex,
                                       e.1 ∈ SetNamespaceList E lists w) m) with
      | Err e => ("", Some e)
      | Ok json =>
          ((unusedResourceFormatter E outputFormat
              (written (globalBlocks E opts (SetNamespaceList E lists w) (range E w _ m)))
              opts json).1, None)
      end.
Proof.
  intros Hmode Hscan. unfold GetUnusedfinalizers, bind at 1.
  rewrite scanAndDelete_run, Hmode.
  pose proof (globalMode_report E filterOpts opts _ w m err Hscan) as Hst.
  destruct (globalMode E filterOpts opts (SetNamespaceList E lists w) w) as [[e1 w1] o].
  cbn [snd] in Hst. subst o. cbn [outputBuffer response].
  destruct (MarshalIndent E _) as [json|e]; [|reflexivity].
  destruct (unusedResourceFormatter E outputFormat _ opts json) as [s [e|]]; reflexivity.
Qed.

Section ScopedReport.
Context (E : Env) (filterOpts : FilterOptions) (opts : Opts).

Local Abbreviation add := (λ (st : Report) (e : string * TypeIndex),
                             addToReport E opts st e.1 e.2).

Lemma scopedResults_cons w namespace namespaces :
  scopedResults E w filterOpts (namespace :: namespaces)
  = match (getNamespacedResourcesWithFinalizersPendingDeletion E w namespace filterOpts).2 with
    | Returned (m, None) => (namespace, m) :: scopedResults E w filterOpts namespaces
    | _ => scopedResults E w filterOpts namespaces
    end.
Proof.
  unfold scopedResults. cbn [omap list_omap].
  destruct (getNamespacedResourcesWithFinalizersPendingDeletion E w namespace filterOpts).2
    as [c|[m [e|]]]; reflexivity.
Qed.

Lemma scopedResults_functional w namespaces ns m :
  (ns, m) ∈ scopedResults E w filterOpts namespaces →
  (getNamespacedResourcesWithFinalizersPendingDeletion E w ns filterOpts).2
  = Returned (m, None).
Proof.
  unfold scopedResults. rewrite list_elem_of_omap. intros (ns' & _ & H).
  destruct (getNamespacedResourcesWithFinalizersPendingDeletion E w ns' filterOpts).2
    as [c|[m' [e|]]] eqn:Hs; try discriminate.
  injection H as -> ->. exact Hs.
Qed.

Lemma deleteGroups_report_only withFinalizer namespace groups w :
  DeleteFlag opts = false →
  forM (deleteGroup E opts withFinalizer namespace) groups tt w = ([], w, Returned tt).
Proof.
  intros Hflag. induction groups as [|[rt names] groups IH]; [reflexivity|].
  cbn [forM]. unfold bind, deleteGroup at 1. rewrite Hflag. cbn [ret]. by rewrite IH.
Qed.

Lemma scopedMode_report_only w namespaces :
  DeleteFlag opts = false →
  (∃ resourceTypes, ServerPreferredResources E w = Ok resourceTypes) →
  ∀ st,
    (forM (scopedNamespace E filterOpts opts) namespaces st w).1.2 = w
    ∧ (forM (scopedNamespace E filterOpts opts) namespaces st w).2
      = Returned (fold_left add (scopedResults E w filterOpts namespaces) st).
Proof.
  intros Hflag Hd. induction namespaces as [|ns namespaces IH]; intros st; [done|].
  cbn [forM]. unfold bind. rewrite scopedNamespace_run, scopedResults_cons. cbv zeta.
  apply (scan_returns E ns pendingChecked recordScoped w filterOpts ∅) in Hd as [[m err] Hs].
  unfold getNamespacedResourcesWithFinalizersPendingDeletion.
  destruct (scan E ns pendingChecked recordScoped w filterOpts ∅) as [sev o].
  cbn [fst snd] in *. subst o. destruct err as [e|].
  - specialize (IH st). destruct (forM _ namespaces st w) as [[e2 w2] o2]. exact IH.
  - rewrite deleteGroups_report_only by exact Hflag. cbn [fst snd].
    specialize (IH (addToReport E opts st ns m)).
    destruct (forM _ namespaces _ w) as [[e2 w2] o2]. exact IH.
Qed.

Lemma addToReport_buffer entries :
  ∀ st, outputBuffer (fold_left add entries st)
        = outputBuffer st +:+ written (scopedBlocks E opts entries).
Proof.
  induction entries as [|[ns m] entries IH]; intros st.
  - cbn. by rewrite append_empty_r.
  - cbn [fold_left]. rewrite IH.
    cbn [addToReport outputBuffer scopedBlocks fmap list_fmap written foldr fst snd].
    by rewrite !append_assoc.
Qed.

Lemma addToReport_response entries :
  ∀ st, response (fold_left add entries st)
        = list_to_map (reverse entries) ∪ response st.
Proof.
  induction entries as [|[ns m] entries IH]; intros st.
  - cbn. by rewrite (left_id_L ∅ (∪)).
  - cbn [fold_left]. rewrite IH, reverse_cons, list_to_map_app.
    cbn [addToReport response list_to_map foldr fst snd].
    rewrite <- (assoc_L (∪)). f_equal.
    rewrite insert_empty. by rewrite <- insert_union_singleton_l.
Qed.

Lemma list_to_map_reverse (entries : list (string * TypeIndex)) :
  (∀ k v1 v2, (k, v1) ∈ entries → (k, v2) ∈ entries → v1 = v2) →
  list_to_map (reverse entries) =@{NamespaceIndex} list_to_map entries.
Proof.
  intros Hf.
  assert (Hl : ∀ l : list (string * TypeIndex),
             (∀ e, e ∈ l ↔ e ∈ entries) →
             ∀ k v, (list_to_map l : NamespaceIndex) !! k = Some v ↔ (k, v) ∈ entries).
  { intros l Hl k v. split.
    - intros H. by apply Hl, elem_of_list_to_map_2.
    - intros Hin. destruct ((list_to_map l : NamespaceIndex) !! k) as [v'|] eqn:Hk.
      + f_equal. apply (Hf k); [|exact Hin]. by apply Hl, elem_of_list_to_map_2.
      + apply not_elem_of_list_to_map_2 in Hk. exfalso. apply Hk.
        apply list_elem_of_fmap. exists (k, v). split; [reflexivity|]. by apply Hl. }
  apply map_eq. intros k. apply option_eq. intros v.
  rewrite (Hl (reverse entries)) by (intros e; apply elem_of_reverse).
  by rewrite (Hl entries).
Qed.
End ScopedReport.

(** X11. What scoped mode returns without the delete flag, on a cluster whose
    catalog can be fetched: the response maps each resolved namespace whose scan
    returned without an error to the index of that scan, and the buffer handed
    to the formatter holds one block for each such scan, in the order of the
    resolved namespaces. *)
Theorem scoped_report_only_return_value (E : Env) (filterOpts : FilterOptions)
    (opts : Opts) (lists : IncludeExcludeLists) (outputFormat : string) (w : World E)
    (resourceTypes : list APIResourceList) :
  DeleteFlag opts = false →
  noNamespaceFilter lists = false →
  ServerPreferredResources E w = Ok resourceTypes →
  (GetUnusedfinalizers E filterOpts opts lists outputFormat w).2
  = Returned
      match MarshalIndent E
              (list_to_map (scopedResults E w filterOpts (SetNamespaceList E lists w))) with
      | Err e => ("", Some e)
      | Ok json =>
          ((unusedResourceFormatter E outputFormat
              (written (scopedBlocks E opts
                          (scopedResults E w filterOpts (SetNamespaceList E lists w))))
              opts json).1, None)
      end.
Proof.
  intros Hflag Hmode Hd. unfold GetUnusedfinalizers, bind at 1.
  rewrite scanAndDelete_run, Hmode. unfold scopedMode.
  set (namespaces := SetNamespaceList E lists w).
  destruct (scopedMode_report_only E filterOpts opts w namespaces Hflag
              (ex_intro _ resourceTypes Hd) emptyReport) as [_ Hst].
  destruct (forM _ namespaces emptyReport w) as [[e1 w1] o]. cbn [snd] in Hst. subst o.
  rewrite addToReport_buffer, addToReport_response.
  cbn [emptyReport outputBuffer response]. rewrite (right_id_L ∅ (∪)).
  rewrite list_to_map_reverse.
  2:{ intros k v1 v2 H1%scopedResults_functional H2%scopedResults_functional.
      rewrite H1 in H2. by injection H2. }
  change ("" +:+ ?s) with s.
  destruct (MarshalIndent E _) as [json|e]; [|reflexivity].
  destruct (unusedResourceFormatter E outputFormat _ opts json) as [s [e|]]; reflexivity.
Qed.

(** ** The entries of the report *)

Section ReportEntries.
Context (E : Env) (filterOpts : FilterOptions) (opts : Opts).

Local Abbreviation add := (λ (st : Report) (e : string * TypeIndex),
                             addToReport E opts st e.1 e.2).

Lemma forM_app {X S : Type} (body : S → X → M E S) xs ys :
  ∀ s w, forM body (xs ++ ys) s w = bind (forM body xs s) (forM body ys) w.
Proof.
  induction xs as [|x xs IH]; intros s w.
  - cbn [app forM]. unfold bind, ret.
    destruct (forM body ys s w) as [[e2 w2] o2]. reflexivity.
  - cbn [app forM]. unfold bind. destruct (body s x w) as [[e1 w1] [c|s1]]; [reflexivity|].
    rewrite IH. unfold bind. destruct (forM body xs s1 w1) as [[e2 w2] [c|s2]].
    + reflexivity.
    + destruct (forM body ys s2 w2) as [[e3 w3] o3]. by rewrite app_assoc.
Qed.

Lemma globalStep_entries namespaces entries :
  ∀ st, fold_left (globalStep E opts namespaces) entries st
        = fold_left add (filter (λ e : string * TypeIndex, e.1 ∈ namespaces) entries) st.
Proof.
  induction entries as [|[ns data] entries IH]; intros st; [reflexivity|].
  cbn [fold_left]. rewrite IH, filter_cons. unfold globalStep, Contains. cbn [fst snd].
  case_bool_decide as Hns.
  - by rewrite decide_True by exact Hns.
  - by rewrite decide_False by exact Hns.
Qed.

Lemma globalMode_entries namespaces w m err :
  (getResourcesWithFinalizersPendingDeletion E w namespaces filterOpts).2 = Returned (m, err) →
  (globalMode E filterOpts opts namespaces w).2
  = Returned (reportOf E opts (filter (λ e : string * TypeIndex, e.1 ∈ namespaces)
                                 (range E w _ m))).
Proof.
  intros Hscan. unfold reportOf. rewrite <- globalStep_entries.
  pose proof (forM_fold E (globalNamespace E opts namespaces)
                (globalStep E opts namespaces) (range E w _ m)
                (λ s x w0 _, globalNamespace_returned E opts namespaces s x w0)
                emptyReport w) as H.
  unfold getResourcesWithFinalizersPendingDeletion in Hscan.
  unfold globalMode, getResourcesWithFinalizersPendingDeletion, bind, observe, ask.
  destruct (scan _ _ _ _ _ _ _) as [sev o]. cbn [snd] in Hscan. subst o.
  destruct err as [e|]; cbn [reportErr emit ret];
    destruct (forM _ _ _ _) as [[e2 w2] o2]; exact H.
Qed.

Lemma scopedMode_entries namespaces :
  ∀ st0 w ev w' st,
    forM (scopedNamespace E filterOpts opts) namespaces st0 w = (ev, w', Returned st) →
    ∃ entries,
      st = fold_left add entries st0
      ∧ ∀ ns data, (ns, data) ∈ entries →
          ∃ before after e1 w1 st1,
            namespaces = before ++ ns :: after
            ∧ forM (scopedNamespace E filterOpts opts) before st0 w = (e1, w1, Returned st1)
            ∧ (getNamespacedResourcesWithFinalizersPendingDeletion E w1 ns filterOpts).2
              = Returned (data, None).
Proof.
  induction namespaces as [|n rest IH]; intros st0 w ev w' st Hrun.
  - injection Hrun as _ _ <-. exists []. split; [reflexivity|].
    intros ns data Hin. by apply elem_of_nil in Hin.
  - cbn [forM] in Hrun. apply bind_returned in Hrun as (e1 & w1 & s1 & e2 & H1 & H2 & ->).
    destruct (IH _ _ _ _ _ H2) as (entries & -> & Hentries).
    pose proof H1 as Hbody.
    apply scopedNamespace_returned in Hbody
      as (scanEv & driverEv & m & err & Hscan & _ & _ & _ & Hs1).
    assert (Hlater : ∀ ns data, (ns, data) ∈ entries →
               ∃ before after e3 w3 st3,
                 n :: rest = before ++ ns :: after
                 ∧ forM (scopedNamespace E filterOpts opts) before st0 w
                   = (e3, w3, Returned st3)
                 ∧ (getNamespacedResourcesWithFinalizersPendingDeletion E w3 ns
                      filterOpts).2 = Returned (data, None)).
    { intros ns data Hin.
      destruct (Hentries ns data Hin) as (before & after & e3 & w3 & st3 & -> & Hpre & Hok).
      exists (n :: before), after, (e1 ++ e3), w3, st3.
      split; [reflexivity|]. split; [|exact Hok].
      cbn [forM]. apply bind_returned. exists e1, w1, s1, e3. auto. }
    destruct err as [e|]; subst s1.
    + exists entries. split; [reflexivity|]. exact Hlater.
    + exists ((n, m) :: entries). split; [reflexivity|].
      intros ns data [[= -> ->]|Hin]%elem_of_cons; [|by apply Hlater].
      exists [], rest, [], w, st0. split; [reflexivity|]. split; [reflexivity|].
      by rewrite Hscan.
Qed.

Lemma reportOf_response entries namespace data :
  response (reportOf E opts entries) !! namespace = Some data → (namespace, data) ∈ entries.
Proof.
  unfold reportOf. rewrite addToReport_response. cbn [emptyReport response].
  rewrite (right_id_L ∅ (∪)). intros H%elem_of_list_to_map_2.
  by apply elem_of_reverse.
Qed.

Lemma scopedNamespace_deleteCalls st namespace w m err :
  (getNamespacedResourcesWithFinalizersPendingDeletion E w namespace filterOpts).2
  = Returned (m, err) →
  deleteCalls (scopedNamespace E filterOpts opts st namespace w).1.1
  ≡ₚ if DeleteFlag opts
     then match err with
          | None => scopedGroups namespace m
          | Some _ => []
          end
     else [].
Proof.
  intros Hscan. rewrite scopedNamespace_run. cbv zeta.
  pose proof (deleteCalls_scan E namespace pendingChecked recordScoped w filterOpts ∅) as Hs.
  unfold getNamespacedResourcesWithFinalizersPendingDeletion in *.
  destruct (scan _ _ _ _ _ _ _) as [sev o]. cbn [fst snd] in *. subst o.
  destruct err as [e|]; cbn [fst snd].
  - rewrite deleteCalls_app, Hs. by destruct (DeleteFlag opts).
  - rewrite deleteCalls_app, Hs. cbn [app].
    destruct (DeleteFlag opts) eqn:Hflag.
    + rewrite deleteGroups_deleteCalls by exact Hflag.
      unfold scopedGroups. by rewrite (range_perm E w _ m).
    + by rewrite deleteGroups_report_only by exact Hflag.
Qed.

Lemma GetUnusedfinalizers_deleteCalls lists outputFormat w :
  deleteCalls (GetUnusedfinalizers E filterOpts opts lists outputFormat w).1.1
  = deleteCalls (scanAndDelete E filterOpts opts lists w).1.1.
Proof.
  destruct (GetUnusedfinalizers_trace E filterOpts opts lists outputFormat w)
    as (tail & -> & Htail & _).
  rewrite deleteCalls_app.
  assert (deleteCalls tail = []) as ->; [|by rewrite app_nil_r].
  induction Htail as [|e tail [err ->] _ IH]; [reflexivity|exact IH].
Qed.
End ReportEntries.

(** ** The filter pipeline *)

(** C5. For every object the scan looks at the [kor/used] label first: when it
    is ["true"] no other filter is called and nothing is recorded, whatever the
    finalizers, the deletion timestamp and the filter options.  Otherwise the
    exclusion labels are checked, and the age only when they do not exclude
    the object; the pending test comes last.  Hence no name in the result of
    either scan belongs to an object marked [kor/used = "true"].  Nor does any
    name in a report: what [GetUnusedfinalizers] hands to the encoder and to
    the formatter is built from entries, each the result of a scan of the run,
    and each name of an entry is the name of an object that this scan listed,
    in the cluster as the scan found it, and that is not marked. *)
Theorem used_label_excluded_first (E : Env) (w : World E) (filterOpts : FilterOptions) :
  (∀ (A : Type) (isPending : Unstructured → bool)
     (record : A → string → Unstructured → A) resourceName acc item,
      let run := scanItem E isPending record filterOpts resourceName acc item in
      let exclusionCall := CallHasExcludedLabel (GetLabels item) in
      let ageCall := CallHasIncludedAge (GetCreationTimestamp item) in
      (default "" (GetLabels item !! "kor/used") = "true" → run = ([], acc))
      ∧ (default "" (GetLabels item !! "kor/used") ≠ "true" →
         (excluded E filterOpts item = true → run = ([exclusionCall], acc))
         ∧ (excluded E filterOpts item = false →
            (included E filterOpts item = false → run = ([exclusionCall; ageCall], acc))
            ∧ (included E filterOpts item = true →
               run = ([exclusionCall; ageCall],
                      if isPending item then record acc resourceName item else acc)))))
  ∧ (∀ namespaces m err k,
      (getResourcesWithFinalizersPendingDeletion E w namespaces filterOpts).2
      = Returned (m, err) →
      namespaceEntry m k →
      ∃ resourceTypes resourceType item,
        ServerPreferredResources E w = Ok resourceTypes
        ∧ listed E NamespaceAll w resourceTypes resourceType item
        ∧ default "" (GetLabels item !! "kor/used") ≠ "true"
        ∧ k = (GetNamespace item, Name resourceType, GetName item))
  ∧ (∀ namespace m err k,
      (getNamespacedResourcesWithFinalizersPendingDeletion E w namespace filterOpts).2
      = Returned (m, err) →
      typeEntry m k →
      ∃ resourceTypes resourceType item,
        ServerPreferredResources E w = Ok resourceTypes
        ∧ listed E namespace w resourceTypes resourceType item
        ∧ default "" (GetLabels item !! "kor/used") ≠ "true"
        ∧ k = (Name resourceType, GetName item))
  ∧ (∀ opts lists st,
      (scanAndDelete E filterOpts opts lists w).2 = Returned st →
      ∃ entries,
        st = reportOf E opts entries
        ∧ (∀ namespace data,
             response st !! namespace = Some data → (namespace, data) ∈ entries)
        ∧ ∀ namespace data resourceName name,
            (namespace, data) ∈ entries →
            typeEntry data (resourceName, name) →
            ∃ w1 resourceTypes resourceType item,
              scannedIn E filterOpts opts lists w namespace w1
              ∧ ServerPreferredResources E w1 = Ok resourceTypes
              ∧ listed E (if noNamespaceFilter lists then NamespaceAll else namespace)
                  w1 resourceTypes resourceType item
              ∧ default "" (GetLabels item !! "kor/used") ≠ "true"
              ∧ Name resourceType = resourceName ∧ GetName item = name
              ∧ (noNamespaceFilter lists = true → GetNamespace item = namespace)).
Proof.
  assert (Hkept : ∀ isPending item,
             kept E isPending filterOpts item = true →
             default "" (GetLabels item !! "kor/used") ≠ "true").
  { intros isPending item. unfold kept, used. case_bool_decide; [discriminate | done]. }
  split; [|split; [|split]].
  - intros A isPending record resourceName acc item. simpl.
    unfold scanItem, excluded, included. split.
    + intros Hused. rewrite bool_decide_eq_true_2 by exact Hused. reflexivity.
    + intros Hused. rewrite bool_decide_eq_false_2 by exact Hused.
      destruct (HasExcludedLabel E _ _) as [ex ?]; simpl. split; [intros ->; reflexivity|].
      intros ->. destruct (HasIncludedAge E _ _) as [inc ?]; simpl.
      split; intros ->; simpl; [reflexivity|].
      destruct (isPending item); reflexivity.
  - intros namespaces m err k Hret Hent.
    apply (global_entries _ _ _ _ _ _ _ Hret) in Hent
      as (rts & rt & item & Hcat & Hlisted & Hk & ->).
    exists rts, rt, item. eauto.
  - intros namespace m err k Hret Hent.
    apply (scoped_entries _ _ _ _ _ _ _ Hret) in Hent
      as (rts & rt & item & Hcat & Hlisted & Hk & ->).
    exists rts, rt, item. eauto.
  - intros opts lists st Hrun. rewrite scanAndDelete_run in Hrun.
    unfold scannedIn. destruct (noNamespaceFilter lists).
    + set (namespaces := SetNamespaceList E lists w) in *.
      assert (Hglobal : ∃ resourceDiffs err,
                 (getResourcesWithFinalizersPendingDeletion E w namespaces filterOpts).2
                 = Returned (resourceDiffs, err)).
      { unfold globalMode, bind, observe in Hrun.
        destruct (getResourcesWithFinalizersPendingDeletion E w _ filterOpts)
          as [ev [code | [rd err]]]; [discriminate | simpl; eauto]. }
      destruct Hglobal as (rd & err & Hscan).
      pose proof (globalMode_entries E filterOpts opts namespaces w rd err Hscan) as Hst.
      rewrite Hrun in Hst. injection Hst as ->.
      eexists. split; [reflexivity|]. split; [apply reportOf_response|].
      intros namespace data resourceName name [_ Hin]%list_elem_of_filter Hnames.
      apply range_lookup in Hin.
      assert (Hent : namespaceEntry rd (namespace, resourceName, name))
        by (exists data; auto).
      apply (global_entries _ _ _ _ _ _ _ Hscan) in Hent
        as (rts & rt & item & Hcat & Hlisted & Hk & [= -> -> ->]).
      exists w, rts, rt, item. repeat split; eauto.
    + unfold scopedMode in Hrun.
      destruct (forM (scopedNamespace E filterOpts opts) _ emptyReport w)
        as [[ev w'] o] eqn:Hloop. simpl in Hrun. subst o.
      destruct (scopedMode_entries E filterOpts opts _ _ _ _ _ _ Hloop)
        as (entries & -> & Hentries).
      exists entries. split; [reflexivity|]. split; [apply reportOf_response|].
      intros namespace data resourceName name Hin Hnames.
      destruct (Hentries namespace data Hin)
        as (before & after & e1 & w1 & st1 & Heq & Hpre & Hscan).
      apply (scoped_entries _ _ _ _ _ _ _ Hscan) in Hnames
        as (rts & rt & item & Hcat & Hlisted & Hk & [= -> ->]).
      exists w1, rts, rt, item. split; [by exists before, after, e1, st1|].
      repeat split; eauto. discriminate.
Qed.

(** ** The selection of the mode *)

(** C6. [GetUnusedfinalizers] runs global mode exactly when the include list
    and the exclude list are both empty: then the catalog is fetched once,
    every list call is an all-namespaces call, the result of that one scan
    holds each pending object under the object's own namespace, and every
    group of every resolved namespace of that result is handed once to
    [DeleteResourceWithFinalizer] when the delete flag is set, nothing being
    handed to a delete helper otherwise.  Otherwise it runs scoped mode: every
    list call is scoped to one of the resolved namespaces, each resolved
    namespace has its turn, in order, with a scan of its own that fetches the
    catalog, and in that turn every group of the result of that scan is handed
    once to [DeleteResource] when the delete flag is set and the scan returned
    no error, nothing otherwise. *)
Theorem mode_selection (E : Env) (filterOpts : FilterOptions) (opts : Opts)
    (lists : IncludeExcludeLists) (outputFormat : string) (w : World E) :
  let namespaces := SetNamespaceList E lists w in
  let scans := scanAndDelete E filterOpts opts lists w in
  let run := GetUnusedfinalizers E filterOpts opts lists outputFormat w in
  (IncludeListStr lists = [] ∧ ExcludeListStr lists = [] →
     scans = globalMode E filterOpts opts namespaces w
     ∧ discoveryCalls run.1.1 = 1%nat
     ∧ (∀ gvr ns, CallList gvr ns ∈ run.1.1 → ns = NamespaceAll)
     ∧ (∀ wf names ns resourceType noInteractive,
          CallDelete wf names ns resourceType noInteractive ∈ run.1.1 →
          wf = true ∧ ns ∈ namespaces
          ∧ ∃ resourceDiffs err,
              (getResourcesWithFinalizersPendingDeletion E w namespaces filterOpts).2
              = Returned (resourceDiffs, err)
              ∧ scannedGroup resourceDiffs ns resourceType names)
     ∧ (∀ resourceTypes resourceDiffs err,
          ServerPreferredResources E w = Ok resourceTypes →
          (getResourcesWithFinalizersPendingDeletion E w namespaces filterOpts).2
          = Returned (resourceDiffs, err) →
          (∀ ns resourceType,
             default ∅ (resourceDiffs !! ns) !! resourceType
             = stored (collectedNames E NamespaceAll pendingChecked w filterOpts
                         (ofTypeIn ns resourceType) resourceTypes))
          ∧ deleteCalls run.1.1
            ≡ₚ if DeleteFlag opts
               then globalGroups namespaces (map_to_list resourceDiffs)
               else []))
  ∧ (¬ (IncludeListStr lists = [] ∧ ExcludeListStr lists = []) →
     scans = scopedMode E filterOpts opts namespaces w
     ∧ (∀ gvr ns, CallList gvr ns ∈ run.1.1 → ns ∈ namespaces)
     ∧ (∀ wf names ns resourceType noInteractive,
          CallDelete wf names ns resourceType noInteractive ∈ run.1.1 →
          wf = false ∧ ns ∈ namespaces)
     ∧ (∀ out, run.2 = Returned out →
          scopedTrace opts namespaces scans.1.1
          ∧ discoveryCalls run.1.1 = length namespaces)
     ∧ (∀ before ns after e1 w1 st1 resourceDiffs err,
          namespaces = before ++ ns :: after →
          forM (scopedNamespace E filterOpts opts) before emptyReport w
          = (e1, w1, Returned st1) →
          (getNamespacedResourcesWithFinalizersPendingDeletion E w1 ns filterOpts).2
          = Returned (resourceDiffs, err) →
          let turn := scopedNamespace E filterOpts opts st1 ns w1 in
          (∃ rest, run.1.1 = e1 ++ turn.1.1 ++ rest)
          ∧ discoveryCalls turn.1.1 = 1%nat
          ∧ (∀ gvr scope, CallList gvr scope ∈ turn.1.1 → scope = ns)
          ∧ deleteCalls turn.1.1
            ≡ₚ if DeleteFlag opts
               then match err with
                    | None => scopedGroups ns resourceDiffs
                    | Some _ => []
                    end
               else [])).
Proof.
  intros namespaces scans run.
  destruct (GetUnusedfinalizers_trace E filterOpts opts lists outputFormat w)
    as (tail & Hrun & Htail & Hret).
  fold run scans in Hrun, Hret.
  assert (Hsame : ∀ e, isDiscovery e = false → (∀ line, e ≠ Stdout line) →
                       e ∈ run.1.1 → e ∈ scans.1.1).
  { intros e _ Hout Hin. rewrite Hrun in Hin. apply elem_of_app in Hin as [Hin | Hin].
    - exact Hin.
    - apply (proj1 (Forall_forall _ _) Htail) in Hin as [err ->].
      destruct (Hout _ eq_refl). }
  assert (Hcount : discoveryCalls run.1.1 = discoveryCalls scans.1.1).
  { rewrite Hrun, discoveryCalls_app.
    rewrite (discoveryCalls_none (λ e, ∃ err, e = formatterDiagnostic err) tail); [lia| |exact Htail].
    intros e [err ->]. reflexivity. }
  pose proof (GetUnusedfinalizers_deleteCalls E filterOpts opts lists outputFormat w) as Hcalls.
  fold run scans in Hcalls.
  pose proof (scanAndDelete_modes E filterOpts opts lists w) as [Hglobal Hscoped].
  fold namespaces scans in Hglobal, Hscoped. split.
  - intros Hempty. destruct (Hglobal Hempty) as (Hmode & Hone & Hlist & Hdel).
    split; [exact Hmode|]. split; [rewrite Hcount; exact Hone|]. split; [|split].
    + intros gvr ns Hin. apply (Hlist gvr). apply Hsame; [reflexivity | discriminate | exact Hin].
    + intros wf names ns rt ni Hin. apply (Hdel _ _ _ _ ni).
      apply Hsame; [reflexivity | discriminate | exact Hin].
    + intros rts rd err Hd Hscan. split.
      * exact (global_names E w namespaces filterOpts rts rd err Hd Hscan).
      * rewrite Hcalls, Hmode. destruct (DeleteFlag opts) eqn:Hflag.
        -- exact (globalMode_deleteCalls E filterOpts opts namespaces w rd err Hflag Hscan).
        -- pose proof (scanAndDelete_deletes_nothing E filterOpts opts lists w Hflag)
             as [_ Hnone].
           fold scans in Hnone. rewrite Hmode in Hnone. by rewrite Hnone.
  - intros Hfilter. destruct (Hscoped Hfilter) as (Hmode & Hlist & Hdel & Hend).
    split; [exact Hmode|]. split; [|split; [|split]].
    + intros gvr ns Hin. apply (Hlist gvr). apply Hsame; [reflexivity | discriminate | exact Hin].
    + intros wf names ns rt ni Hin. apply (Hdel _ names _ rt ni).
      apply Hsame; [reflexivity | discriminate | exact Hin].
    + intros out Hout. destruct (proj1 Hret (ex_intro _ out Hout)) as [st Hst].
      destruct (Hend st Hst) as [Htrace Hn]. split; [exact Htrace|].
      rewrite Hcount. exact Hn.
    + intros before ns after e1 w1 st1 rd err Heq Hpre Hscan turn.
      assert (Hturn : ∃ ev w2 st2, turn = (ev, w2, Returned st2)).
      { unfold turn. rewrite scopedNamespace_run. cbv zeta.
        destruct (getNamespacedResourcesWithFinalizersPendingDeletion E w1 ns filterOpts)
          as [sev o]. cbn [snd] in Hscan. subst o. destruct err as [e|]; cbn [fst snd]; eauto. }
      destruct Hturn as (ev & w2 & st2 & Hturn).
      destruct (scopedNamespace_returned E filterOpts opts st1 ns w1 ev w2 st2 Hturn)
        as (scanEv & driverEv & m & err' & _ & Hev & Hscanned & Hdriver & _).
      split; [|split; [|split]].
      * rewrite Hrun, Hmode. unfold scopedMode. rewrite Heq, forM_app.
        unfold bind at 1. rewrite Hpre. cbn [forM]. unfold bind at 1. fold turn.
        rewrite Hturn. destruct (forM _ after st2 w2) as [[e3 w3] o3]. cbn [fst snd].
        exists (e3 ++ tail). by rewrite <- !app_assoc.
      * rewrite Hturn. cbn [fst]. rewrite Hev.
        change (CallDiscovery :: scanEv ++ driverEv) with ([CallDiscovery] ++ scanEv ++ driverEv).
        rewrite !discoveryCalls_app.
        rewrite (discoveryCalls_none (catalogEvent ns) scanEv);
          [|apply catalogEvent_not_discovery|exact Hscanned].
        rewrite (discoveryCalls_none
                   (driverEvent opts false [ns] (λ _ _ _, True)) driverEv);
          [|apply driverEvent_not_discovery|exact Hdriver].
        reflexivity.
      * intros gvr scope. rewrite Hturn. cbn [fst]. rewrite Hev.
        intros [[=]|[Hin|Hin]%elem_of_app]%elem_of_cons.
        -- exact (proj1 (Forall_forall _ _) Hscanned _ Hin).
        -- destruct (proj1 (Forall_forall _ _) Hdriver _ Hin).
      * exact (scopedNamespace_deleteCalls E filterOpts opts st1 ns w1 rd err Hscan).
Qed.

(** ** The further properties on the demo cluster *)

(** Witness of X2: the include list names [default]. *)
Lemma previous_driver_same_as_scoped_mode_witness :
  PreviousDriver.GetUnusedfinalizers (Demo.env Demo.marshal) Demo.noFilter Demo.deleteAll
    Demo.onlyDefault "json" Demo.cluster
  = GetUnusedfinalizers (Demo.env Demo.marshal) Demo.noFilter Demo.deleteAll
      Demo.onlyDefault "json" Demo.cluster.
Proof.
  apply (previous_driver_same_as_scoped_mode (Demo.env Demo.marshal) Demo.noFilter
           Demo.deleteAll Demo.onlyDefault "json" Demo.cluster).
  reflexivity.
Defined.

(** Witness of X3: a report-only run in global mode. *)
Lemma report_only_run_deletes_nothing_witness :
  (GetUnusedfinalizers (Demo.env Demo.marshal) Demo.noFilter Demo.reportOnly Demo.noLists
     "json" Demo.cluster).1.2 = Demo.cluster
  ∧ deleteCalls (GetUnusedfinalizers (Demo.env Demo.marshal) Demo.noFilter Demo.reportOnly
                   Demo.noLists "json" Demo.cluster).1.1 = [].
Proof.
  apply (report_only_run_deletes_nothing (Demo.env Demo.marshal) Demo.noFilter
           Demo.reportOnly Demo.noLists "json" Demo.cluster).
  reflexivity.
Defined.

(** Witness of X5: the second group/version of [garbled] does not parse. *)
Lemma scan_error_is_first_parse_failure_witness :
  ∃ global scoped err,
    (getResourcesWithFinalizersPendingDeletion (Demo.env Demo.marshal) Demo.garbled
       ["default"] Demo.noFilter).2 = Returned (global, err)
    ∧ (getNamespacedResourcesWithFinalizersPendingDeletion (Demo.env Demo.marshal)
         Demo.garbled "default" Demo.noFilter).2 = Returned (scoped, err)
    ∧ (err = None
       ↔ parses (Demo.env Demo.marshal) [Demo.coreV1; Demo.malformed; Demo.appsV1])
    ∧ ∀ e, err = Some e
           ↔ firstParseFailure (Demo.env Demo.marshal)
               [Demo.coreV1; Demo.malformed; Demo.appsV1] e.
Proof.
  apply (scan_error_is_first_parse_failure (Demo.env Demo.marshal) Demo.garbled
           Demo.noFilter ["default"] "default" [Demo.coreV1; Demo.malformed; Demo.appsV1]).
  reflexivity.
Defined.

(** Witness of X6: [nodes] is not namespaced and is not listed. *)
Lemma scan_lists_each_listable_type_once_witness :
  listCalls (getResourcesWithFinalizersPendingDeletion (Demo.env Demo.marshal) Demo.cluster
               ["default"] Demo.noFilter).1
  = expectedListCalls (Demo.env Demo.marshal) NamespaceAll [Demo.coreV1; Demo.appsV1]
  ∧ listCalls (getNamespacedResourcesWithFinalizersPendingDeletion (Demo.env Demo.marshal)
                 Demo.cluster "default" Demo.noFilter).1
    = expectedListCalls (Demo.env Demo.marshal) "default" [Demo.coreV1; Demo.appsV1]
  ∧ listCalls (Previous.getResourcesWithFinalizersPendingDeletion (Demo.env Demo.marshal)
                 Demo.cluster "default" Demo.noFilter).1
    = expectedListCalls (Demo.env Demo.marshal) "default" [Demo.coreV1; Demo.appsV1].
Proof.
  apply (scan_lists_each_listable_type_once (Demo.env Demo.marshal) Demo.cluster
           Demo.noFilter ["default"] "default" [Demo.coreV1; Demo.appsV1]).
  reflexivity.
Defined.

(** Witness of X7, on the demo cluster. *)
Lemma scan_collects_names_in_order_witness :
  ∃ global scoped err,
    (getResourcesWithFinalizersPendingDeletion (Demo.env Demo.marshal) Demo.cluster
       ["default"] Demo.noFilter).2 = Returned (global, err)
    ∧ (getNamespacedResourcesWithFinalizersPendingDeletion (Demo.env Demo.marshal)
         Demo.cluster "default" Demo.noFilter).2 = Returned (scoped, err)
    ∧ (∀ resourceType,
         scoped !! resourceType
         = stored (collectedNames (Demo.env Demo.marshal) "default" pendingChecked
                     Demo.cluster Demo.noFilter (ofType resourceType)
                     [Demo.coreV1; Demo.appsV1]))
    ∧ (∀ ns resourceType,
         default ∅ (global !! ns) !! resourceType
         = stored (collectedNames (Demo.env Demo.marshal) NamespaceAll pendingChecked
                     Demo.cluster Demo.noFilter (ofTypeIn ns resourceType)
                     [Demo.coreV1; Demo.appsV1]))
    ∧ (∀ ns, global !! ns ≠ Some ∅).
Proof.
  apply (scan_collects_names_in_order (Demo.env Demo.marshal) Demo.cluster
           Demo.noFilter ["default"] "default" [Demo.coreV1; Demo.appsV1]).
  reflexivity.
Defined.

(** Witness of X8: the scan of [default] against the global scan. *)
Lemma scoped_scan_is_global_scan_at_namespace_witness :
  ∃ global scoped,
    (getResourcesWithFinalizersPendingDeletion (Demo.env Demo.marshal) Demo.cluster
       ["default"] Demo.noFilter).2 = Returned (global, None)
    ∧ (getNamespacedResourcesWithFinalizersPendingDeletion (Demo.env Demo.marshal)
         Demo.cluster "default" Demo.noFilter).2 = Returned (scoped, None)
    ∧ scoped = default ∅ (global !! "default").
Proof.
  assert (Hall : NamespaceAll ∉ ["default"]).
  { rewrite !not_elem_of_cons. split; [discriminate | apply not_elem_of_nil]. }
  set (E := Demo.env Demo.marshal).
  assert (Hg :
    (getResourcesWithFinalizersPendingDeletion E Demo.cluster ["default"] Demo.noFilter).2
    = Returned ({[ "default" := {[ "configmaps" := ["cm-a"] ]};
                   "kube-system" := {[ "secrets" := ["sec-b"] ]};
                   "staging" := {[ "deployments" := ["dep-c"] ]} ]}, None))
    by (vm_compute; reflexivity).
  assert (Hs :
    (getNamespacedResourcesWithFinalizersPendingDeletion E Demo.cluster "default"
       Demo.noFilter).2
    = Returned ({[ "configmaps" := ["cm-a"] ]}, None))
    by (vm_compute; reflexivity).
  eexists _, _. split; [exact Hg|]. split; [exact Hs|].
  exact (proj1 (scoped_scan_is_global_scan_at_namespace E Demo.cluster Demo.noFilter
                  ["default"] "default" _ _ None None
                  (demo_namespaceConsistent Demo.marshal Demo.cluster ["default"] Hall)
                  Hg Hs)).
Defined.

(** The global scan of [partial]. *)
Lemma demo_partial_scan :
  (getResourcesWithFinalizersPendingDeletion (Demo.env Demo.marshal) Demo.partial
     (SetNamespaceList (Demo.env Demo.marshal) Demo.noLists Demo.partial) Demo.noFilter).2
  = Returned ({[ "default" := {[ "configmaps" := ["cm-a"] ]};
                 "kube-system" := {[ "secrets" := ["sec-b"] ]};
                 "staging" := {[ "deployments" := ["dep-c"] ]} ]}, None).
Proof. vm_compute; reflexivity. Qed.

(** Witness of X9: [staging] is not resolved in [partial]; the groups of
    [default] and of [kube-system] are deleted. *)
Lemma global_mode_deletes_each_group_once_witness :
  deleteCalls (GetUnusedfinalizers (Demo.env Demo.marshal) Demo.noFilter Demo.deleteAll
                 Demo.noLists "json" Demo.partial).1.1
  ≡ₚ globalGroups (SetNamespaceList (Demo.env Demo.marshal) Demo.noLists Demo.partial)
       (map_to_list ({[ "default" := {[ "configmaps" := ["cm-a"] ]};
                        "kube-system" := {[ "secrets" := ["sec-b"] ]};
                        "staging" := {[ "deployments" := ["dep-c"] ]} ]} : NamespaceIndex)).
Proof.
  apply (global_mode_deletes_each_group_once (Demo.env Demo.marshal) Demo.noFilter
           Demo.deleteAll Demo.noLists "json" Demo.partial _ None);
    [reflexivity | reflexivity | exact demo_partial_scan].
Defined.

(** Witness of X10, on the same run. *)
Lemma global_mode_return_value_witness :
  let E := Demo.env Demo.marshal in
  let m : NamespaceIndex :=
    {[ "default" := {[ "configmaps" := ["cm-a"] ]};
       "kube-system" := {[ "secrets" := ["sec-b"] ]};
       "staging" := {[ "deployments" := ["dep-c"] ]} ]} in
  (GetUnusedfinalizers E Demo.noFilter Demo.deleteAll Demo.noLists "json" Demo.partial).2
  = Returned
      match MarshalIndent E (filter (λ e : string * TypeIndex,
                                       e.1 ∈ SetNamespaceList E Demo.noLists Demo.partial)
                                    m) with
      | Err e => ("", Some e)
      | Ok json =>
          ((unusedResourceFormatter E "json"
              (written (globalBlocks E Demo.deleteAll
                          (SetNamespaceList E Demo.noLists Demo.partial)
                          (range E Demo.partial _ m)))
              Demo.deleteAll json).1, None)
      end.
Proof.
  cbv zeta.
  apply (global_mode_return_value (Demo.env Demo.marshal) Demo.noFilter Demo.deleteAll
           Demo.noLists "json" Demo.partial _ None);
    [reflexivity | exact demo_partial_scan].
Defined.

(** Witness of X11: a report-only run over [default] and [vacant]. *)
Lemma scoped_report_only_return_value_witness :
  let E := Demo.env Demo.marshal in
  let results :=
    scopedResults E Demo.cluster Demo.noFilter
      (SetNamespaceList E Demo.defaultAndVacant Demo.cluster) in
  (GetUnusedfinalizers E Demo.noFilter Demo.reportOnly Demo.defaultAndVacant "table"
     Demo.cluster).2
  = Returned
      match MarshalIndent E (list_to_map results) with
      | Err e => ("", Some e)
      | Ok json =>
          ((unusedResourceFormatter E "table"
              (written (scopedBlocks E Demo.reportOnly results))
              Demo.reportOnly json).1, None)
      end.
Proof.
  cbv zeta.
  apply (scoped_report_only_return_value (Demo.env Demo.marshal) Demo.noFilter
           Demo.reportOnly Demo.defaultAndVacant "table" Demo.cluster
           [Demo.coreV1; Demo.appsV1]); reflexivity.
Defined.
